(** * go-graphql: a shallow embedding of the engine and its checked properties

    The development follows the layout of the Go sources:
    - [Go]          the few pieces of the Go runtime the sources rely on
                    (bytes, runes, fixed-width counters, panics);
    - [Names]       [validGraphQlName]                      (parse.go);
    - [QueryParser] [Iter], [parseName], [parseOperator],
                    [ParseQuery]                            (query_parser.go);
    - [Enums]       [RegisterEnum], [registerEnumCheck]     (enum registry);
    - [Bytecode]    the reusable [BytecodeCtx] and its reset
                                                            (bytecode_resolver.go);
    - [Parse]       [checkFunction], [check], [Parse]       (parse.go);
    - [Resolve]     the tree-walking resolver               (resolve.go). *)

From Stdlib Require Import ZArith String Ascii List Lia Bool DecimalString.
From stdpp Require Import gmap strings list sorting.

#[local] Set Warnings "-register-all".
#[local] Open Scope Z_scope.

(* ===================================================================== *)
(** * Go runtime model *)
(* ===================================================================== *)

Module Go.

(** Outcome of running a piece of Go code: a normal return, a run-time
    panic, or exhaustion of the fuel given to a loop of the model. *)
Inductive Res (A : Type) : Type :=
| Ok (a : A)
| Panic (msg : string)
| Diverge.

Arguments Ok {A} a.
Arguments Panic {A} msg.
Arguments Diverge {A}.

(** A Go [error] value; [None] is [nil]. *)
Definition error : Type := option string.

(** A Go [rune] and a Go [byte], as integers. *)
Definition rune : Type := Z.

Definition rune_of_byte (b : ascii) : rune := Z.of_N (N_of_ascii b).

(** [len(s)] of a Go string. *)
Definition len (s : string) : Z := Z.of_nat (String.length s).

(** Wrap-around of the fixed-width unsigned integers. *)
Definition wrap64 (n : Z) : Z := n mod 2 ^ 64.
Definition wrap32 (n : Z) : Z := n mod 2 ^ 32.
Definition wrap8 (n : Z) : Z := n mod 2 ^ 8.

(** Rune literals used by the sources. *)
Definition r_A : rune := 65.
Definition r_Z : rune := 90.
Definition r_a : rune := 97.
Definition r_z : rune := 122.
Definition r_0 : rune := 48.
Definition r_9 : rune := 57.
Definition r_underscore : rune := 95.
Definition r_space : rune := 32.
Definition r_tab : rune := 9.
Definition r_lf : rune := 10.
Definition r_cr : rune := 13.
Definition r_hash : rune := 35.
Definition r_lbrace : rune := 123.
Definition r_rbrace : rune := 125.
Definition r_lparen : rune := 40.
Definition r_at : rune := 64.
Definition r_colon : rune := 58.
Definition r_bom : rune := 65279.

(** The double quote, as a one-byte string. *)
Definition dquote : string := String (ascii_of_nat 34) EmptyString.

(** Code that works on a mutable object of type [S] (a receiver reached
    through a pointer): a state monad over [S] whose computations may also
    panic or run out of fuel. *)
Definition M (S A : Type) : Type := S -> Res (A * S).

Definition ret {S A} (a : A) : M S A := fun s => Ok (a, s).

Definition bind {S A B} (m : M S A) (k : A -> M S B) : M S B :=
  fun s =>
    match m s with
    | Ok (a, s') => k a s'
    | Panic msg => Panic msg
    | Diverge => Diverge
    end.

Definition get {S} : M S S := fun s => Ok (s, s).
Definition put {S} (s : S) : M S unit := fun _ => Ok (tt, s).
Definition diverge {S A} : M S A := fun _ => Diverge.
Definition panic {S A} (msg : string) : M S A := fun _ => Panic msg.

(** A computation that does not touch the state. *)
Definition lift {S A} (r : Res A) : M S A :=
  fun s =>
    match r with
    | Ok a => Ok (a, s)
    | Panic msg => Panic msg
    | Diverge => Diverge
    end.

End Go.

Notation "'let*' x ':=' m 'in' k" := (Go.bind m (fun x => k))
  (at level 10, x pattern, m at level 100, k at level 200).
Notation "m ';;;' k" := (Go.bind m (fun _ => k))
  (at level 100, k at level 200, right associativity).

Import Go.

(* ===================================================================== *)
(** * Identifier validation (parse.go, [validGraphQlName]) *)
(* ===================================================================== *)

Module Names.

Definition isUpper (char : rune) : bool := (r_A <=? char) && (char <=? r_Z).
Definition isLower (char : rune) : bool := (r_a <=? char) && (char <=? r_z).
Definition isDigit (char : rune) : bool := (r_0 <=? char) && (char <=? r_9).

Definition invalidName : string := "invalid graphql name".

(** The body of [for i, char := range name]: [i] is the index of the first
    byte of [name] in the whole identifier. *)
Fixpoint validGraphQlName_range (i : Z) (name : list ascii) : error :=
  match name with
  | [] => None
  | b :: rest =>
      let char := rune_of_byte b in
      if isUpper char then validGraphQlName_range (i + 1) rest
      else if isLower char then validGraphQlName_range (i + 1) rest
      else if (0 <? i) && (isDigit char || (char =? r_underscore))
           then validGraphQlName_range (i + 1) rest
      else Some invalidName
  end.

Definition validGraphQlName (name : string) : error :=
  if len name =? 0 then Some invalidName
  else validGraphQlName_range 0 (list_ascii_of_string name).

(** The name grammar as the specification words it:
    [[A-Za-z_][A-Za-z0-9_]*]. *)
Definition nameStart (char : rune) : bool :=
  isUpper char || isLower char || (char =? r_underscore).

Definition nameContinue (char : rune) : bool :=
  isUpper char || isLower char || isDigit char || (char =? r_underscore).

Definition matchesNameGrammar (name : list ascii) : bool :=
  match name with
  | [] => false
  | b :: rest =>
      nameStart (rune_of_byte b)
      && forallb (fun b' => nameContinue (rune_of_byte b')) rest
  end.






(** The grammar [validGraphQlName] implements: a letter, then letters,
    digits and underscores, [[A-Za-z][A-Za-z0-9_]*]. *)
Definition isLetter (char : rune) : bool := isUpper char || isLower char.

Definition matchesLetterFirst (name : list ascii) : bool :=
  match name with
  | [] => false
  | b :: rest =>
      isLetter (rune_of_byte b)
      && forallb (fun b' => nameContinue (rune_of_byte b')) rest
  end.

End Names.

(* ===================================================================== *)
(** * The query parser (query_parser.go) *)
(* ===================================================================== *)

Module QueryParser.

Definition ErrorUnexpectedEOF : string := "unexpected EOF".

Record Operator : Type := MkOperator {
  operationType : string; (* "query" || "mutation" || "subscription" *)
  name : string           (* the empty string = no name given *)
}.

Record Field : Type := MkField {
  alias : string;
  fieldName : string
}.

(** [Iter]: the source text as its bytes, and the [uint64] cursor. *)
Record Iter : Type := MkIter {
  data : list ascii;
  charNr : Z
}.

(** Methods of [*Iter] read and move the cursor. *)
Definition M (A : Type) : Type := Go.M Iter A.

Definition getCharNr : M Z := fun i => Ok (charNr i, i).

(** [i.charNr++] *)
Definition incrCharNr : M unit :=
  fun i => Ok (tt, MkIter (data i) (wrap64 (charNr i + 1))).

Definition setCharNr (nr : Z) : M unit :=
  fun i => Ok (tt, MkIter (data i) nr).

(** [i.eof(nr)] *)
Definition eof (nr : Z) : M bool :=
  fun i => Ok (Z.of_nat (length (data i)) <=? nr, i).

(** [i.c(nr)]: indexing past the end of the string panics. *)
Definition c (nr : Z) : M rune :=
  fun i =>
    match data i !! Z.to_nat nr with
    | Some b => Ok (rune_of_byte b, i)
    | None => Panic "index out of range"
    end.

(** [i.checkC(nr)] *)
Definition checkC (nr : Z) : M (rune * bool) :=
  let* e := eof nr in
  if e then ret (0, true)
  else let* r := c nr in ret (r, false).

(** [i.currentC()] *)
Definition currentC : M rune := let* nr := getCharNr in c nr.

(** The iterations a loop over the text can make: every loop of the parser
    moves the cursor forward by at least one byte per iteration. *)
Definition loopFuel : M nat := fun i => Ok (S (S (length (data i))), i).

Definition isUnicodeBom (input : rune) : bool := input =? r_bom.

Definition isWhiteSpace (input : rune) : bool :=
  (input =? r_space) || (input =? r_tab).

(** [i.isLineTerminator()] *)
Definition isLineTerminator : M bool :=
  let* r := currentC in
  if r =? r_lf then ret true
  else if r =? r_cr then
    let* nr := getCharNr in
    let* (next, _) := checkC (wrap64 (nr + 1)) in
    (if next =? r_lf then incrCharNr else ret tt) ;;;
    ret true
  else ret false.

Fixpoint parseComment_loop (fuel : nat) : M unit :=
  match fuel with
  | O => diverge
  | S fuel' =>
      let* nr := getCharNr in
      let* e := eof nr in
      if e then ret tt
      else
        let* lt := isLineTerminator in
        if lt then ret tt
        else incrCharNr ;;; parseComment_loop fuel'
  end.

(** [i.parseComment()] *)
Definition parseComment : M unit :=
  let* fuel := loopFuel in parseComment_loop fuel.

(** [i.isComment(parseComment)] *)
Definition isComment (doParse : bool) : M bool :=
  let* r := currentC in
  if r =? r_hash then
    (if doParse then parseComment else ret tt) ;;;
    ret true
  else ret false.

(** [i.isIgnoredToken()]: the operands of [||] are evaluated left to right
    and only as far as needed. *)
Definition isIgnoredToken : M bool :=
  let* r := currentC in
  if isUnicodeBom r then ret true
  else if isWhiteSpace r then ret true
  else
    let* lt := isLineTerminator in
    if lt then ret true else isComment true.

(** [allowedChars] of [parseName]: [Some true] for a byte allowed as the
    first character, [Some false] for one allowed only later, [None] for a
    rune that is not a key of the map. *)
Definition allowedChars (r : rune) : option bool :=
  if ((r_a <=? r) && (r <=? r_z)) || (r =? r_underscore) then Some true
  else if (r_0 <=? r) && (r <=? r_9) then Some false
  else None.

(** [string(c)] for a rune below 128: the one-byte string. *)
Definition string_of_rune (r : rune) : string :=
  String (ascii_of_N (Z.to_N r)) EmptyString.

Fixpoint parseName_loop (fuel : nat) (name : string) : M string :=
  match fuel with
  | O => diverge
  | S fuel' =>
      let* nr := getCharNr in
      let* (r, e) := checkC nr in
      if e then ret name
      else
        match allowedChars r with
        | None => ret name
        | Some allowedAsFirstChar =>
            if String.eqb name EmptyString && negb allowedAsFirstChar then ret name
            else incrCharNr ;;; parseName_loop fuel' (name +:+ string_of_rune r)
        end
  end.

(** [i.parseName()] *)
Definition parseName : M string :=
  let* fuel := loopFuel in parseName_loop fuel EmptyString.

(** One pass of [for key := range oneOfMap] in [matches]: the keys still in
    the map are visited in the order of the list; a key is dropped from the
    map when it cannot match, and the key whose length is [offset+1] is
    returned (before the remaining keys are visited). *)
Fixpoint matches_range (keys kept : list string) (offset : Z) (r : rune)
  : string + list string :=
  match keys with
  | [] => inr (rev kept)
  | key :: keys' =>
      let keyLen := len key in
      let drop :=
        (keyLen <=? offset)
        || negb (match String.get (Z.to_nat offset) key with
                 | Some b => rune_of_byte b =? r
                 | None => false
                 end) in
      if keyLen =? wrap64 (offset + 1) then inl key
      else matches_range keys' (if drop then kept else key :: kept) offset r
  end.

Fixpoint matches_loop (fuel : nat) (startIdx : Z) (oneOfMap : list string)
  : M string :=
  match fuel with
  | O => diverge
  | S fuel' =>
      let* nr := getCharNr in
      let* (r, e) := checkC nr in
      if e then setCharNr startIdx ;;; ret EmptyString
      else
        let offset := wrap64 (nr - startIdx) in
        match matches_range oneOfMap [] offset r with
        | inl key => ret key
        | inr oneOfMap' =>
            if (length oneOfMap' =? 0)%nat then setCharNr startIdx ;;; ret EmptyString
            else incrCharNr ;;; matches_loop fuel' startIdx oneOfMap'
        end
  end.

(** [i.matches(oneOf...)]; the set of keys is the list without repeats. *)
Definition matches (oneOf : list string) : M string :=
  let* startIdx := getCharNr in
  let* fuel := loopFuel in
  matches_loop fuel startIdx (remove_dups oneOf).

Fixpoint parseField_loop (fuel : nat) (res : Field) (nameOrAlias : string)
  : M (option Field * error) :=
  match fuel with
  | O => diverge
  | S fuel' =>
      let* nr := getCharNr in
      let* (r, e) := checkC nr in
      if e then ret (None, Some ErrorUnexpectedEOF)
      else
        let* ig := isIgnoredToken in
        if ig then incrCharNr ;;; parseField_loop fuel' res nameOrAlias
        else if r =? r_colon
             then ret (Some (MkField nameOrAlias (fieldName res)), None)
             else ret (Some res, None)
  end.

(** [i.parseField()] *)
Definition parseField : M (option Field * error) :=
  let* nameOrAlias := parseName in
  if String.eqb nameOrAlias EmptyString then
    ret (None, Some "field should have a name")
  else
    let* fuel := loopFuel in parseField_loop fuel (MkField EmptyString EmptyString) nameOrAlias.

(** [i.parseSelection()]: the result of [parseField] is dropped. *)
Definition parseSelection : M error :=
  let* m := matches ["..."] in
  if 0 <? len m then
    incrCharNr ;;; ret (Some "https://spec.graphql.org/June2018/#Selection")
  else parseField ;;; ret None.

Fixpoint parseSelectionSets_loop (fuel : nat) : M error :=
  match fuel with
  | O => diverge
  | S fuel' =>
      let* nr := getCharNr in
      let* (r, e) := checkC nr in
      if e then ret (Some ErrorUnexpectedEOF)
      else
        let* ig := isIgnoredToken in
        if ig then incrCharNr ;;; parseSelectionSets_loop fuel'
        else if r =? r_rbrace then ret None
        else
          let* err := parseSelection in
          match err with
          | Some _ => ret err
          | None =>
              if r =? r_rbrace then ret None
              else incrCharNr ;;; parseSelectionSets_loop fuel'
          end
  end.

(** [i.parseSelectionSets()] *)
Definition parseSelectionSets : M error :=
  let* fuel := loopFuel in parseSelectionSets_loop fuel.

(** The values the local variable [stage] of [parseOperator] takes. *)
Inductive Stage : Type :=
| StOperationType
| StName
| StVariableDefinitions
| StDirectives
| StSelectionSets.

Definition isOperationTypeStage (stage : Stage) : bool :=
  match stage with StOperationType => true | _ => false end.

Fixpoint parseOperator_loop (fuel : nat) (res : Operator) (stage : Stage)
  : M (option Operator * error) :=
  match fuel with
  | O => diverge
  | S fuel' =>
      let* nr := getCharNr in
      let* e := eof nr in
      if e then
        if negb (isOperationTypeStage stage)
        then ret (None, Some ErrorUnexpectedEOF)
        else ret (Some res, None)
      else
        let* ig := isIgnoredToken in
        if ig then incrCharNr ;;; parseOperator_loop fuel' res stage
        else
          let* r := currentC in
          match stage with
          | StOperationType =>
              if r =? r_lbrace then
                incrCharNr ;;; parseOperator_loop fuel' res StSelectionSets
              else
                let* newOperationType :=
                  matches ["query"; "mutation"; "subscription"] in
                if 0 <? len newOperationType then
                  incrCharNr ;;;
                  parseOperator_loop fuel'
                    (MkOperator newOperationType (name res)) StName
                else ret (None, Some "unknown operation type")
          | StName =>
              if r =? r_lparen then
                incrCharNr ;;; parseOperator_loop fuel' res StVariableDefinitions
              else if r =? r_at then
                incrCharNr ;;; parseOperator_loop fuel' res StDirectives
              else if r =? r_lbrace then
                incrCharNr ;;; parseOperator_loop fuel' res StSelectionSets
              else
                let* n := parseName in
                incrCharNr ;;;
                parseOperator_loop fuel'
                  (MkOperator (operationType res) n) StVariableDefinitions
          | StVariableDefinitions =>
              if r =? r_at then
                incrCharNr ;;; parseOperator_loop fuel' res StDirectives
              else if r =? r_lbrace then
                incrCharNr ;;; parseOperator_loop fuel' res StSelectionSets
              else
                ret (None,
                     Some "https://spec.graphql.org/June2018/#VariableDefinitions")
          | StDirectives =>
              if r =? r_lbrace then
                incrCharNr ;;; parseOperator_loop fuel' res StSelectionSets
              else
                ret (None,
                     Some "https://spec.graphql.org/June2018/#sec-Language.Directives")
          | StSelectionSets =>
              let* err := parseSelectionSets in
              match err with
              | Some _ => ret (None, err)
              | None => ret (Some res, None)
              end
          end
  end.

(** [i.parseOperator()] *)
Definition parseOperator : M (option Operator * error) :=
  let* fuel := loopFuel in
  parseOperator_loop fuel (MkOperator "query" EmptyString) StOperationType.

(** [ParseQuery(input)]: the returned operator and error. *)
Definition ParseQuery (input : string) : Res (option Operator * error) :=
  match parseOperator (MkIter (list_ascii_of_string input) 0) with
  | Ok ((Some res, None), _) => Ok (Some res, None)
  | Ok ((_, Some err), _) => Ok (None, Some err)
  | Ok ((None, None), _) => Ok (None, None)
  | Panic msg => Panic msg
  | Diverge => Diverge
  end.

(** The inputs made of ignored tokens only, as the grammar has them: white
    space, line terminators and comments, a comment being a [#] and what
    follows it up to the end of the line.  [inComment] tells whether the
    text starts inside a comment. *)
Fixpoint ignoredOnly (inComment : bool) (text : list ascii) : bool :=
  match text with
  | [] => true
  | b :: rest =>
      let r := rune_of_byte b in
      if (r =? r_lf) || (r =? r_cr) then ignoredOnly false rest
      else if inComment then ignoredOnly true rest
      else if isWhiteSpace r then ignoredOnly false rest
      else if r =? r_hash then ignoredOnly true rest
      else false
  end.

(** The key [key] of [matches] agrees with the text from [start] on its
    first [j] bytes. *)
Definition agrees (text : list ascii) (start : Z) (key : string) (j : nat)
  : Prop :=
  forall p : nat,
    (p < j)%nat -> String.get p key = text !! (Z.to_nat start + p)%nat.

(** The operators [parseOperator] can return: one of the three operation
    types, and a name that is empty or a name of the grammar. *)
Definition validOperator (op : Operator) : bool :=
  bool_decide (operationType op ∈ ["query"; "mutation"; "subscription"])
  && (String.eqb (name op) EmptyString
      || Names.matchesNameGrammar (list_ascii_of_string (name op))).

End QueryParser.

(* ===================================================================== *)
(** * Package reflect: kinds, types and values *)
(* ===================================================================== *)

Module Reflect.

(** [reflect.Kind] *)
Inductive Kind : Type :=
| Invalid | Bool
| Int | Int8 | Int16 | Int32 | Int64
| Uint | Uint8 | Uint16 | Uint32 | Uint64 | Uintptr
| Float32 | Float64 | Complex64 | Complex128
| Array | Chan | Func | Interface | Map | Ptr | Slice
| String | Struct | UnsafePointer.

#[global] Instance Kind_eq_dec : EqDecision Kind.
Proof. solve_decision. Defined.

Definition kind_eqb (a b : Kind) : bool := bool_decide (a = b).

Definition isIntKind (k : Kind) : bool :=
  match k with Int | Int8 | Int16 | Int32 | Int64 => true | _ => false end.

Definition isUintKind (k : Kind) : bool :=
  match k with Uint | Uint8 | Uint16 | Uint32 | Uint64 => true | _ => false end.

(** Width in bits of the integer kinds ([int], [uint] and [uintptr] are
    64 bits wide). *)
Definition kindBits (k : Kind) : Z :=
  match k with
  | Int8 | Uint8 => 8
  | Int16 | Uint16 => 16
  | Int32 | Uint32 => 32
  | _ => 64
  end.

(** [reflect.Type]: what the sources ask of a type.  A type is a finite
    tree; a recursive declaration is unfolded as deep as the traversal
    looks, which stops at a name it has already registered. *)
Inductive GoType : Type :=
| MkType (tKind : Kind) (tName tPkgPath : string)
         (tElem : option GoType) (tLen : nat)
         (tFields : list StructField) (tMethods : list Method)
         (tIn tOut : list GoType) (tVariadic : bool)
with StructField : Type :=
| MkStructField (sfName : string) (sfType : GoType) (sfAnonymous : bool)
                (sfTagGq : option string)
with Method : Type :=
| MkMethod (mName mPkgPath : string) (mType : GoType).

Definition tKind (t : GoType) : Kind :=
  match t with MkType k _ _ _ _ _ _ _ _ _ => k end.
Definition tName (t : GoType) : string :=
  match t with MkType _ n _ _ _ _ _ _ _ _ => n end.
Definition tPkgPath (t : GoType) : string :=
  match t with MkType _ _ p _ _ _ _ _ _ _ => p end.
Definition tElem (t : GoType) : option GoType :=
  match t with MkType _ _ _ e _ _ _ _ _ _ => e end.
Definition tLen (t : GoType) : nat :=
  match t with MkType _ _ _ _ l _ _ _ _ _ => l end.
Definition tFields (t : GoType) : list StructField :=
  match t with MkType _ _ _ _ _ f _ _ _ _ => f end.
Definition tMethods (t : GoType) : list Method :=
  match t with MkType _ _ _ _ _ _ m _ _ _ => m end.
Definition tIn (t : GoType) : list GoType :=
  match t with MkType _ _ _ _ _ _ _ i _ _ => i end.
Definition tOut (t : GoType) : list GoType :=
  match t with MkType _ _ _ _ _ _ _ _ o _ => o end.
Definition tVariadic (t : GoType) : bool :=
  match t with MkType _ _ _ _ _ _ _ _ _ v => v end.

Definition sfName (f : StructField) : string :=
  match f with MkStructField n _ _ _ => n end.
Definition sfType (f : StructField) : GoType :=
  match f with MkStructField _ t _ _ => t end.
Definition sfAnonymous (f : StructField) : bool :=
  match f with MkStructField _ _ a _ => a end.
Definition sfTagGq (f : StructField) : option string :=
  match f with MkStructField _ _ _ g => g end.

Definition mName (m : Method) : string :=
  match m with MkMethod n _ _ => n end.
Definition mPkgPath (m : Method) : string :=
  match m with MkMethod _ p _ => p end.
Definition mType (m : Method) : GoType :=
  match m with MkMethod _ _ t => t end.

(** Builders for the types of the examples. *)
Definition basicType (k : Kind) (name : string) : GoType :=
  MkType k name EmptyString None 0 [] [] [] [] false.
Definition namedType (k : Kind) (pkg name : string) : GoType :=
  MkType k name pkg None 0 [] [] [] [] false.
Definition structType (pkg name : string) (fields : list StructField)
  (methods : list Method) : GoType :=
  MkType Struct name pkg None 0 fields methods [] [] false.
Definition funcType (ins outs : list GoType) : GoType :=
  MkType Func EmptyString EmptyString None 0 [] [] ins outs false.
Definition sliceType (elem : GoType) : GoType :=
  MkType Slice EmptyString EmptyString (Some elem) 0 [] [] [] [] false.
Definition arrayType (n : nat) (elem : GoType) : GoType :=
  MkType Array EmptyString EmptyString (Some elem) n [] [] [] [] false.
Definition ptrType (elem : GoType) : GoType :=
  MkType Ptr EmptyString EmptyString (Some elem) 0 [] [] [] [] false.
Definition stringType : GoType := basicType String "string".
Definition intType : GoType := basicType Int "int".
Definition boolType : GoType := basicType Bool "bool".
(** The predeclared interface [error]: one method, [Error() string]. *)
Definition errorType : GoType :=
  MkType Interface "error" EmptyString None 0 []
    [MkMethod "Error" EmptyString (funcType [] [stringType])] [] [] false.

(** [reflect.Value].  A float is its IEEE-754 bit pattern; a function value
    is the index of its body in the table of host functions; the dynamic
    type of a scalar is its kind together with the name of its type (the
    name of the kind for a predeclared type). *)
Inductive GoValue : Type :=
| VInvalid                                   (* the zero [reflect.Value] *)
| VBool (typeName : string) (b : bool)
| VInt (k : Kind) (typeName : string) (n : Z)
| VUint (k : Kind) (typeName : string) (n : Z)
| VFloat (k : Kind) (typeName : string) (bits : Z)
| VString (typeName : string) (s : string)
| VStruct (fields : list (string * GoValue)) (methods : list (string * nat))
| VSlice (elems : option (list GoValue))     (* [None]: the nil slice *)
| VArray (elems : list GoValue)
| VPtr (target : option GoValue)             (* [None]: the nil pointer *)
| VError (err : option string)               (* of interface type [error] *)
| VFunc (body : option nat)                  (* [None]: the nil func *)
| VCtx                                       (* the pointer to the context *)
| VOther (k : Kind).                         (* maps, channels, ... *)

(** [v.Kind()] *)
Definition kindOf (v : GoValue) : Kind :=
  match v with
  | VInvalid => Invalid
  | VBool _ _ => Bool
  | VInt k _ _ | VUint k _ _ | VFloat k _ _ => k
  | VString _ _ => String
  | VStruct _ _ => Struct
  | VSlice _ => Slice
  | VArray _ => Array
  | VPtr _ | VCtx => Ptr
  | VError _ => Interface
  | VFunc _ => Func
  | VOther k => k
  end.

(** [v.Type().Name()] of a value of a scalar kind, the values
    [matchInputValue] sets; the other values of the model carry no type
    name. *)
Definition typeNameOf (v : GoValue) : option string :=
  match v with
  | VBool n _ | VInt _ n _ | VUint _ n _ | VFloat _ n _ | VString n _ => Some n
  | _ => None
  end.

(** [v.IsNil()]: the value must be a chan, func, interface, map, pointer or
    slice; on any other kind the call panics. *)
Definition IsNil (v : GoValue) : Res bool :=
  match v with
  | VSlice None | VPtr None | VError None | VFunc None => Ok true
  | VSlice (Some _) | VPtr (Some _) | VError (Some _) | VFunc (Some _)
  | VCtx => Ok false
  | VOther Chan | VOther Map | VOther Interface | VOther UnsafePointer =>
      Ok false
  | _ => Panic "reflect: call of reflect.Value.IsNil on a value that cannot be nil"
  end.

(** [v.Len()] and [v.Index(i)] on an array or a slice. *)
Definition elemsOf (v : GoValue) : Res (list GoValue) :=
  match v with
  | VSlice (Some l) => Ok l
  | VSlice None => Ok []
  | VArray l => Ok l
  | _ => Panic "reflect: call of reflect.Value.Len on a value without length"
  end.

(** [v.FieldByName(name)]: the zero value when the struct has no such
    field, a panic when [v] is not a struct. *)
Fixpoint assoc {A} (name : string) (l : list (string * A)) : option A :=
  match l with
  | [] => None
  | (n, a) :: l' => if String.eqb n name then Some a else assoc name l'
  end.

Definition FieldByName (v : GoValue) (name : string) : Res GoValue :=
  match v with
  | VStruct fields _ =>
      Ok (match assoc name fields with Some f => f | None => VInvalid end)
  | _ => Panic "reflect: call of reflect.Value.FieldByName on a non-struct value"
  end.

(** [v.MethodByName(name)]: the bound method, the zero value when there is
    none, a panic on the zero value. *)
Definition methodsOf (v : GoValue) : list (string * nat) :=
  match v with VStruct _ ms => ms | _ => [] end.

Definition MethodByName (v : GoValue) (name : string) : Res GoValue :=
  match v with
  | VInvalid => Panic "reflect: call of reflect.Value.MethodByName on zero Value"
  | _ =>
      Ok (match assoc name (methodsOf v) with
          | Some f => VFunc (Some f)
          | None => VInvalid
          end)
  end.

(** [v.Elem()] of a pointer. *)
Definition Elem (v : GoValue) : Res GoValue :=
  match v with
  | VPtr (Some t) => Ok t
  | VPtr None => Ok VInvalid
  | VCtx => Ok (VOther Struct)
  | _ => Panic "reflect: call of reflect.Value.Elem on a value that is no pointer"
  end.

(** The zero value of a type ([reflect.New(t).Elem()]). *)
Fixpoint zeroValue (t : GoType) : GoValue :=
  match t with
  | MkType k name _ elem n fields _ _ _ _ =>
      match k with
      | Bool => VBool name false
      | Int | Int8 | Int16 | Int32 | Int64 => VInt k name 0
      | Uint | Uint8 | Uint16 | Uint32 | Uint64 | Uintptr => VUint k name 0
      | Float32 | Float64 => VFloat k name 0
      | String => VString name EmptyString
      | Struct =>
          VStruct
            ((fix zeroFields (fs : list StructField) : list (string * GoValue) :=
                match fs with
                | [] => []
                | MkStructField fname ftype _ _ :: fs' =>
                    (fname, zeroValue ftype) :: zeroFields fs'
                end) fields)
            []
      | Slice => VSlice None
      | Array =>
          VArray (match elem with
                  | Some e => replicate n (zeroValue e)
                  | None => []
                  end)
      | Ptr => VPtr None
      | Func => VFunc None
      | Interface =>
          if String.eqb name "error" then VError None else VOther Interface
      | _ => VOther k
      end
  end.

(** Two's-complement truncation to the width of a signed kind, and
    truncation to the width of an unsigned kind. *)
Definition truncSigned (k : Kind) (n : Z) : Z :=
  let m := 2 ^ kindBits k in
  let r := n mod m in
  if r <? m / 2 then r else r - m.

Definition truncUnsigned (k : Kind) (n : Z) : Z := n mod 2 ^ kindBits k.

(** [fmt.Sprintf("%d", n)] *)
Definition formatInt (n : Z) : string :=
  DecimalString.NilZero.string_of_int (Z.to_int n).

End Reflect.

(* ===================================================================== *)
(** * The enum registry ([RegisterEnum], [registerEnumCheck]) *)
(* ===================================================================== *)

Module Enums.

Import Reflect.

(** A value of an enum type: an integer, an unsigned integer or a string,
    after the kind of the enum's underlying type. *)
Inductive EnumValue : Type :=
| EnumInt (n : Z)
| EnumUint (n : Z)
| EnumString (s : string).

#[global] Instance EnumValue_eq_dec : EqDecision EnumValue.
Proof. solve_decision. Defined.

#[global] Instance EnumValue_countable : Countable EnumValue.
Proof.
  refine (inj_countable'
            (fun v => match v with
                      | EnumInt n => inl (inl n)
                      | EnumUint n => inl (inr n)
                      | EnumString s => inr s
                      end)
            (fun x => match x with
                      | inl (inl n) => EnumInt n
                      | inl (inr n) => EnumUint n
                      | inr s => EnumString s
                      end) _).
  intros []; reflexivity.
Defined.

(** The argument [map_ interface{}] as [reflect.ValueOf] shows it: the kind
    of its type, the kind of the key type, the element type, and the
    entries of the map. *)
Record MapArg : Type := MkMapArg {
  mapKind : Kind;
  mapKeyKind : Kind;
  mapElem : GoType;
  mapEntries : gmap string EnumValue
}.

Record qlEnumValue : Type := MkQlEnumValue {
  qlName : string;
  qlDescription : option string;
  qlIsDeprecated : bool;
  qlDeprecationReason : option string
}.

(** The part of [qlType] an enum fills in. *)
Record qlType : Type := MkQlType {
  qlKind : string;
  qlTypeName : option string;
  qlTypeDescription : option string;
  qlEnumValues : list qlEnumValue
}.

Definition typeKindEnum : string := "ENUM".

Record enum : Type := MkEnum {
  contentType : GoType;
  typeName : string;
  keyValue : gmap string EnumValue;
  valueKey : gmap EnumValue string;
  enumQlType : qlType
}.

(** [validEnumType(t)] *)
Definition validEnumType (t : GoType) : bool :=
  match tKind t with
  | Int | Int8 | Int16 | Int32 | Int64 => true
  | Uint | Uint8 | Uint16 | Uint32 | Uint64 => true
  | String => true
  | _ => false
  end.

Definition invalidTypeMsg : string :=
  "RegisterEnum input must be of type map[string]CustomType(int..|uint..|string) as input".

(** The loop [for iter.Next()] of [registerEnumCheck] over the entries of
    the map, in the order [MapRange] yields them. *)
Fixpoint registerEnumCheck_range (entries : list (string * EnumValue))
  (res : gmap string EnumValue) (valueKeyMap : gmap EnumValue string)
  : Res (gmap string EnumValue * gmap EnumValue string) :=
  match entries with
  | [] => Ok (res, valueKeyMap)
  | (keyStr, v) :: entries' =>
      if String.eqb keyStr EmptyString then
        Panic "RegisterEnum input map cannot contain empty keys"
      else
        match Names.validGraphQlName keyStr with
        | Some _ =>
            Panic ("RegisterEnum map key must start with an alphabetic character (lower or upper) followed by the same or a _, key given: "
                   +:+ keyStr)
        | None =>
            match valueKeyMap !! v with
            | Some _ =>
                Panic "RegisterEnum input map cannot have duplicated values"
            | None =>
                registerEnumCheck_range entries'
                  (<[keyStr := v]> res) (<[v := keyStr]> valueKeyMap)
            end
        end
  end.

(** [registerEnumCheck(map_)]: [Ok None] is the nil result. *)
Definition registerEnumCheck (map_ : MapArg) : Res (option enum) :=
  if negb (kind_eqb (mapKind map_) Map) then Panic invalidTypeMsg
  else if negb (kind_eqb (mapKeyKind map_) String) then Panic invalidTypeMsg
  else
    let contentType := mapElem map_ in
    if negb (validEnumType contentType) then Panic invalidTypeMsg
    else if String.eqb (tPkgPath contentType) EmptyString
            || String.eqb (tName contentType) EmptyString then
      Panic "RegisterEnum input map value must have a global custom type value (type Animals string) or (type Rules uint64)"
    else
      let inputLen := size (mapEntries map_) in
      if (inputLen =? 0)%nat then
        (* No point in registering enums with 0 items *)
        Ok None
      else
        match registerEnumCheck_range (map_to_list (mapEntries map_)) ∅ ∅ with
        | Panic msg => Panic msg
        | Diverge => Diverge
        | Ok (res, valueKeyMap) =>
            let name := tName contentType in
            let qlTypeEnumValues :=
              map (fun key => MkQlEnumValue key (Some EmptyString) false None)
                  (merge_sort String.le (map fst (map_to_list res))) in
            Ok (Some (MkEnum contentType name res valueKeyMap
                        (MkQlType typeKindEnum (Some name) (Some EmptyString)
                                  qlTypeEnumValues)))
        end.

(** [RegisterEnum(map_)] on the package-level map [definedEnums]: the
    returned flag and the map after the call. *)
Definition RegisterEnum (definedEnums : gmap string enum) (map_ : MapArg)
  : Res (bool * gmap string enum) :=
  match registerEnumCheck map_ with
  | Panic msg => Panic msg
  | Diverge => Diverge
  | Ok None => Ok (false, definedEnums)
  | Ok (Some e) => Ok (true, <[typeName e := e]> definedEnums)
  end.

(** [getEnum(t)] on the package-level map [definedEnums]: the enum is
    looked up by the name of the type alone. *)
Definition getEnum (definedEnums : gmap string enum) (t : GoType)
  : option enum :=
  if (String.length (tPkgPath t) =? 0)%nat
     || (String.length (tName t) =? 0)%nat
     || negb (validEnumType t)
  then None
  else definedEnums !! tName t.

(** The types of argument [registerEnumCheck] does not panic on at once: a
    map with string keys whose element type is a named type of an integer,
    unsigned integer or string kind. *)
Definition enumMapType (map_ : MapArg) : bool :=
  kind_eqb (mapKind map_) Map
  && kind_eqb (mapKeyKind map_) String
  && validEnumType (mapElem map_)
  && negb (String.eqb (tPkgPath (mapElem map_)) EmptyString)
  && negb (String.eqb (tName (mapElem map_)) EmptyString).

End Enums.

(* ===================================================================== *)
(** * The reusable context of the bytecode resolver (bytecode_resolver.go) *)
(* ===================================================================== *)

Module Bytecode.

Import Reflect.

(** A Go slice of bytes: the backing array it points into (its length is
    the capacity of the slice) and the length of the slice. *)
Record Slice : Type := MkSlice {
  backing : list ascii;
  sliceLen : nat
}.

Definition cap (s : Slice) : nat := length (backing s).

(** The bytes of the slice. *)
Definition contents (s : Slice) : list ascii := take (sliceLen s) (backing s).

(** [s[:0]]: same backing array, length zero. *)
Definition resliceToZero (s : Slice) : Slice := MkSlice (backing s) 0.

(** [append(s, b...)]: in place while the bytes fit the capacity; otherwise
    a larger array is allocated, whose capacity the runtime chooses
    ([grow] gives the spare room it adds). *)
Definition append (grow : nat -> nat) (s : Slice) (b : list ascii) : Slice :=
  let n := (sliceLen s + length b)%nat in
  if (n <=? cap s)%nat then
    MkSlice (take (sliceLen s) (backing s) ++ b ++ drop n (backing s)) n
  else
    MkSlice (take (sliceLen s) (backing s) ++ b
             ++ replicate (grow n) (ascii_of_nat 0)) n.

Section Ctx.

(** The schema a context points to and the parser state of package
    [bytecode] are kept abstract. *)
Context {Schema ParserCtx : Type}.

Record BytecodeCtx : Type := MkBytecodeCtx {
  schema : Schema;
  query : ParserCtx;
  result : Slice;
  charNr : Z;

  (* Zero alloc values *)
  reflectValues : list GoValue;     (* [256]reflect.Value *)
  currentReflectValueIdx : Z        (* uint8 *)
}.

(** [ctx.getGoValue()] *)
Definition getGoValue (ctx : BytecodeCtx) : GoValue :=
  match reflectValues ctx !! Z.to_nat (currentReflectValueIdx ctx) with
  | Some v => v
  | None => VInvalid
  end.

(** [ctx.setNextGoValue(value)] *)
Definition setNextGoValue (ctx : BytecodeCtx) (value : GoValue) : BytecodeCtx :=
  let idx := wrap8 (currentReflectValueIdx ctx + 1) in
  MkBytecodeCtx (schema ctx) (query ctx) (result ctx) (charNr ctx)
    (<[Z.to_nat idx := value]> (reflectValues ctx)) idx.

(** [ctx.write(b)] and [ctx.writeByte(b)] *)
Definition write (grow : nat -> nat) (ctx : BytecodeCtx) (b : list ascii)
  : BytecodeCtx :=
  MkBytecodeCtx (schema ctx) (query ctx) (append grow (result ctx) b)
    (charNr ctx) (reflectValues ctx) (currentReflectValueIdx ctx).

Definition writeByte (grow : nat -> nat) (ctx : BytecodeCtx) (b : ascii)
  : BytecodeCtx :=
  write grow ctx [b].

(** The first statement of [BytecodeResolve]: the assignment
    [*ctx = BytecodeCtx{schema: ctx.schema, query: ctx.query,
    result: ctx.result[:0], reflectValues: ctx.reflectValues,
    currentReflectValueIdx: 0}]; the field [charNr] is left out of the
    literal and gets its zero value. *)
Definition resetCtx (ctx : BytecodeCtx) : BytecodeCtx :=
  MkBytecodeCtx (schema ctx) (query ctx) (resliceToZero (result ctx)) 0
    (reflectValues ctx) 0.

(** [BytecodeResolve(query, opts)]: the reset, then the statements that
    parse the query and write the response ([run], of package [bytecode]
    and of the interpreter), on the context the reset leaves. *)
Definition BytecodeResolve {Out : Type}
  (run : BytecodeCtx -> list ascii -> bool -> BytecodeCtx * Out)
  (ctx : BytecodeCtx) (queryText : list ascii) (noMeta : bool)
  : BytecodeCtx * Out :=
  run (resetCtx ctx) queryText noMeta.

End Ctx.

Arguments BytecodeCtx : clear implicits.

End Bytecode.

(* ===================================================================== *)
(** * Kinds of schema nodes ([valueType]) *)
(* ===================================================================== *)

Module ValueTypes.

Inductive valueType : Type :=
| valueTypeUndefined
| valueTypeArray
| valueTypeObjRef
| valueTypeObj
| valueTypeData
| valueTypePtr
| valueTypeMethod
| valueTypeEnum
| valueTypeTime
| valueTypeInterfaceRef
| valueTypeInterface.

#[global] Instance valueType_eq_dec : EqDecision valueType.
Proof. solve_decision. Defined.

End ValueTypes.

(* ===================================================================== *)
(** * The tree-walking resolver (resolve.go) *)
(* ===================================================================== *)

Module Resolve.

Import Reflect ValueTypes.

(** ** The parsed query *)

(** A literal argument value of the query. *)
Record Value : Type := MkValue {
  isVar : bool;
  isNull : bool;
  isEnum : bool;
  valType : Kind;
  intValue : Z;
  floatValue : Z;
  stringValue : string;
  booleanValue : bool
}.

Inductive Selection : Type :=
| SelField (field : Field)                         (* selectionType "Field" *)
| SelFragmentSpread (spreadName : string)          (* "FragmentSpread" *)
| SelInlineFragment (selection : list Selection)   (* "InlineFragment" *)
with Field : Type :=
| MkField (name alias : string) (selection : list Selection)
          (arguments : gmap string Value).

Definition SelectionSet : Type := list Selection.

Definition fName (f : Field) : string :=
  match f with MkField n _ _ _ => n end.
Definition fAlias (f : Field) : string :=
  match f with MkField _ a _ _ => a end.
Definition fSelection (f : Field) : SelectionSet :=
  match f with MkField _ _ s _ => s end.
Definition fArguments (f : Field) : gmap string Value :=
  match f with MkField _ _ _ a => a end.

Definition Directives : Type := list string.

Record InlineFragment : Type := MkInlineFragment {
  fragmentSelection : SelectionSet
}.

Record Operator : Type := MkOperator {
  operationType : string;
  opName : string;
  directives : Directives;
  selection : SelectionSet;
  fragment : option InlineFragment
}.

(** ** The type graph *)

Record Input : Type := MkInput {
  isCtx : bool;
  type_ : GoType
}.

Record InField : Type := MkInField {
  inputIdx : Z;
  goName : string;
  kind : Kind
}.

Inductive Obj : Type :=
| MkObj (valueType_ : valueType) (typeName_ structFieldName_ : string)
        (objContents_ : gmap string Obj) (innerContent_ : option Obj)
        (method_ : option ObjMethod)
with ObjMethod : Type :=
| MkObjMethod (isTypeMethod_ : bool) (ins_ : list Input)
              (inFields_ : gmap string InField) (outNr_ : Z) (outType_ : Obj)
              (errorOutNr_ : option Z).

Definition valueTypeOf (o : Obj) : valueType :=
  match o with MkObj v _ _ _ _ _ => v end.
Definition typeName (o : Obj) : string :=
  match o with MkObj _ n _ _ _ _ => n end.
Definition structFieldName (o : Obj) : string :=
  match o with MkObj _ _ n _ _ _ => n end.
Definition objContents (o : Obj) : gmap string Obj :=
  match o with MkObj _ _ _ c _ _ => c end.
Definition innerContent (o : Obj) : option Obj :=
  match o with MkObj _ _ _ _ i _ => i end.
Definition method (o : Obj) : option ObjMethod :=
  match o with MkObj _ _ _ _ _ m => m end.

Definition isTypeMethod (m : ObjMethod) : bool :=
  match m with MkObjMethod b _ _ _ _ _ => b end.
Definition ins (m : ObjMethod) : list Input :=
  match m with MkObjMethod _ i _ _ _ _ => i end.
Definition inFields (m : ObjMethod) : gmap string InField :=
  match m with MkObjMethod _ _ f _ _ _ => f end.
Definition outNr (m : ObjMethod) : Z :=
  match m with MkObjMethod _ _ _ n _ _ => n end.
Definition outType (m : ObjMethod) : Obj :=
  match m with MkObjMethod _ _ _ _ t _ => t end.
Definition errorOutNr (m : ObjMethod) : option Z :=
  match m with MkObjMethod _ _ _ _ _ e => e end.

Record Schema : Type := MkSchema {
  types : gmap string Obj;
  rootQuery : Obj;
  rootQueryValue : GoValue;
  rootMethod : Obj;
  MaxDepth : Z                      (* uint8 *)
}.

(** The context of a resolution.  [Values] is its one exported field: the
    map [map[string]interface{}] that the resolvers of the host program,
    which are handed the pointer to the context, may read and write. *)
Record Ctx : Type := MkCtx {
  fragments : gmap string Operator;
  schema : Schema;
  Values : gmap string GoValue;
  directvies : list Directives;
  errors : list string
}.

Definition M (A : Type) : Type := Go.M Ctx A.

(** The context with another list of errors, and with another map
    [Values]. *)
Definition setErrors (ctx : Ctx) (errs : list string) : Ctx :=
  MkCtx (fragments ctx) (schema ctx) (Values ctx) (directvies ctx) errs.

Definition setValues (ctx : Ctx) (values : gmap string GoValue) : Ctx :=
  MkCtx (fragments ctx) (schema ctx) values (directvies ctx) (errors ctx).

(** [ctx.addErr(err)] and [ctx.addErrf(format, args...)]: the message is
    built at the call. *)
Definition addErr (err : string) : M unit :=
  fun ctx => Ok (tt, setErrors ctx (errors ctx ++ [err])).

(** Reads of [ctx.schema] and [ctx.fragments]. *)
Definition getSchema : M Schema := fun ctx => Ok (schema ctx, ctx).
Definition getFragments : M (gmap string Operator) :=
  fun ctx => Ok (fragments ctx, ctx).

(** [strings.Join(l, sep)] *)
Fixpoint join (sep : string) (l : list string) : string :=
  match l with
  | [] => EmptyString
  | [x] => x
  | x :: l' => x +:+ sep +:+ join sep l'
  end.

(** [l[i]] for an [int] index: out of range panics. *)
Definition index {A} (l : list A) (i : Z) : Res A :=
  if i <? 0 then Panic "index out of range"
  else match l !! Z.to_nat i with
       | Some a => Ok a
       | None => Panic "index out of range"
       end.

(** Replace [l[i]], for an index known to be in range. *)
Definition setIndex {A} (l : list A) (i : Z) (a : A) : list A :=
  <[Z.to_nat i := a]> l.

(** ** Scalars to JSON *)

(** The name of the predeclared type of a kind. *)
Definition predeclaredName (k : Kind) : string :=
  match k with
  | Bool => "bool" | String => "string"
  | Int => "int" | Int8 => "int8" | Int16 => "int16"
  | Int32 => "int32" | Int64 => "int64"
  | Uint => "uint" | Uint8 => "uint8" | Uint16 => "uint16"
  | Uint32 => "uint32" | Uint64 => "uint64" | Uintptr => "uintptr"
  | Float32 => "float32" | Float64 => "float64"
  | _ => EmptyString
  end.

Definition isPredeclared (k : Kind) (name : string) : bool :=
  String.eqb name (predeclaredName k).

Section Host.

(** What the host program and the Go library supply: the bodies of the
    resolver functions, [fmt]'s [%q] and the float formatter.  The body of
    a resolver is run on its inputs and on the map [ctx.Values], the state
    of the resolution it can reach (through a context input, the pointer
    [VCtx]); it returns its outputs and the map it leaves. *)
Variable callFunc :
  nat -> list GoValue -> gmap string GoValue ->
  Res (list GoValue * gmap string GoValue).
(** The order in which a [range] statement visits the entries of a map,
    which Go leaves unspecified; it is taken to be the same in every range
    over the same map. *)
Variable rangeOrder : forall V : Type, gmap string V -> list (string * V).
Variable quote : string -> string.
Variable floatToJson : Z -> Z -> string.
(** [float32(x)] as a [float64], on bit patterns. *)
Variable roundToFloat32 : Z -> Z.

(** [valueToJson] on a value of a predeclared scalar type; [None] when the
    type switch has no case for the dynamic type. *)
Definition scalarToJson (v : GoValue) : option string :=
  match v with
  | VString n s => if isPredeclared String n then Some (quote s) else None
  | VBool n b =>
      if isPredeclared Bool n then Some (if b then "true" else "false")
      else None
  | VInt k n x => if isPredeclared k n then Some (formatInt x) else None
  | VUint k n x => if isPredeclared k n then Some (formatInt x) else None
  | VFloat k n bits =>
      if isPredeclared k n then
        Some (floatToJson (match k with Float32 => 32 | _ => 64 end) bits)
      else None
  | _ => None
  end.

(** [valueToJson(in)]: a pointer to a predeclared scalar is followed once;
    a nil pointer is rendered [null]. *)
Definition valueToJson (v : GoValue) : string * error :=
  match scalarToJson v with
  | Some s => (s, None)
  | None =>
      match v with
      | VPtr None => ("null", None)
      | VPtr (Some w) =>
          match scalarToJson w with
          | Some s => (s, None)
          | None => ("null", Some "invalid data type")
          end
      | _ => ("null", Some "invalid data type")
      end
  end.

(** [v.Interface()] panics on the zero value. *)
Definition Interface (v : GoValue) : Res GoValue :=
  match v with
  | VInvalid => Panic "reflect: call of reflect.Value.Interface on zero Value"
  | _ => Ok v
  end.

(** [v.Call(inputs)]: the body of the function runs on the inputs and on
    [ctx.Values], which it may change. *)
Definition Call (v : GoValue) (inputs : list GoValue) : M (list GoValue) :=
  fun ctx =>
    match v with
    | VFunc (Some f) =>
        match callFunc f inputs (Values ctx) with
        | Ok (outs, values) => Ok (outs, setValues ctx values)
        | Panic msg => Panic msg
        | Diverge => Diverge
        end
    | VFunc None => Panic "reflect: call of nil function"
    | _ => Panic "reflect: call of reflect.Value.Call on a value that is no function"
    end.

(** ** Arguments *)

(** [matchInputValue(queryValue, goField, goFieldKind)]: the field after the
    call and the error.  The setters of [reflect] panic on a field whose
    kind is not the one they set. *)
Definition matchInputValue (queryValue : Value) (goField : GoValue)
  (goFieldKind : Kind) : Res (GoValue * error) :=
  if isVar queryValue then
    Ok (goField, Some "variable function arguments are currently unsupported")
  else if isNull queryValue then Ok (goField, None)
  else if isEnum queryValue then
    Ok (goField, Some "enum function arguments are currently unsupported")
  else
    match valType queryValue with
    | Int =>
        if isIntKind goFieldKind then
          match goField with
          | VInt k n _ => Ok (VInt k n (truncSigned k (intValue queryValue)), None)
          | _ => Panic "reflect: call of reflect.Value.SetInt on a value of another kind"
          end
        else if isUintKind goFieldKind then
          match goField with
          | VUint k n _ =>
              Ok (VUint k n (truncUnsigned k (wrap64 (intValue queryValue))), None)
          | _ => Panic "reflect: call of reflect.Value.SetUint on a value of another kind"
          end
        else Ok (goField, Some "function arguments type missmatch expected number")
    | Float64 =>
        if kind_eqb goFieldKind Float32 || kind_eqb goFieldKind Float64 then
          match goField with
          | VFloat Float32 n _ =>
              Ok (VFloat Float32 n (roundToFloat32 (floatValue queryValue)), None)
          | VFloat k n _ => Ok (VFloat k n (floatValue queryValue), None)
          | _ => Panic "reflect: call of reflect.Value.SetFloat on a value of another kind"
          end
        else Ok (goField, Some "function arguments type missmatch expected float")
    | String =>
        if kind_eqb goFieldKind String then
          match goField with
          | VString n _ => Ok (VString n (stringValue queryValue), None)
          | _ => Panic "reflect: call of reflect.Value.SetString on a value of another kind"
          end
        else Ok (goField, Some "function arguments type missmatch expected string")
    | Bool =>
        if kind_eqb goFieldKind Bool then
          match goField with
          | VBool n _ => Ok (VBool n (booleanValue queryValue), None)
          | _ => Panic "reflect: call of reflect.Value.SetBool on a value of another kind"
          end
        else Ok (goField, Some "function arguments type missmatch expected string")
    | Array =>
        if kind_eqb goFieldKind Array || kind_eqb goFieldKind Slice then
          Ok (goField, Some "function input type not supported")
        else Ok (goField, Some "function arguments type missmatch expected array")
    | Map => Ok (goField, Some "function input type not supported")
    | _ => Ok (goField, Some "undefined function input type")
    end.

(** Store a field of the struct [inputs[idx]] (the field [goField] aliases). *)
Definition setStructField (v : GoValue) (name : string) (f : GoValue) : GoValue :=
  match v with
  | VStruct fields ms =>
      VStruct (map (fun '(n, old) => if String.eqb n name then (n, f) else (n, old))
                   fields) ms
  | _ => v
  end.

(** The loop [for queryKey, queryValue := range query.arguments]: [None]
    when the function returned from inside the loop, else the inputs. *)
Fixpoint bindArguments (queryName : string) (inFields : gmap string InField)
  (args : list (string * Value)) (inputs : list GoValue)
  : M (option (list GoValue)) :=
  match args with
  | [] => ret (Some inputs)
  | (queryKey, queryValue) :: args' =>
      match inFields !! queryKey with
      | None =>
          addErr ("undefined function " +:+ queryName +:+ " input: " +:+ queryKey) ;;;
          bindArguments queryName inFields args' inputs
      | Some inField =>
          let* input := lift (index inputs (inputIdx inField)) in
          let* goField := lift (FieldByName input (goName inField)) in
          let* (goField', err) :=
            lift (matchInputValue queryValue goField (kind inField)) in
          match err with
          | Some e =>
              addErr (e +:+ ", function: " +:+ queryName +:+ ", property: "
                      +:+ queryKey) ;;;
              ret None
          | None =>
              bindArguments queryName inFields args'
                (setIndex inputs (inputIdx inField)
                   (setStructField input (goName inField) goField'))
          end
      end
  end.

(** The inputs a method is called with, before the arguments are set:
    [reflect.ValueOf(ctx)], the pointer to the context, for a context
    input, and a new zero value of its type for any other. *)
Definition newInput (i : Input) : GoValue :=
  if isCtx i then VCtx else zeroValue (type_ i).

(** The inspection of the error output of a method: [true] when the
    function returns from it. *)
Definition checkErrorOut (queryName : string) (errorOutNr : option Z)
  (outs : list GoValue) : M bool :=
  match errorOutNr with
  | None => ret false
  | Some nr =>
      let* errOut := lift (index outs nr) in
      let* isNil := lift (IsNil errOut) in
      if isNil then ret false
      else
        match errOut with
        | VError (Some err) => addErr err ;;; ret false
        | _ =>
            addErr ("field " +:+ queryName +:+ " returned a invalid kind of error") ;;;
            ret true
        end
  end.

(** The loop over the elements of a list value: each element is resolved
    by [resolveElem] and its text appended, whatever its error flag. *)
Fixpoint resolveElems (resolveElem : GoValue -> M (string * bool))
  (elems : list GoValue) (list_ : list string) : M (list string) :=
  match elems with
  | [] => ret list_
  | v :: elems' =>
      let* (res, _) := resolveElem v in
      resolveElems resolveElem elems' (list_ ++ [res])
  end.

(** ** Selections

    [resolveSelection], [resolveSelectionContent], [resolveField] and
    [resolveFieldDataValue] call one another; [resolveSelectionContent] is
    the one entered again for every nested selection set and fragment, and
    it is passed to the others as [recurse]. *)
Section Recurse.

Variable recurse : SelectionSet -> GoValue -> Obj -> Z -> M string.

(** [ctx.resolveSelection(selectionSet, struct_, structType, dept)] *)
Definition resolveSelection (selectionSet : SelectionSet) (struct_ : GoValue)
  (structType : Obj) (dept : Z) : M string :=
  let* schema := getSchema in
  if MaxDepth schema <=? dept then ret "null"
  else
    let dept := wrap8 (dept + 1) in
    let* content := recurse selectionSet struct_ structType dept in
    ret ("{" +:+ content +:+ "}").

(** [ctx.resolveFieldDataValue(query, value, codeStructure, dept)] *)
Fixpoint resolveFieldDataValue (codeStructure : Obj) (query : Field)
  (value : GoValue) (dept : Z) {struct codeStructure} : M (string * bool) :=
  match codeStructure with
  | MkObj vt tName _ _ inner meth =>
      match vt with
      | valueTypeMethod =>
          match meth with
          | None => panic "invalid memory address or nil pointer dereference"
          | Some (MkObjMethod _ ins inFields outNr outType errorOutNr) =>
              let inputs := map newInput ins in
              let* bound :=
                bindArguments (fName query) inFields
                  (rangeOrder Value (fArguments query)) inputs in
              match bound with
              | None => ret ("null", true)
              | Some inputs =>
                  let* outs := Call value inputs in
                  let* returned := checkErrorOut (fName query) errorOutNr outs in
                  if returned then ret ("null", true)
                  else
                    let* out := lift (index outs outNr) in
                    resolveFieldDataValue outType query out dept
              end
          end
      | valueTypeArray =>
          if negb (kind_eqb (kindOf value) Array)
             && negb (kind_eqb (kindOf value) Slice)
          then ret ("null", false)
          else
            let* isNil := lift (IsNil value) in
            if isNil then ret ("null", false)
            else
              match inner with
              | None =>
                  addErr ("field " +:+ fName query
                          +:+ " does not have an internal type of an array") ;;;
                  ret ("null", true)
              | Some inner =>
                  let* elems := lift (elemsOf value) in
                  let* list_ :=
                    resolveElems
                      (fun v => resolveFieldDataValue inner query v dept)
                      elems [] in
                  ret ("[" +:+ join "," list_ +:+ "]", false)
              end
      | valueTypeObj | valueTypeObjRef =>
          if (length (fSelection query) =? 0)%nat then
            addErr ("field " +:+ fName query +:+ " must have a selection") ;;;
            ret ("null", true)
          else
            let* schema := getSchema in
            let resolved :=
              match vt with
              | valueTypeObjRef => types schema !! tName
              | _ => Some codeStructure
              end in
            match resolved with
            | None =>
                addErr ("field " +:+ fName query +:+ " cannot have a selection") ;;;
                ret ("null", true)
            | Some codeStructure' =>
                let* val :=
                  resolveSelection (fSelection query) value codeStructure' dept in
                ret (val, false)
            end
      | valueTypeData =>
          if (0 <? length (fSelection query))%nat then
            addErr ("field " +:+ fName query +:+ " cannot have a selection") ;;;
            ret ("null", true)
          else
            let* v := lift (Interface value) in
            ret (fst (valueToJson v), false)
      | valueTypePtr =>
          if negb (kind_eqb (kindOf value) Ptr) then ret ("null", false)
          else
            let* isNil := lift (IsNil value) in
            if isNil then ret ("null", false)
            else
              let* target := lift (Elem value) in
              match inner with
              | None => panic "invalid memory address or nil pointer dereference"
              | Some inner => resolveFieldDataValue inner query target dept
              end
      | _ =>
          addErr ("field " +:+ fName query +:+ " has invalid data type") ;;;
          ret ("null", true)
      end
  end.

(** The closure [res] of [resolveField]: the key (the alias when there is
    one) and the data. *)
Definition fieldEntry (query : Field) (data : string) : string :=
  let name :=
    if (0 <? String.length (fAlias query))%nat then fAlias query
    else fName query in
  dquote +:+ name +:+ dquote +:+ ":" +:+ data.

(** [ctx.resolveField(query, struct_, codeStructure, dept)] *)
Definition resolveField (query : Field) (struct_ : GoValue)
  (codeStructure : Obj) (dept : Z) : M (string * bool) :=
  match objContents codeStructure !! fName query with
  | None =>
      addErr ("field " +:+ fName query +:+ " does not exists on "
              +:+ typeName codeStructure) ;;;
      ret (fieldEntry query "null", true)
  | Some structItem =>
      let* byMethod :=
        if bool_decide (valueTypeOf structItem = valueTypeMethod) then
          match method structItem with
          | Some m => ret (isTypeMethod m)
          | None => panic "invalid memory address or nil pointer dereference"
          end
        else ret false in
      let* value :=
        lift (if byMethod
              then MethodByName struct_ (structFieldName structItem)
              else FieldByName struct_ (structFieldName structItem)) in
      let* (fieldValue, returnedOnError) :=
        resolveFieldDataValue structItem query value dept in
      ret (fieldEntry query fieldValue, returnedOnError)
  end.

(** The statements that add [value] to [res] in [resolveSelectionContent];
    the loop state is the pair of [res] and [writtenToRes]. *)
Definition writeToRes (st : string * bool) (value : string) : string * bool :=
  let (res, writtenToRes) := st in
  ((if writtenToRes then res +:+ "," else res) +:+ value, true).

(** One iteration of [for _, selection := range selectionSet]. *)
Definition resolveOneSelection (struct_ : GoValue) (structType : Obj) (dept : Z)
  (selection : Selection) (st : string * bool) : M (string * bool) :=
  match selection with
  | SelField field =>
      let* (value, hasError) := resolveField field struct_ structType dept in
      if negb hasError then ret (writeToRes st value) else ret st
  | SelFragmentSpread name =>
      let* fragments := getFragments in
      match fragments !! name with
      | None => addErr ("unknown fragment " +:+ name) ;;; ret st
      | Some operator =>
          match fragment operator with
          | None => panic "invalid memory address or nil pointer dereference"
          | Some fr =>
              let* value := recurse (fragmentSelection fr) struct_ structType dept in
              if (0 <? String.length value)%nat then ret (writeToRes st value)
              else ret st
          end
      end
  | SelInlineFragment sel =>
      let* value := recurse sel struct_ structType dept in
      if (0 <? String.length value)%nat then ret (writeToRes st value)
      else ret st
  end.

(** The whole [range] loop, from a loop state. *)
Fixpoint resolveSelectionRange (struct_ : GoValue) (structType : Obj) (dept : Z)
  (selectionSet : SelectionSet) (st : string * bool) : M (string * bool) :=
  match selectionSet with
  | [] => ret st
  | selection :: rest =>
      let* st' := resolveOneSelection struct_ structType dept selection st in
      resolveSelectionRange struct_ structType dept rest st'
  end.

End Recurse.

(** [ctx.resolveSelectionContent(selectionSet, struct_, structType, dept)];
    [fuel] bounds how deep selection sets and fragments are entered. *)
Fixpoint resolveSelectionContent (fuel : nat) (selectionSet : SelectionSet)
  (struct_ : GoValue) (structType : Obj) (dept : Z) : M string :=
  match fuel with
  | O => diverge
  | S fuel' =>
      let* (res, _) :=
        resolveSelectionRange (resolveSelectionContent fuel')
          struct_ structType dept selectionSet (EmptyString, false) in
      ret res
  end.

(** [ctx.start(operator)] *)
Definition start (fuel : nat) (operator : Operator) : M string :=
  (if (0 <? length (directives operator))%nat then
     fun ctx =>
       Ok (tt, MkCtx (fragments ctx) (schema ctx) (Values ctx)
                     (directvies ctx ++ [directives operator]) (errors ctx))
   else ret tt) ;;;
  let* schema := getSchema in
  if String.eqb (operationType operator) "query" then
    resolveSelection (resolveSelectionContent fuel) (selection operator)
      (rootQueryValue schema) (rootQuery schema) 0
  else if String.eqb (operationType operator) "mutation" then
    resolveSelection (resolveSelectionContent fuel) (selection operator)
      (rootQueryValue schema) (rootMethod schema) 0
  else if String.eqb (operationType operator) "subscription" then
    addErr "subscription not suppored yet" ;;; ret "{}"
  else
    addErr (operationType operator +:+ " cannot be used as operator") ;;;
    ret "{}".

(** The parser of the full query language is not part of these sources;
    [Resolve] takes what [ParseQueryAndCheckNames] returns for the query:
    the fragments, the operators by name, and the errors. *)
Variable ParseQueryAndCheckNames :
  string -> gmap string Operator * gmap string Operator * list string.

(** [s.Resolve(query, operatorTarget)]: the response text and the errors. *)
Definition Resolve (fuel : nat) (s : Schema) (query operatorTarget : string)
  : Res (string * list string) :=
  let '(fragments, operatorsMap, errs) := ParseQueryAndCheckNames query in
  if (0 <? length errs)%nat then Ok ("{}", errs)
  else
    let ctx := MkCtx fragments s ∅ [] [] in
    let run (operator : Operator) :=
      match start fuel operator ctx with
      | Ok (res, ctx') => Ok (res, errors ctx')
      | Panic msg => Panic msg
      | Diverge => Diverge
      end in
    match size operatorsMap with
    | 0%nat => Ok ("{}", [])
    | 1%nat =>
        (* the range over a map of one entry *)
        match map_to_list operatorsMap with
        | (_, operator) :: _ => run operator
        | [] => Ok (EmptyString, [])
        end
    | _ =>
        if String.eqb operatorTarget EmptyString then
          Ok ("{}", ["multiple operators without target"])
        else
          match operatorsMap !! operatorTarget with
          | Some operator => run operator
          | None =>
              let operatorsList := map fst (rangeOrder Operator operatorsMap) in
              Ok ("{}",
                  [operatorTarget +:+ " is not a valid operator, available operators: "
                   +:+ join ", " operatorsList])
          end
    end.

End Host.

(** The message [resolveField] records for a field the type lacks. *)
Definition unknownFieldError (f : Field) (T : Obj) : string :=
  "field " +:+ fName f +:+ " does not exists on " +:+ typeName T.

(** ** Properties of computations on the context *)

(** A computation whose only effects on the context are to append errors
    and to change the map [Values], and whose result does not depend on the
    errors already there: started from any list of errors [errs] it gives
    the same result, appends the same errors [new] and leaves the same map
    [values]. *)
Definition AppendsErrors {A} (m : M A) : Prop :=
  forall ctx : Ctx,
    exists r : Res (A * list string * gmap string GoValue),
      forall errs : list string,
        m (setErrors ctx errs)
        = match r with
          | Ok (a, new, values) =>
              Ok (a, setValues (setErrors ctx (errs ++ new)) values)
          | Panic msg => Panic msg
          | Diverge => Diverge
          end.

(** The computations [f x], for the [x] of a list, run one after the other
    on the context: the list of their results, in order. *)
Fixpoint inTurn {A B} (f : A -> M B) (l : list A) : M (list B) :=
  match l with
  | [] => ret []
  | x :: l' =>
      let* y := f x in
      let* ys := inTurn f l' in
      ret (y :: ys)
  end.

(** The measure the recursion of [resolveFieldDataValue] goes down. *)
Fixpoint objDepth (o : Obj) : nat :=
  match o with
  | MkObj _ _ _ _ inner meth =>
      S (match inner with Some i => objDepth i | None => 0 end
         + match meth with
           | Some (MkObjMethod _ _ _ _ out _) => objDepth out
           | None => 0
           end)
  end.

(** The loop state of [resolveSelectionContent] after the entries [l]
    were written. *)
Definition written (l : list string) : string * bool :=
  (join "," l, negb (bool_decide (l = []))).

(** The message [resolveFieldDataValue] records for a field whose selection
    set does not fit its type: an object selected without a selection set, a
    scalar selected with one. *)
Definition shapeError (f : Field) : string :=
  "field " +:+ fName f
  +:+ (if bool_decide (fSelection f = []) then " must have a selection"
       else " cannot have a selection").

End Resolve.

(* ===================================================================== *)
(** * Schema construction (parse.go) *)
(* ===================================================================== *)

Module Parse.

Import Reflect ValueTypes.

(** ** Library functions on strings and bytes *)

Definition byte_of (n : Z) : ascii := ascii_of_N (Z.to_N n).

(** The replacement character U+FFFD in UTF-8, which the case mappings of
    [bytes] and [strings] write for a byte that is no valid UTF-8. *)
Definition runeError : list ascii := [byte_of 239; byte_of 191; byte_of 189].

(** [bytes.ToUpper([]byte{b})] and [bytes.ToLower([]byte{b})] *)
Definition toUpper1 (b : ascii) : list ascii :=
  let r := rune_of_byte b in
  if Names.isLower r then [byte_of (r - 32)]
  else if r <? 128 then [b]
  else runeError.

Definition toLower1 (b : ascii) : list ascii :=
  let r := rune_of_byte b in
  if Names.isUpper r then [byte_of (r + 32)]
  else if r <? 128 then [b]
  else runeError.

(** [strings.ToLower] and [strings.ToUpper], byte by byte. *)
Definition toLower (s : string) : string :=
  string_of_list_ascii (concat (map toLower1 (list_ascii_of_string s))).

Definition toUpper (s : string) : string :=
  string_of_list_ascii (concat (map toUpper1 (list_ascii_of_string s))).

(** [strings.HasPrefix] and [strings.TrimPrefix] *)
Definition hasPrefix (s p : string) : bool := String.prefix p s.

Definition trimPrefix (s p : string) : string :=
  if String.prefix p s
  then String.substring (String.length p) (String.length s - String.length p) s
  else s.

(** [strings.TrimSpace], for the ASCII white space. *)
Definition isSpaceByte (b : ascii) : bool :=
  let r := rune_of_byte b in
  (r =? 32) || ((9 <=? r) && (r <=? 13)).

Fixpoint dropSpace (l : list ascii) : list ascii :=
  match l with
  | b :: l' => if isSpaceByte b then dropSpace l' else l
  | [] => []
  end.

Definition trimSpace (s : string) : string :=
  string_of_list_ascii
    (rev (dropSpace (rev (dropSpace (list_ascii_of_string s))))).

(** [strings.Split(s, ",")] *)
Fixpoint splitComma (l : list ascii) (cur : list ascii) : list string :=
  match l with
  | [] => [string_of_list_ascii (rev cur)]
  | b :: l' =>
      if rune_of_byte b =? 44
      then string_of_list_ascii (rev cur) :: splitComma l' []
      else splitComma l' (b :: cur)
  end.

Definition split (s : string) : list string :=
  splitComma (list_ascii_of_string s) [].

(** [getObjKey(key)]: the 32-bit FNV-1 hash of the bytes. *)
Definition getObjKey (key : string) : Z :=
  fold_left (fun hash b => Z.lxor (wrap32 (hash * 16777619)) (rune_of_byte b))
            (list_ascii_of_string key) 2166136261.

(** ** The type graph *)

(** A method is reached through a pointer, shared by the field that holds
    it and by the list of methods to check: a pointer is the index of the
    method in [parsedMethods]. *)
Definition methodPtr : Type := nat.

Inductive obj : Type :=
| MkObj (valueType_ : valueType) (typeName_ goTypeName_ goPkgPath_ : string)
        (qlFieldName_ : string) (hidden_ isID_ : bool)
        (objContents_ : gmap Z obj) (structFieldIdx_ : Z)
        (innerContent_ : option obj) (dataValueType_ : Kind)
        (method_ : option methodPtr) (enumTypeIndex_ : Z)
        (implementations_ : list obj).

Definition valueTypeOf (o : obj) : valueType :=
  match o with MkObj v _ _ _ _ _ _ _ _ _ _ _ _ _ => v end.
Definition typeName (o : obj) : string :=
  match o with MkObj _ n _ _ _ _ _ _ _ _ _ _ _ _ => n end.
Definition goTypeName (o : obj) : string :=
  match o with MkObj _ _ n _ _ _ _ _ _ _ _ _ _ _ => n end.
Definition goPkgPath (o : obj) : string :=
  match o with MkObj _ _ _ p _ _ _ _ _ _ _ _ _ _ => p end.
Definition qlFieldName (o : obj) : string :=
  match o with MkObj _ _ _ _ q _ _ _ _ _ _ _ _ _ => q end.
Definition isID (o : obj) : bool :=
  match o with MkObj _ _ _ _ _ _ i _ _ _ _ _ _ _ => i end.
Definition objContents (o : obj) : gmap Z obj :=
  match o with MkObj _ _ _ _ _ _ _ c _ _ _ _ _ _ => c end.
Definition structFieldIdx (o : obj) : Z :=
  match o with MkObj _ _ _ _ _ _ _ _ i _ _ _ _ _ => i end.
Definition innerContent (o : obj) : option obj :=
  match o with MkObj _ _ _ _ _ _ _ _ _ i _ _ _ _ => i end.
Definition dataValueType (o : obj) : Kind :=
  match o with MkObj _ _ _ _ _ _ _ _ _ _ k _ _ _ => k end.
Definition method (o : obj) : option methodPtr :=
  match o with MkObj _ _ _ _ _ _ _ _ _ _ _ m _ _ => m end.
Definition enumTypeIndex (o : obj) : Z :=
  match o with MkObj _ _ _ _ _ _ _ _ _ _ _ _ e _ => e end.
Definition implementations (o : obj) : list obj :=
  match o with MkObj _ _ _ _ _ _ _ _ _ _ _ _ _ i => i end.

(** The zero [obj] with the names [check] starts from. *)
Definition newObj (typeName goTypeName goPkgPath : string) : obj :=
  MkObj valueTypeUndefined typeName goTypeName goPkgPath EmptyString false false
        ∅ 0 None Invalid None 0 [].

Definition withValueType (o : obj) (v : valueType) : obj :=
  match o with
  | MkObj _ n g p q h i c s ic k m e im => MkObj v n g p q h i c s ic k m e im
  end.
Definition withTypeName (o : obj) (n : string) : obj :=
  match o with
  | MkObj v _ g p q h i c s ic k m e im => MkObj v n g p q h i c s ic k m e im
  end.
Definition withQlFieldName (o : obj) (q : string) : obj :=
  match o with
  | MkObj v n g p _ h i c s ic k m e im => MkObj v n g p q h i c s ic k m e im
  end.
Definition withIsID (o : obj) (i : bool) : obj :=
  match o with
  | MkObj v n g p q h _ c s ic k m e im => MkObj v n g p q h i c s ic k m e im
  end.
Definition withObjContents (o : obj) (c : gmap Z obj) : obj :=
  match o with
  | MkObj v n g p q h i _ s ic k m e im => MkObj v n g p q h i c s ic k m e im
  end.
Definition withStructFieldIdx (o : obj) (s : Z) : obj :=
  match o with
  | MkObj v n g p q h i c _ ic k m e im => MkObj v n g p q h i c s ic k m e im
  end.
Definition withInnerContent (o : obj) (ic : option obj) : obj :=
  match o with
  | MkObj v n g p q h i c s _ k m e im => MkObj v n g p q h i c s ic k m e im
  end.
Definition withDataValueType (o : obj) (k : Kind) : obj :=
  match o with
  | MkObj v n g p q h i c s ic _ m e im => MkObj v n g p q h i c s ic k m e im
  end.
Definition withEnumTypeIndex (o : obj) (e : Z) : obj :=
  match o with
  | MkObj v n g p q h i c s ic k m _ im => MkObj v n g p q h i c s ic k m e im
  end.
Definition withImplementations (o : obj) (im : list obj) : obj :=
  match o with
  | MkObj v n g p q h i c s ic k m e _ => MkObj v n g p q h i c s ic k m e im
  end.

(** [o.getRef()] *)
Definition getRef (o : obj) : Res obj :=
  match valueTypeOf o with
  | valueTypeObj =>
      Ok (withValueType (newObj (typeName o) (goTypeName o) (goPkgPath o))
                        valueTypeObjRef)
  | valueTypeInterface =>
      Ok (withValueType (newObj (typeName o) (goTypeName o) (goPkgPath o))
                        valueTypeInterfaceRef)
  | _ => Panic "getRef can only be used on objects"
  end.

Inductive input : Type :=
| MkInput (kind_ : Kind) (isEnum_ : bool) (enumTypeIndex_ : Z)
          (isID_ isFile_ isTime_ : bool) (goFieldIdx_ : Z)
          (gqFieldName_ : string) (elem_ : option input)
          (isStructPointers_ : bool) (structName_ : string)
          (structContent_ : gmap string input).

Definition inputKind (i : input) : Kind :=
  match i with MkInput k _ _ _ _ _ _ _ _ _ _ _ => k end.
Definition gqFieldName (i : input) : string :=
  match i with MkInput _ _ _ _ _ _ _ g _ _ _ _ => g end.

Definition newInput (k : Kind) : input :=
  MkInput k false 0 false false false 0 EmptyString None false EmptyString ∅.

Record baseInput : Type := MkBaseInput {
  isCtx_ : bool;
  goType_ : option GoType
}.

Record referToInput : Type := MkReferToInput {
  inputIdx : Z;   (* the method's argument index *)
  input_ : input
}.

Record objMethod : Type := MkObjMethod {
  (* Is this a function field inside this object or a method attached to
     the struct *)
  isTypeMethod : bool;
  goFunctionName : string;
  goType : GoType;

  ins : list baseInput;                 (* The real function inputs *)
  inFields : gmap string referToInput;  (* all the fields of all the ins *)
  checkedIns : bool;                    (* are the ins checked yet *)

  outNr : Z;
  outType : obj;
  errorOutNr : option Z
}.

(** A registered directive, as far as [Parse] looks at it. *)
Record Directive : Type := MkDirective {
  directiveName : string;
  parsedMethod : objMethod
}.

Record Schema : Type := MkSchema {
  parsed : bool;
  types : gmap string obj;
  inTypes : gmap string input;
  interfaces : gmap string obj;
  rootQuery : option obj;
  rootQueryValue : GoValue;
  rootMethod : option obj;
  rootMethodValue : GoValue;
  MaxDepth : Z;                                   (* Default 255 *)
  (* the directives by location; one directive is listed under each of its
     locations, and stored once in [directiveStore] *)
  definedDirectives : list (string * list nat);
  directiveStore : list Directive
}.

Record SchemaOptions : Type := MkSchemaOptions {
  noMethodEqualToQueryChecks : bool;
  SkipGraphqlTypesInjection : bool
}.

Record parseCtx : Type := MkParseCtx {
  schema : Schema;
  unknownTypesCount : Z;
  unknownInputsCount : Z;
  parsedMethods : list objMethod
}.

Definition M (A : Type) : Type := Go.M parseCtx A.

Definition withSchema (c : parseCtx) (s : Schema) : parseCtx :=
  MkParseCtx s (unknownTypesCount c) (unknownInputsCount c) (parsedMethods c).

Definition setTypes (t : gmap string obj) : M unit :=
  fun c =>
    let s := schema c in
    Ok (tt, withSchema c
              (MkSchema (parsed s) t (inTypes s) (interfaces s) (rootQuery s)
                 (rootQueryValue s) (rootMethod s) (rootMethodValue s)
                 (MaxDepth s) (definedDirectives s) (directiveStore s))).

Definition setInterfaces (t : gmap string obj) : M unit :=
  fun c =>
    let s := schema c in
    Ok (tt, withSchema c
              (MkSchema (parsed s) (types s) (inTypes s) t (rootQuery s)
                 (rootQueryValue s) (rootMethod s) (rootMethodValue s)
                 (MaxDepth s) (definedDirectives s) (directiveStore s))).

Definition setInTypes (t : gmap string input) : M unit :=
  fun c =>
    let s := schema c in
    Ok (tt, withSchema c
              (MkSchema (parsed s) (types s) t (interfaces s) (rootQuery s)
                 (rootQueryValue s) (rootMethod s) (rootMethodValue s)
                 (MaxDepth s) (definedDirectives s) (directiveStore s))).

(** [t.Add(obj)] on [c.schema.types] and on [c.schema.interfaces] *)
Definition typesAdd (o : obj) : M obj :=
  if negb (bool_decide (valueTypeOf o = valueTypeObj))
     && negb (bool_decide (valueTypeOf o = valueTypeInterface))
  then panic "Can only add struct types to list"
  else
    let* c := get in
    setTypes (<[typeName o := o]> (types (schema c))) ;;;
    lift (getRef o).

Definition interfacesAdd (o : obj) : M obj :=
  if negb (bool_decide (valueTypeOf o = valueTypeObj))
     && negb (bool_decide (valueTypeOf o = valueTypeInterface))
  then panic "Can only add struct types to list"
  else
    let* c := get in
    setInterfaces (<[typeName o := o]> (interfaces (schema c))) ;;;
    lift (getRef o).

(** ** Names and tags *)

(** [formatGoNameToQL(input)] *)
Definition formatGoNameToQL (input : string) : string :=
  match list_ascii_of_string input with
  | [] | [_] => toLower input
  | b0 :: b1 :: rest =>
      if bool_decide (head (toUpper1 b1) = Some b1) then
        (* Don't change names like: INPUT to iNPUT *)
        input
      else string_of_list_ascii (toLower1 b0 ++ b1 :: rest)
  end.

(** [checkValidIDKind(kind)] *)
Definition checkValidIDKind (kind : Kind) : error :=
  match kind with
  | String => None
  | Int | Int8 | Int16 | Int32 | Int64 => None
  | Uint | Uint8 | Uint16 | Uint32 | Uint64 => None
  | _ => Some "strings and numbers can only be labeld with the ID property"
  end.

(** The loop over the modifiers of a [gq] tag. *)
Fixpoint parseFieldTagGQ_modifiers (modifiers : list string)
  (newName : option string) (isID : bool) (err : error)
  : option string * bool * bool * error :=
  match modifiers with
  | [] => (newName, false, isID, err)
  | modifier :: rest =>
      if String.eqb (toLower (trimSpace modifier)) "id"
      then parseFieldTagGQ_modifiers rest newName true err
      else (newName, false, isID,
            Some ("unknown field tag gq argument: " +:+ modifier))
  end.

(** [parseFieldTagGQ(field)]: [(newName, ignore, isID, err)] *)
Definition parseFieldTagGQ (field : StructField)
  : option string * bool * bool * error :=
  match sfTagGq field with
  | None => (None, false, false, None)
  | Some val =>
      if String.eqb val EmptyString then (None, false, false, None)
      else
        match split val with
        | [] => (None, false, false, None)
        | arg0 :: modifiers =>
            let nameArg := trimSpace arg0 in
            if negb (String.eqb nameArg EmptyString) then
              if String.eqb nameArg "-" then (None, true, false, None)
              else
                parseFieldTagGQ_modifiers modifiers (Some nameArg) false
                  (Names.validGraphQlName nameArg)
            else parseFieldTagGQ_modifiers modifiers None false None
        end
  end.

(** The package path of this package, and the two types it recognises by
    name and path. *)
Definition packagePath : string := "github.com/mjarkk/yarql".

Definition isCtx (t : GoType) : bool :=
  kind_eqb (tKind t) Struct && String.eqb "Ctx" (tName t)
  && String.eqb packagePath (tPkgPath t).

Definition isAttrIsID (t : GoType) : bool :=
  String.eqb (tName t) "AttrIsID" && String.eqb (tPkgPath t) packagePath.

(** [k.String()] *)
Definition kindString (k : Kind) : string :=
  match k with
  | Invalid => "invalid" | Bool => "bool"
  | Int => "int" | Int8 => "int8" | Int16 => "int16" | Int32 => "int32"
  | Int64 => "int64"
  | Uint => "uint" | Uint8 => "uint8" | Uint16 => "uint16"
  | Uint32 => "uint32" | Uint64 => "uint64" | Uintptr => "uintptr"
  | Float32 => "float32" | Float64 => "float64"
  | Complex64 => "complex64" | Complex128 => "complex128"
  | Array => "array" | Chan => "chan" | Func => "func"
  | Interface => "interface" | Map => "map" | Ptr => "ptr"
  | Slice => "slice" | String => "string" | Struct => "struct"
  | UnsafePointer => "unsafe.Pointer"
  end.

(** [strings.ToUpper(string(b))[0] != b] negated: the test that a resolver
    name starts with an upper-case letter.  For a byte above 127,
    [string(b)] is the two-byte encoding of the code point [b], whose
    upper case starts with the byte 195 in all but three cases that start
    with another byte different from [b]. *)
Definition startsUpper (b : ascii) : bool :=
  let r := rune_of_byte b in
  if r <? 128 then negb (Names.isLower r) else r =? 195.

Section Build.

(** The package-level tables filled by [TypeRename] and by the
    registration of implementations, the enum lookup of the schema and
    [reflect]'s [Implements], which the traversal consults. *)
Variable renamedTypes : gmap string string.
Variable structImplementsMap : gmap string (list GoType).
Variable implementationMap : gmap string (list GoType).
Variable getEnum : GoType -> option Z.
Variable Implements : GoType -> GoType -> bool.
(** [s.injectQLTypes(ctx)], which adds the introspection types. *)
Variable injectQLTypes : parseCtx -> Res parseCtx.

Definition rename (name : string) : string :=
  match renamedTypes !! name with Some newName => newName | None => name end.

Definition incrUnknownTypesCount : M Z :=
  fun c =>
    let n := unknownTypesCount c + 1 in
    Ok (n, MkParseCtx (schema c) n (unknownInputsCount c) (parsedMethods c)).

Definition incrUnknownInputsCount : M Z :=
  fun c =>
    let n := unknownInputsCount c + 1 in
    Ok (n, MkParseCtx (schema c) (unknownTypesCount c) n (parsedMethods c)).

(** [c.parsedMethods = append(c.parsedMethods, res)]; the pointer [res]. *)
Definition appendParsedMethod (m : objMethod) : M methodPtr :=
  fun c =>
    Ok (length (parsedMethods c),
        MkParseCtx (schema c) (unknownTypesCount c) (unknownInputsCount c)
                   (parsedMethods c ++ [m])).

(** The classification of the outputs in [checkFunction]: the loop
    [for i := 0; i < numOuts; i++], with the variables [isID], [outNr]
    and [hasErrorOut]; [inl] is the error the loop returns with. *)
Fixpoint classifyOuts (name : string) (outs : list GoType) (i : Z)
  (isID : bool) (outNr hasErrorOut : option Z)
  : (bool * string) + (bool * option Z * option Z) :=
  match outs with
  | [] => inr (isID, outNr, hasErrorOut)
  | outType :: outs' =>
      if isAttrIsID outType then
        classifyOuts name outs' (i + 1) true outNr hasErrorOut
      else if kind_eqb (tKind outType) Interface && Implements outType errorType then
        match hasErrorOut with
        | Some _ => inl (isID, name +:+ " cannot return multiple error types")
        | None => classifyOuts name outs' (i + 1) isID outNr (Some i)
        end
      else
        match outNr with
        | Some _ => inl (isID, name +:+ " cannot return multiple types of data")
        | None => classifyOuts name outs' (i + 1) isID (Some i) hasErrorOut
        end
  end.

(** The return values of a resolver as the specification sorts them: the
    marker [AttrIsID], the error values, and the usable data values, which
    are neither. *)
Definition isErrorOut (outType : GoType) : bool :=
  negb (isAttrIsID outType)
  && kind_eqb (tKind outType) Interface && Implements outType errorType.

Definition isDataOut (outType : GoType) : bool :=
  negb (isAttrIsID outType)
  && negb (kind_eqb (tKind outType) Interface && Implements outType errorType).

Definition errorOuts (outs : list GoType) : list GoType := List.filter isErrorOut outs.
Definition dataOuts (outs : list GoType) : list GoType := List.filter isDataOut outs.

(** Whether a variable of the loop has been set: one when it has. *)
Definition seen (o : option Z) : nat :=
  match o with Some _ => 1%nat | None => 0%nat end.

(** The test at the head of [checkFunction]: the name without the prefix
    [Resolve], or [None] when the function returns at once because the
    name is not that of a resolver. *)
Definition resolverName (name : string) (isTypeMethod : bool)
  : Res (option string) :=
  if hasPrefix name "Resolve" then
    if (0 <? String.length name)%nat then
      let trimmedName := trimPrefix name "Resolve" in
      if isTypeMethod then
        match list_ascii_of_string trimmedName with
        | [] => Panic "index out of range"
        | b :: _ =>
            if negb (startsUpper b) then
              (* Resolve name must start with a uppercase letter *)
              Ok None
            else Ok (Some trimmedName)
        end
      else Ok (Some trimmedName)
    else if isTypeMethod then Ok None
    else Ok (Some name)
  else if isTypeMethod then Ok None
  else Ok (Some name).

(** The result of [checkFunction]: [(method, qlName, isID, err)]. *)
Definition FunctionResult : Type := option methodPtr * string * bool * error.

(** [check], [checkStructFieldRecursive], [checkStructField],
    [checkStructFieldFunc] and [checkFunction] call one another along the
    type; [fuel] bounds the depth of the calls. *)
Fixpoint check (fuel : nat) (t : GoType) (hasIDTag : bool)
  : M (option obj * error) :=
  match fuel with
  | O => diverge
  | S fuel' =>
      let res := newObj (tName t) (tName t) (tPkgPath t) in
      if String.eqb (goPkgPath res) "time" && String.eqb (goTypeName res) "Time"
      then ret (Some (withValueType res valueTypeTime), None)
      else
        (* the methods of an object or an interface, then its registration *)
        let finish (res : obj) : M (option obj * error) :=
          let* r :=
            (fix methods (ms : list Method) (i : Z) (res : obj)
               : M (obj * error) :=
               match ms with
               | [] => ret (res, None)
               | m :: ms' =>
                   let* (methodObj, name, isID, err) :=
                     checkFunction fuel' (mName m) (mType m) true false in
                   match err with
                   | Some e => ret (res, Some e)
                   | None =>
                       match methodObj with
                       | None => methods ms' (i + 1) res
                       | Some ptr =>
                           let qlFieldName := name in
                           let field :=
                             MkObj valueTypeMethod EmptyString (mName m)
                               (mPkgPath m) qlFieldName false isID ∅ i None
                               Invalid (Some ptr) 0 [] in
                           methods ms' (i + 1)
                             (withObjContents res
                                (<[getObjKey qlFieldName := field]>
                                   (objContents res)))
                       end
                   end
               end) (tMethods t) 0 res in
          match r with
          | (res, Some e) =>
              (* the registered pointer shows the methods added so far *)
              let* c := get in
              (if bool_decide (valueTypeOf res = valueTypeInterface)
               then setInterfaces (<[typeName res := res]> (interfaces (schema c)))
               else setTypes (<[typeName res := res]> (types (schema c)))) ;;;
              ret (None, Some e)
          | (res, None) =>
              let* ref :=
                if bool_decide (valueTypeOf res = valueTypeInterface)
                then interfacesAdd res else typesAdd res in
              (* res is now a objPtr pointing to an obj or a interfacePtr
                 pointing to an interface *)
              ret (Some ref, None)
          end in
        match tKind t with
        | Struct =>
            if hasIDTag then ret (None, Some "structs cannot have ID attribute")
            else
              let* r :=
                if negb (String.eqb (typeName res) EmptyString) then
                  let res := withTypeName res (rename (typeName res)) in
                  let* c := get in
                  match types (schema c) !! typeName res with
                  | Some v =>
                      if negb (String.eqb (goPkgPath v) (goPkgPath res)) then
                        ret (inr (None,
                                  Some ("cannot have 2 structs with same type name: "
                                        +:+ goPkgPath v +:+ "(" +:+ goTypeName res
                                        +:+ ") != " +:+ goPkgPath res +:+ "("
                                        +:+ goTypeName res +:+ ")")))
                      else
                        let* ref := lift (getRef v) in
                        ret (inr (Some ref, None))
                  | None =>
                      let structImplementations :=
                        default [] (structImplementsMap !! tName t) in
                      (fix impls (l : list GoType) (res : obj)
                         : M (obj + (option obj * error)) :=
                         match l with
                         | [] => ret (inl res)
                         | implementation :: l' =>
                             let* (impl, err) := check fuel' implementation false in
                             match err, impl with
                             | Some e, _ => ret (inr (None, Some e))
                             | None, Some impl =>
                                 impls l'
                                   (withImplementations res
                                      (implementations res ++ [impl]))
                             | None, None =>
                                 panic "invalid memory address or nil pointer dereference"
                             end
                         end) structImplementations res
                  end
                else
                  let* n := incrUnknownTypesCount in
                  ret (inl (withTypeName res ("__UnknownType" +:+ formatInt n))) in
              match r with
              | inr early => ret early
              | inl res =>
                  let res := withObjContents (withValueType res valueTypeObj) ∅ in
                  let* c := get in
                  setTypes (<[typeName res := res]> (types (schema c))) ;;;
                  let* res := checkStructFieldRecursive fuel' t res in
                  (* the registered pointer shows the fields added to [res] *)
                  let* c := get in
                  setTypes (<[typeName res := res]> (types (schema c))) ;;;
                  finish res
              end
        | Array | Slice | Ptr =>
            let isPtr := kind_eqb (tKind t) Ptr in
            let res :=
              withValueType res (if isPtr then valueTypePtr else valueTypeArray) in
            match tElem t with
            | None => panic "reflect: Elem of invalid type"
            | Some elem =>
                let* (o, err) := check fuel' elem (hasIDTag && isPtr) in
                match err with
                | Some e => ret (None, Some e)
                | None => ret (Some (withInnerContent res o), None)
                end
            end
        | Interface =>
            if hasIDTag then ret (None, Some "interface cannot have ID attribute")
            else if String.eqb (typeName res) EmptyString then
              ret (None, Some "inline interfaces not allowed")
            else
              let res := withTypeName res (rename (typeName res)) in
              let* c := get in
              match interfaces (schema c) !! typeName res with
              | Some v =>
                  if negb (String.eqb (goPkgPath v) (goPkgPath res)) then
                    ret (None,
                         Some ("cannot have 2 interfaces with same type name: "
                               +:+ goPkgPath v +:+ "(" +:+ goTypeName res
                               +:+ ") != " +:+ goPkgPath res +:+ "("
                               +:+ goTypeName res +:+ ")"))
                  else
                    let* ref := lift (getRef v) in
                    ret (Some ref, None)
              | None =>
                  let res :=
                    withObjContents
                      (withImplementations (withValueType res valueTypeInterface) [])
                      ∅ in
                  (* Store the interface so we don't get an infinite loop and
                     can reference this one *)
                  setInterfaces (<[typeName res := res]> (interfaces (schema c))) ;;;
                  let methodPkgName :=
                    if String.eqb (goTypeName res) EmptyString then "inline interface"
                    else goPkgPath res +:+ "." +:+ goTypeName res in
                  match implementationMap !! tName t with
                  | None =>
                      ret (None,
                           Some "cannot register a interface without explicit implementations")
                  | Some typesThatImplementInterface =>
                      let* r :=
                        (fix impls (l : list GoType) (res : obj)
                           : M (obj + string) :=
                           match l with
                           | [] => ret (inl res)
                           | interfaceType :: l' =>
                               if negb (kind_eqb (tKind interfaceType) Struct) then
                                 ret (inr ("only struct types are allowed as ("
                                           +:+ methodPkgName
                                           +:+ ").Is(types...) arguments"))
                               else if String.eqb (tName interfaceType) EmptyString then
                                 ret (inr ("inline struct not allowed in ("
                                           +:+ methodPkgName +:+ ").Is(types...)"))
                               else if negb (Implements interfaceType t) then
                                 ret (inr ("(" +:+ methodPkgName
                                           +:+ ").Is(types...): "
                                           +:+ tPkgPath interfaceType +:+ "."
                                           +:+ tName interfaceType
                                           +:+ " does not implement "
                                           +:+ methodPkgName))
                               else
                                 let* (o, err) := check fuel' interfaceType false in
                                 match err, o with
                                 | Some e, _ => ret (inr e)
                                 | None, Some o =>
                                     impls l'
                                       (withImplementations res
                                          (implementations res ++ [o]))
                                 | None, None =>
                                     panic "invalid memory address or nil pointer dereference"
                                 end
                           end) typesThatImplementInterface res in
                      match r with
                      | inr e => ret (None, Some e)
                      | inl res =>
                          let* c := get in
                          setInterfaces
                            (<[typeName res := res]> (interfaces (schema c))) ;;;
                          finish res
                      end
                  end
              end
        | Func | Map | Chan | Invalid | Uintptr | Complex64 | Complex128
        | UnsafePointer =>
            ret (None, Some ("unsupported value type " +:+ kindString (tKind t)))
        | _ =>
            match getEnum t with
            | Some enumIndex =>
                ret (Some (withEnumTypeIndex (withValueType res valueTypeEnum)
                                             enumIndex), None)
            | None =>
                let res :=
                  withDataValueType (withValueType res valueTypeData) (tKind t) in
                if hasIDTag then
                  let res := withIsID res hasIDTag in
                  match checkValidIDKind (dataValueType res) with
                  | Some e => ret (None, Some e)
                  | None => ret (Some res, None)
                  end
                else ret (Some res, None)
            end
        end
  end

(** [c.checkStructFieldRecursive(t, res)]: the function has no result; an
    error of [checkStructField] ends the loop.  The model returns [res]
    with the fields added to its [objContents]. *)
with checkStructFieldRecursive (fuel : nat) (t : GoType) (res : obj) : M obj :=
  match fuel with
  | O => diverge
  | S fuel' =>
      if negb (kind_eqb (tKind t) Struct) then
        panic "reflect: NumField of non-struct type"
      else
        (fix fields (fs : list StructField) (i : Z) (res : obj) : M obj :=
           match fs with
           | [] => ret res
           | field :: fs' =>
               let* res :=
                 if sfAnonymous field
                 then checkStructFieldRecursive fuel' (sfType field) res
                 else ret res in
               let* (customName, o, err) := checkStructField fuel' field i in
               match err with
               | Some _ => ret res
               | None =>
                   match o with
                   | None => fields fs' (i + 1) res
                   | Some o =>
                       let name :=
                         match customName with
                         | Some n => n
                         | None => formatGoNameToQL (sfName field)
                         end in
                       let o := withQlFieldName o name in
                       fields fs' (i + 1)
                         (withObjContents res
                            (<[getObjKey name := o]> (objContents res)))
                   end
               end
           end) (tFields t) 0 res
  end

(** [c.checkStructField(field, idx)]: [(customName, obj, err)] *)
with checkStructField (fuel : nat) (field : StructField) (idx : Z)
  : M (option string * option obj * error) :=
  match fuel with
  | O => diverge
  | S fuel' =>
      if sfAnonymous field then ret (None, None, None)
      else
        let '(customName, ignore, isID, err) := parseFieldTagGQ field in
        if ignore || bool_decide (err <> None) then ret (None, None, err)
        else
          let* (o, err) :=
            if kind_eqb (tKind (sfType field)) Func
            then checkStructFieldFunc fuel' (sfName field) (sfType field) isID idx
            else check fuel' (sfType field) isID in
          ret (customName,
               match o with
               | Some o => Some (withStructFieldIdx o idx)
               | None => None
               end, err)
  end

(** [c.checkStructFieldFunc(fieldName, goType, hasIDTag, idx)] *)
with checkStructFieldFunc (fuel : nat) (fieldName : string) (goType : GoType)
  (hasIDTag : bool) (idx : Z) : M (option obj * error) :=
  match fuel with
  | O => diverge
  | S fuel' =>
      let* (methodObj, _, isID, err) :=
        checkFunction fuel' fieldName goType false hasIDTag in
      match err with
      | Some e => ret (None, Some e)
      | None =>
          match methodObj with
          | None => ret (None, None)
          | Some ptr =>
              ret (Some (MkObj valueTypeMethod EmptyString EmptyString EmptyString
                               EmptyString false isID ∅ idx None Invalid
                               (Some ptr) 0 []), None)
          end
      end
  end

(** [c.checkFunction(name, t, isTypeMethod, hasIDTag)] *)
with checkFunction (fuel : nat) (name : string) (t : GoType)
  (isTypeMethod hasIDTag : bool) : M FunctionResult :=
  match fuel with
  | O => diverge
  | S fuel' =>
      let isID := hasIDTag in
      let* resolver := lift (resolverName name isTypeMethod) in
      match resolver with
      | None => ret (None, EmptyString, isID, None)
      | Some trimmedName =>
          if tVariadic t then
            ret (None, EmptyString, isID,
                 Some "function method cannot end with spread operator (...string)")
          else
            let numOuts := length (tOut t) in
            if (numOuts =? 0)%nat then
              ret (None, EmptyString, isID, Some (name +:+ " no value returned"))
            else
              match classifyOuts name (tOut t) 0 isID None None with
              | inl (isID, e) => ret (None, EmptyString, isID, Some e)
              | inr (isID, None, _) =>
                  ret (None, EmptyString, isID,
                       Some (name +:+ " does not return usable data"))
              | inr (isID, Some outNr, hasErrorOut) =>
                  match tOut t !! Z.to_nat outNr with
                  | None => panic "reflect: Out index out of range"
                  | Some outT =>
                      let* (outTypeObj, err) := check fuel' outT isID in
                      match err, outTypeObj with
                      | Some e, _ => ret (None, EmptyString, isID, Some e)
                      | None, None =>
                          panic "invalid memory address or nil pointer dereference"
                      | None, Some outTypeObj =>
                          let res :=
                            MkObjMethod isTypeMethod name t [] ∅ false outNr
                                        outTypeObj hasErrorOut in
                          let* ptr := appendParsedMethod res in
                          ret (Some ptr, formatGoNameToQL trimmedName, isID, None)
                      end
                  end
              end
      end
  end.

(** ** The inputs of the resolvers *)

(** [t.AssignableTo] for the two types the inputs single out. *)
Definition isFileHeaderPtr (t : GoType) : bool :=
  kind_eqb (tKind t) Ptr
  && match tElem t with
     | Some e =>
         kind_eqb (tKind e) Struct && String.eqb (tName e) "FileHeader"
         && String.eqb (tPkgPath e) "mime/multipart"
     | None => false
     end.

Definition isTimeStruct (t : GoType) : bool :=
  kind_eqb (tKind t) Struct && String.eqb (tName t) "Time"
  && String.eqb (tPkgPath t) "time".

Definition withElem (i : input) (e : input) : input :=
  match i with
  | MkInput k en ei id fi ti gi gq _ sp sn sc =>
      MkInput k en ei id fi ti gi gq (Some e) sp sn sc
  end.

Definition withStruct (i : input) (name : string) (content : gmap string input)
  : input :=
  match i with
  | MkInput k en ei id fi ti gi gq el sp _ _ =>
      MkInput k en ei id fi ti gi gq el sp name content
  end.

Definition withField (i : input) (idx : Z) (name : string) : input :=
  match i with
  | MkInput k en ei id fi ti _ _ el sp sn sc =>
      MkInput k en ei id fi ti idx name el sp sn sc
  end.

Definition wrapErr (err : string) (field : StructField) : string :=
  err +:+ ", struct field: " +:+ sfName field.

(** [c.checkFunctionInput(t, hasIDTag)] and
    [c.checkFunctionInputStruct(field, idx)] *)
Fixpoint checkFunctionInput (fuel : nat) (t : GoType) (hasIDTag : bool)
  : M (input * error) :=
  match fuel with
  | O => diverge
  | S fuel' =>
      let kind := tKind t in
      let res := newInput kind in
      match kind with
      | String | Bool | Int | Int8 | Int16 | Int32 | Int64
      | Uint | Uint8 | Uint16 | Uint32 | Uint64 | Float32 | Float64 =>
          match getEnum t with
          | Some enumIndex =>
              ret (MkInput kind true enumIndex false false false 0 EmptyString
                           None false EmptyString ∅, None)
          | None =>
              if hasIDTag then
                ret (MkInput kind false 0 true false false 0 EmptyString None
                             false EmptyString ∅,
                     checkValidIDKind kind)
              else ret (res, None)
          end
      | Ptr =>
          if isFileHeaderPtr t then
            (* This is a file header, these are handled completely different
               from a normal pointer *)
            ret (MkInput kind false 0 false true false 0 EmptyString None false
                         EmptyString ∅, None)
          else
            match tElem t with
            | None => panic "reflect: Elem of invalid type"
            | Some elem =>
                let* (i, err) := checkFunctionInput fuel' elem hasIDTag in
                match err with
                | Some e => ret (res, Some e)
                | None => ret (withElem res i, None)
                end
            end
      | Array | Slice =>
          match tElem t with
          | None => panic "reflect: Elem of invalid type"
          | Some elem =>
              let* (i, err) := checkFunctionInput fuel' elem false in
              match err with
              | Some e => ret (res, Some e)
              | None => ret (withElem res i, None)
              end
          end
      | Struct =>
          if isTimeStruct t then
            ret (MkInput String false 0 false false true 0 EmptyString None false
                         EmptyString ∅, None)
          else
            let* structName :=
              if (String.length (tName t) =? 0)%nat then
                let* n := incrUnknownInputsCount in
                ret ("__UnknownInput" +:+ formatInt n)
              else
                let structName := rename (tName t) in
                let* c := get in
                match types (schema c) !! structName with
                | Some _ =>
                    (* types and inputs with the same name are not allowed in
                       graphql, add __input as suffix *)
                    ret (structName +:+ "__input")
                | None => ret structName
                end in
            let done : input :=
              MkInput kind false 0 false false false 0 EmptyString None true
                      structName ∅ in
            let* c := get in
            match inTypes (schema c) !! structName with
            | Some _ => ret (done, None)
            | None =>
                (* Make sure the input types entry is set before looping over
                   it's fields to fix the n+1 problem *)
                setInTypes (<[structName := res]> (inTypes (schema c))) ;;;
                let* (content, err) :=
                  (fix fields (fs : list StructField) (i : Z)
                     (content : gmap string input)
                     : M (gmap string input * error) :=
                     match fs with
                     | [] => ret (content, None)
                     | field :: fs' =>
                         let* (inp, skip, err) :=
                           checkFunctionInputStruct fuel' field i in
                         if skip then fields fs' (i + 1) content
                         else
                           match err with
                           | Some e => ret (content, Some e)
                           | None =>
                               fields fs' (i + 1)
                                 (<[gqFieldName inp := inp]> content)
                           end
                     end) (tFields t) 0 ∅ in
                (* the registered pointer shows the fields set on [res] *)
                let res := withStruct res structName content in
                let* c := get in
                setInTypes (<[structName := res]> (inTypes (schema c))) ;;;
                match err with
                | Some e => ret (res, Some e)
                | None => ret (done, None)
                end
            end
      | _ => ret (res, Some ("unsupported type " +:+ kindString kind))
      end
  end

with checkFunctionInputStruct (fuel : nat) (field : StructField) (idx : Z)
  : M (input * bool * error) :=
  match fuel with
  | O => diverge
  | S fuel' =>
      if sfAnonymous field then ret (newInput Invalid, true, None)
      else
        let '(newName, ignore, isID, err) := parseFieldTagGQ field in
        if ignore then ret (newInput Invalid, true, None)
        else
          match err with
          | Some e => ret (newInput Invalid, false, Some (wrapErr e field))
          | None =>
              let qlFieldName :=
                match newName with
                | Some n => n
                | None => formatGoNameToQL (sfName field)
                end in
              let* (res, err) := checkFunctionInput fuel' (sfType field) isID in
              match err with
              | Some e => ret (newInput Invalid, false, Some (wrapErr e field))
              | None => ret (withField res idx qlFieldName, false, None)
              end
          end
  end.

(** The loop over the fields of one struct input in [checkFunctionIns]. *)
Fixpoint checkFunctionIns_fields (fuel : nat) (goType : GoType) (iInList : Z)
  (fs : list StructField) (i : Z) (inFields : gmap string referToInput)
  : M (gmap string referToInput * error) :=
  match fs with
  | [] => ret (inFields, None)
  | field :: fs' =>
      let* (inp, skip, err) := checkFunctionInputStruct fuel field i in
      if skip then checkFunctionIns_fields fuel goType iInList fs' (i + 1) inFields
      else
        match err with
        | Some e =>
            ret (inFields,
                 Some (e +:+ ", type " +:+ tName goType +:+ " (#" +:+ formatInt i
                       +:+ ")"))
        | None =>
            checkFunctionIns_fields fuel goType iInList fs' (i + 1)
              (<[gqFieldName inp := MkReferToInput iInList inp]> inFields)
        end
  end.

(** The loop [for i := 0; i < totalInputs; i++] of [checkFunctionIns]. *)
Fixpoint checkFunctionIns_range (fuel : nat) (method : objMethod)
  (inTypes : list GoType) (i : Z) : M (objMethod * error) :=
  match inTypes with
  | [] => ret (method, None)
  | goType :: rest =>
      if isTypeMethod method && (i =? 0) then
        (* First argument can be skipped if type method *)
        checkFunctionIns_range fuel method rest (i + 1)
      else
        let iInList := if isTypeMethod method then i - 1 else i in
        let typeKind := tKind goType in
        let next (method : objMethod) (inp : baseInput) :=
          checkFunctionIns_range fuel
            (MkObjMethod (isTypeMethod method) (goFunctionName method)
               (Parse.goType method) (ins method ++ [inp]) (inFields method)
               (checkedIns method) (outNr method) (outType method)
               (errorOutNr method))
            rest (i + 1) in
        if kind_eqb typeKind Ptr
           && match tElem goType with Some e => isCtx e | None => false end
        then next method (MkBaseInput true None)
        else if isCtx goType then
          ret (method,
               Some (goFunctionName method +:+ " ctx argument must be a pointer"))
        else if kind_eqb typeKind Struct then
          let* (inFields', err) :=
            checkFunctionIns_fields fuel goType iInList (tFields goType) 0
              (inFields method) in
          let method :=
            MkObjMethod (isTypeMethod method) (goFunctionName method)
              (Parse.goType method) (ins method) inFields' (checkedIns method)
              (outNr method) (outType method) (errorOutNr method) in
          match err with
          | Some e => ret (method, Some e)
          | None => next method (MkBaseInput false (Some goType))
          end
        else
          ret (method,
               Some ("invalid struct item type " +:+ tName goType +:+ " (#"
                     +:+ formatInt i +:+ ")"))
  end.

(** [c.checkFunctionIns(method)]: the method after the call (it is changed
    through the pointer) and the error. *)
Definition checkFunctionIns (fuel : nat) (method : objMethod)
  : M (objMethod * error) :=
  let* (method, err) :=
    checkFunctionIns_range fuel method (tIn (goType method)) 0 in
  match err with
  | Some e => ret (method, Some e)
  | None =>
      ret (MkObjMethod (isTypeMethod method) (goFunctionName method)
             (goType method) (ins method) (inFields method) true
             (outNr method) (outType method) (errorOutNr method), None)
  end.

(** ** [Parse] *)

Definition setParsedMethod (ptr : nat) (m : objMethod) : M unit :=
  fun c =>
    Ok (tt, MkParseCtx (schema c) (unknownTypesCount c) (unknownInputsCount c)
                       (<[ptr := m]> (parsedMethods c))).

Definition setDirective (ptr : nat) (d : Directive) : M unit :=
  fun c =>
    let s := schema c in
    Ok (tt, withSchema c
              (MkSchema (parsed s) (types s) (inTypes s) (interfaces s)
                 (rootQuery s) (rootQueryValue s) (rootMethod s)
                 (rootMethodValue s) (MaxDepth s) (definedDirectives s)
                 (<[ptr := d]> (directiveStore s)))).

Definition setRoots (q m : option obj) : M unit :=
  fun c =>
    let s := schema c in
    Ok (tt, withSchema c
              (MkSchema (parsed s) (types s) (inTypes s) (interfaces s) q
                 (rootQueryValue s) m (rootMethodValue s) (MaxDepth s)
                 (definedDirectives s) (directiveStore s))).

Definition setParsed (b : bool) : M unit :=
  fun c =>
    let s := schema c in
    Ok (tt, withSchema c
              (MkSchema b (types s) (inTypes s) (interfaces s) (rootQuery s)
                 (rootQueryValue s) (rootMethod s) (rootMethodValue s)
                 (MaxDepth s) (definedDirectives s) (directiveStore s))).

(** The comparison of the two roots in [Parse]. *)
Definition sameRootStruct (rootQuery rootMethod : option obj) : Res bool :=
  match rootQuery, rootMethod with
  | Some rq, Some rm =>
      Ok (String.eqb (goPkgPath rq +:+ goTypeName rq)
                     (goPkgPath rm +:+ goTypeName rm))
  | _, _ => Panic "invalid memory address or nil pointer dereference"
  end.

(** The loop [for _, method := range ctx.parsedMethods]. *)
Fixpoint checkParsedMethods (fuel : nat) (ptrs : list nat) : M error :=
  match ptrs with
  | [] => ret None
  | ptr :: ptrs' =>
      let* c := get in
      match parsedMethods c !! ptr with
      | None => panic "index out of range"
      | Some method =>
          let* (method, err) := checkFunctionIns fuel method in
          setParsedMethod ptr method ;;;
          match err with
          | Some e => ret (Some e)
          | None => checkParsedMethods fuel ptrs'
          end
      end
  end.

(** The loops over the directives of every location. *)
Fixpoint checkDirectives (fuel : nat) (ptrs : list nat) : M error :=
  match ptrs with
  | [] => ret None
  | ptr :: ptrs' =>
      let* c := get in
      match directiveStore (schema c) !! ptr with
      | None => panic "invalid memory address or nil pointer dereference"
      | Some directive =>
          if checkedIns (parsedMethod directive) then checkDirectives fuel ptrs'
          else
            let* (method, err) := checkFunctionIns fuel (parsedMethod directive) in
            setDirective ptr (MkDirective (directiveName directive) method) ;;;
            match err with
            | Some e => ret (Some e)
            | None => checkDirectives fuel ptrs'
            end
      end
  end.

(** The body of [s.Parse(queries, methods, options)] on the parse context
    it creates; [queries] and [methods] are given by their types. *)
Definition ParseBody (fuel : nat) (queries methods : GoType)
  (options : option SchemaOptions) : M error :=
  let* (o, err) := check fuel queries false in
  match err, o with
  | Some e, _ => ret (Some e)
  | None, None => panic "invalid memory address or nil pointer dereference"
  | None, Some o =>
      if negb (bool_decide (valueTypeOf o = valueTypeObjRef)) then
        ret (Some "input queries must be a struct")
      else
        let* c := get in
        let rootQuery := types (schema c) !! typeName o in
        setRoots rootQuery (rootMethod (schema c)) ;;;
        let* (o, err) := check fuel methods false in
        match err, o with
        | Some e, _ => ret (Some e)
        | None, None => panic "invalid memory address or nil pointer dereference"
        | None, Some o =>
            if negb (bool_decide (valueTypeOf o = valueTypeObjRef)) then
              ret (Some "input methods must be a struct")
            else
              let* c := get in
              let rootMethod := types (schema c) !! typeName o in
              setRoots rootQuery rootMethod ;;;
              let* same :=
                if match options with
                   | Some opts => negb (noMethodEqualToQueryChecks opts)
                   | None => true
                   end
                then lift (sameRootStruct rootQuery rootMethod)
                else ret false in
              if same then ret (Some "method and query cannot be the same struct")
              else
                (if match options with
                    | Some opts => negb (SkipGraphqlTypesInjection opts)
                    | None => true
                    end
                 then
                   let* c := get in
                   let* c' := lift (injectQLTypes c) in
                   put c'
                 else ret tt) ;;;
                let* c := get in
                let* err :=
                  checkParsedMethods fuel (seq 0 (length (parsedMethods c))) in
                match err with
                | Some e => ret (Some e)
                | None =>
                    let* c := get in
                    let* err :=
                      checkDirectives fuel
                        (concat (map snd (definedDirectives (schema c)))) in
                    match err with
                    | Some e => ret (Some e)
                    | None => setParsed true ;;; ret None
                    end
                end
        end
  end.

(** [s.Parse(queries, methods, options)]: the error and the schema after
    the call. *)
Definition Parse (fuel : nat) (s : Schema) (queries methods : GoType)
  (queriesValue methodsValue : GoValue) (options : option SchemaOptions)
  : Res (error * Schema) :=
  let s :=
    MkSchema (parsed s) (types s) (inTypes s) (interfaces s) (rootQuery s)
      queriesValue (rootMethod s) methodsValue (MaxDepth s)
      (definedDirectives s) (directiveStore s) in
  match ParseBody fuel queries methods options (MkParseCtx s 0 0 []) with
  | Ok (err, c) => Ok (err, schema c)
  | Panic msg => Panic msg
  | Diverge => Diverge
  end.

End Build.

(** [NewSchema()]: the fresh schema with its two built-in directives, each
    listed under its three locations.  The descriptor [RegisterDirective]
    makes of [func(args struct{ If bool }) DirectiveModifier] is written
    out; the two enums it registers are not part of this model. *)
Definition directiveArgs : GoType :=
  structType EmptyString EmptyString
    [MkStructField "If" boolType false None] [].

Definition directiveModifier : GoType :=
  structType packagePath "DirectiveModifier"
    [MkStructField "Skip" boolType false None] [].

Definition directiveMethod : objMethod :=
  MkObjMethod false EmptyString (funcType [directiveArgs] [directiveModifier])
    [] ∅ false 0 (newObj EmptyString EmptyString EmptyString) None.

Definition NewSchema : Schema :=
  MkSchema false ∅ ∅ ∅ None VInvalid None VInvalid 255
    [("DirectiveLocationField", [0%nat; 1%nat]);
     ("DirectiveLocationFragment", [0%nat; 1%nat]);
     ("DirectiveLocationFragmentInline", [0%nat; 1%nat])]
    [MkDirective "skip" directiveMethod; MkDirective "include" directiveMethod].

End Parse.

(* ===================================================================== *)
(** * Sample data *)
(* ===================================================================== *)

Module Examples.

Import Reflect ValueTypes.

(** ** Source texts *)

(** The byte order mark U+FEFF as the three bytes of its UTF-8 encoding. *)
Definition bomInput : string :=
  string_of_list_ascii [ascii_of_nat 239; ascii_of_nat 187; ascii_of_nat 191].

(** Spaces, a comment ended by CR LF, and a comment that runs to the end. *)
Definition ignoredInput : string :=
  "  # one" +:+ string_of_list_ascii [ascii_of_nat 13; ascii_of_nat 10]
  +:+ " #two".

(** ** Enums *)

Definition animalType : GoType := namedType String "main" "Animal".

Definition emptyEnumMap : Enums.MapArg :=
  Enums.MkMapArg Map String animalType ∅.

Definition animalsEnumMap : Enums.MapArg :=
  Enums.MkMapArg Map String animalType
    (<["Cat" := Enums.EnumString "cat"]>
       (<["Dog" := Enums.EnumString "dog"]> ∅)).

Definition duplicateEnumMap : Enums.MapArg :=
  Enums.MkMapArg Map String animalType
    (<["Cat" := Enums.EnumString "pet"]>
       (<["Dog" := Enums.EnumString "pet"]> ∅)).

(** [definedEnums] after [RegisterEnum(animalsEnumMap)] on the empty
    registry. *)
Definition animalsRegistered : gmap string Enums.enum :=
  match Enums.RegisterEnum ∅ animalsEnumMap with
  | Ok (_, definedEnums) => definedEnums
  | _ => ∅
  end.

(** ** A schema for the resolver

    [type Q struct { A Inner; B string; List []string; Arr [2]string }]
    with the methods [func (Q) ResolveM() (string, error)] and
    [func (Q) ResolveNext(ctx *Ctx) int], and
    [type Inner struct { Bar string }]. *)

Definition str (s : string) : GoValue := VString "string" s.

Definition dataObj (field : string) : Resolve.Obj :=
  Resolve.MkObj valueTypeData EmptyString field ∅ None None.

Definition innerObj : Resolve.Obj :=
  Resolve.MkObj valueTypeObj "Inner" "A" (<["bar" := dataObj "Bar"]> ∅) None None.

Definition listObj : Resolve.Obj :=
  Resolve.MkObj valueTypeArray EmptyString "List" ∅
    (Some (dataObj EmptyString)) None.

Definition arrObj : Resolve.Obj :=
  Resolve.MkObj valueTypeArray EmptyString "Arr" ∅
    (Some (dataObj EmptyString)) None.

Definition resolveM : Resolve.ObjMethod :=
  Resolve.MkObjMethod true [] ∅ 0 (dataObj EmptyString) (Some 1).

Definition methodObj : Resolve.Obj :=
  Resolve.MkObj valueTypeMethod EmptyString "ResolveM" ∅ None (Some resolveM).

Definition resolveNext : Resolve.ObjMethod :=
  Resolve.MkObjMethod true
    [Resolve.MkInput true (ptrType (structType "graphql" "Ctx" [] []))] ∅ 0
    (dataObj EmptyString) None.

Definition nextObj : Resolve.Obj :=
  Resolve.MkObj valueTypeMethod EmptyString "ResolveNext" ∅ None
    (Some resolveNext).

Definition rootObj : Resolve.Obj :=
  Resolve.MkObj valueTypeObj "Q" EmptyString
    (<["a" := innerObj]> (<["b" := dataObj "B"]> (<["list" := listObj]>
       (<["arr" := arrObj]> (<["m" := methodObj]>
          (<["next" := nextObj]> ∅)))))) None None.

Definition rootValue : GoValue :=
  VStruct [("A", VStruct [("Bar", str "baz")] []);
           ("B", str "x");
           ("List", VSlice (Some [str "p"; str "q"]));
           ("Arr", VArray [str "p"; str "q"])]
          [("ResolveM", 7%nat); ("ResolveNext", 8%nat)].

Definition schemaWithDepth (maxDepth : Z) : Resolve.Schema :=
  Resolve.MkSchema (<["Q" := rootObj]> (<["Inner" := innerObj]> ∅))
    rootObj rootValue rootObj maxDepth.

Definition sampleSchema : Resolve.Schema := schemaWithDepth 255.

(** The number [ResolveNext] keeps in [ctx.Values] under the key [n]. *)
Definition counter (values : gmap string GoValue) : Z :=
  match values !! "n" with
  | Some (VInt Int _ n) => n
  | _ => 0
  end.

(** The host functions: behind [ResolveM], data together with an error;
    behind [ResolveNext], the number of calls before this one, counted in
    [ctx.Values]. *)
Definition callFunc (f : nat) (args : list GoValue)
  (values : gmap string GoValue) : Res (list GoValue * gmap string GoValue) :=
  match f with
  | 7%nat => Ok ([str "data"; VError (Some "boom")], values)
  | 8%nat =>
      Ok ([VInt Int "int" (counter values)],
          <["n" := VInt Int "int" (counter values + 1)]> values)
  | _ => Panic "no such function"
  end.

(** Two orders for the [range] over a map: that of [map_to_list], and the
    opposite one. *)
Definition rangeOrder (V : Type) (m : gmap string V) : list (string * V) :=
  map_to_list m.

Definition rangeBackwards (V : Type) (m : gmap string V) : list (string * V) :=
  reverse (map_to_list m).

(** [%q] on the strings of the samples, which need no escape. *)
Definition quote (s : string) : string := dquote +:+ s +:+ dquote.

Definition floatToJson (bitSize bits : Z) : string := "0".

Definition roundToFloat32 (bits : Z) : Z := bits.

Definition field (name : string) (sel : Resolve.SelectionSet) : Resolve.Selection :=
  Resolve.SelField (Resolve.MkField name EmptyString sel ∅).

Definition query (sel : Resolve.SelectionSet) : Resolve.Operator :=
  Resolve.MkOperator "query" EmptyString [] sel None.

Definition named (name : string) (sel : Resolve.SelectionSet) : Resolve.Operator :=
  Resolve.MkOperator "query" name [] sel None.

Definition noFragments : gmap string Resolve.Operator := ∅.

Definition twoOperators : gmap string Resolve.Operator :=
  <["Foo" := named "Foo" [field "b" []]]>
    {["Bar" := named "Bar" [field "a" [field "bar" []]]]}.

(** What the parser returns for the sample queries. *)
Definition parsed (text : string)
  : gmap string Resolve.Operator * gmap string Resolve.Operator * list string :=
  if String.eqb text "{zz b}" then
    (∅, {[EmptyString := query [field "zz" []; field "b" []]]}, [])
  else if String.eqb text "{a{bar} b}" then
    (∅, {[EmptyString := query [field "a" [field "bar" []]; field "b" []]]}, [])
  else if String.eqb text "{list}" then
    (∅, {[EmptyString := query [field "list" []]]}, [])
  else if String.eqb text "{arr}" then
    (∅, {[EmptyString := query [field "arr" []]]}, [])
  else if String.eqb text "{m}" then
    (∅, {[EmptyString := query [field "m" []]]}, [])
  else if String.eqb text "query Foo{b} query Bar{a{bar}}" then
    (noFragments, twoOperators, [])
  else (∅, ∅, ["syntax error"]).

Definition Resolve (s : Resolve.Schema) (text target : string)
  : Res (string * list string) :=
  Resolve.Resolve callFunc rangeOrder quote floatToJson roundToFloat32 parsed 8
    s text target.

(** A linked type, [type Node struct { Next *Node; V string }], a chain of
    [n] nodes after the first, and the query that follows [next] [n] times
    and then asks for [v]: it has [n + 1] nested selection sets. *)
Definition nodeObj : Resolve.Obj :=
  Resolve.MkObj valueTypeObj "Node" EmptyString
    (<["next" :=
         Resolve.MkObj valueTypePtr EmptyString "Next" ∅
           (Some (Resolve.MkObj valueTypeObjRef "Node" EmptyString ∅ None None))
           None]>
       (<["v" := dataObj "V"]> ∅)) None None.

Fixpoint nodeValue (n : nat) : GoValue :=
  match n with
  | O => VStruct [("Next", VPtr None); ("V", str "v")] []
  | S n' => VStruct [("Next", VPtr (Some (nodeValue n'))); ("V", str "v")] []
  end.

Fixpoint nodeQuery (n : nat) : Resolve.SelectionSet :=
  match n with
  | O => [field "v" []]
  | S n' => [field "next" (nodeQuery n')]
  end.

(** A fresh schema ([MaxDepth] 255) over a chain of 300 nodes. *)
Definition nodeSchema : Resolve.Schema :=
  Resolve.MkSchema {["Node" := nodeObj]} nodeObj (nodeValue 300) nodeObj
    (Parse.MaxDepth Parse.NewSchema).

Definition resolveNodes (n : nat) : Res (string * list string) :=
  match Resolve.start callFunc rangeOrder quote floatToJson roundToFloat32 400
          (query (nodeQuery n)) (Resolve.MkCtx ∅ nodeSchema ∅ [] []) with
  | Ok (res, ctx) => Ok (res, Resolve.errors ctx)
  | Panic msg => Panic msg
  | Diverge => Diverge
  end.

(** A JSON object key and a JSON string of the samples. *)
Definition key (name : string) : string := dquote +:+ name +:+ dquote +:+ ":".

(** [inner] wrapped [n] times in an object with the one key [next]. *)
Fixpoint nested (n : nat) (inner : string) : string :=
  match n with
  | O => inner
  | S n' => "{" +:+ key "next" +:+ nested n' inner +:+ "}"
  end.

(** ** Types for the schema builder

    [type Q struct { Name string; ResolveFoo func() (string, int);
    After string }], whose function field returns two data values;
    [type Nested struct { Name string; In Inner }] where [Inner] has the
    method [ResolveFoo() (string, int)]; and [type M struct{}]. *)

Definition twoDataFunc : GoType := funcType [] [stringType; intType].

Definition mutationRoot : GoType := structType "main" "M" [] [].

Definition funcFieldRoot : GoType :=
  structType "main" "Q"
    [MkStructField "Name" stringType false None;
     MkStructField "ResolveFoo" twoDataFunc false None;
     MkStructField "After" stringType false None] [].

Definition innerWithBadMethod : GoType :=
  structType "main" "Inner"
    [MkStructField "X" stringType false None]
    [MkMethod "ResolveFoo" EmptyString
       (funcType [structType "main" "Inner" [] []] [stringType; intType])].

Definition nestedRoot : GoType :=
  structType "main" "Nested"
    [MkStructField "Name" stringType false None;
     MkStructField "In" innerWithBadMethod false None] [].

Definition methodRoot : GoType :=
  structType "main" "Direct"
    [MkStructField "Name" stringType false None]
    [MkMethod "ResolveFoo" EmptyString
       (funcType [structType "main" "Direct" [] []] [stringType; intType])].

(** [Implements] on the types of the samples: an interface type
    implements [error] when it has a method [Error]. *)
Definition Implements (t iface : GoType) : bool :=
  forallb (fun m => existsb (fun m' => String.eqb (mName m') (mName m))
                      (tMethods t))
          (tMethods iface).

Definition buildOptions : option Parse.SchemaOptions :=
  Some (Parse.MkSchemaOptions false true).

Definition Parse (queries : GoType) : Res (error * Parse.Schema) :=
  Parse.Parse ∅ ∅ ∅ (fun _ => None) Implements (fun c => Ok c) 12
    Parse.NewSchema queries mutationRoot VInvalid VInvalid buildOptions.

(** [func() (string, error)], a resolver in the shape the builder accepts,
    and the parse context at the start of a build. *)
Definition dataErrorFunc : GoType := funcType [] [stringType; errorType].

Definition emptyParseCtx : Parse.parseCtx :=
  Parse.MkParseCtx Parse.NewSchema 0 0 [].

(** The parse context after [checkFunction] on the field [ResolveFoo] of
    type [dataErrorFunc]. *)
Definition fooParseCtx : Parse.parseCtx :=
  match Parse.checkFunction ∅ ∅ ∅ (fun _ => None) Implements 5
          "ResolveFoo" dataErrorFunc false false emptyParseCtx with
  | Ok (_, c) => c
  | _ => emptyParseCtx
  end.

(** A parse context whose registry holds the object of [type Q struct] of
    the package [main]; and a struct of the same name of the package
    [other]. *)
Definition registeredQ : Parse.obj :=
  Parse.withValueType (Parse.newObj "Q" "Q" "main") valueTypeObj.

Definition registryParseCtx : Parse.parseCtx :=
  Parse.MkParseCtx
    (Parse.MkSchema false {[ "Q" := registeredQ ]} ∅ ∅ None VInvalid None
       VInvalid 255 [] [])
    0 0 [].

Definition otherQ : GoType :=
  structType "other" "Q" [MkStructField "Name" stringType false None] [].

(** A bytecode context that has been used: its buffer holds two bytes in
    an array of four, and the cursor of its stack of reflect values is at
    the last slot. *)
Definition usedBytecodeCtx : Bytecode.BytecodeCtx unit unit :=
  Bytecode.MkBytecodeCtx tt tt
    (Bytecode.MkSlice (list_ascii_of_string "{}xy") 2) 7
    (replicate 256 VInvalid) 255.

End Examples.

(* ===================================================================== *)
(** * Part II: the checked properties *)
(* ===================================================================== *)

Module NamesFacts.
Import Names.

Lemma rune_of_byte_range (b : ascii) : 0 <= rune_of_byte b < 256.
Proof.
  unfold rune_of_byte.
  pose proof (N_ascii_bounded b) as Hb.
  lia.
Qed.

Lemma byte_of_rune (b : ascii) : ascii_of_N (Z.to_N (rune_of_byte b)) = b.
Proof.
  unfold rune_of_byte. rewrite N2Z.id. apply ascii_N_embedding.
Qed.

Lemma len_zero (name : string) : (len name =? 0) = true <-> name = EmptyString.
Proof.
  unfold len. destruct name; simpl; split; intros H; try done;
    apply Z.eqb_eq in H; lia.
Qed.

(** After the first byte the loop of [validGraphQlName] accepts exactly the
    bytes of [nameContinue]. *)
Lemma validGraphQlName_range_later (i : Z) (name : list ascii) :
  0 < i ->
  validGraphQlName_range i name = None
  <-> forallb (fun b => nameContinue (rune_of_byte b)) name = true.
Proof.
  revert i. induction name as [|b rest IH]; intros i Hi; simpl.
  - split; reflexivity.
  - unfold nameContinue at 1.
    assert (Hpos : (0 <? i) = true) by (apply Z.ltb_lt; lia).
    rewrite Hpos. simpl andb.
    destruct (isUpper (rune_of_byte b)); simpl.
    { apply IH. lia. }
    destruct (isLower (rune_of_byte b)); simpl.
    { apply IH. lia. }
    destruct (isDigit (rune_of_byte b)); simpl.
    { apply IH. lia. }
    destruct (rune_of_byte b =? r_underscore); simpl.
    { apply IH. lia. }
    split; intros H; discriminate H.
Qed.

Lemma validGraphQlName_accepts (name : string) :
  validGraphQlName name = None
  <-> matchesLetterFirst (list_ascii_of_string name) = true.
Proof.
  unfold validGraphQlName.
  destruct name as [|b rest].
  - simpl. split; intros H; discriminate H.
  - replace (len (String b rest) =? 0) with false.
    2:{ symmetry. apply Z.eqb_neq. unfold len. simpl. lia. }
    simpl. unfold isLetter.
    destruct (isUpper (rune_of_byte b)); simpl.
    { apply validGraphQlName_range_later. lia. }
    destruct (isLower (rune_of_byte b)); simpl.
    { apply validGraphQlName_range_later. lia. }
    split; intros H; discriminate H.
Qed.

Lemma matchesLetterFirst_grammar (name : list ascii) :
  matchesLetterFirst name = true -> matchesNameGrammar name = true.
Proof.
  destruct name as [|b rest]; simpl; [done|].
  unfold isLetter, nameStart.
  intros [H1 H2]%andb_prop. rewrite H2, H1. reflexivity.
Qed.

End NamesFacts.

Module QueryParserFacts.
Import Names NamesFacts QueryParser.

Lemma wrap64_small (n : Z) : 0 <= n < 2 ^ 64 -> wrap64 n = n.
Proof. intros H. unfold wrap64. apply Z.mod_small. exact H. Qed.

Lemma append_cons (a : ascii) (s t : string) :
  String a s +:+ t = String a (s +:+ t).
Proof. reflexivity. Qed.

Lemma append_empty_r (s : string) : s +:+ EmptyString = s.
Proof.
  induction s as [|a s IH]; [reflexivity|].
  rewrite append_cons, IH. reflexivity.
Qed.

Lemma append_cons_assoc (s : string) (b : ascii) (t : string) :
  (s +:+ String b EmptyString) +:+ t = s +:+ String b t.
Proof.
  induction s as [|a s IH]; [reflexivity|].
  rewrite !append_cons, IH. reflexivity.
Qed.


(** Reading at a position: past the end, or the byte there. *)
Lemma checkC_at (text : list ascii) (k nr : Z) :
  0 <= k ->
  checkC k (MkIter text nr)
  = match drop (Z.to_nat k) text with
    | [] => Ok ((0, true), MkIter text nr)
    | b :: _ => Ok ((rune_of_byte b, false), MkIter text nr)
    end.
Proof.
  intros Hk. unfold checkC, bind, eof, c, ret. cbn [data].
  destruct (drop (Z.to_nat k) text) as [|b rest] eqn:Hdrop.
  - apply drop_nil_inv in Hdrop.
    replace (Z.of_nat (length text) <=? k) with true; [reflexivity|].
    symmetry. apply Z.leb_le. lia.
  - assert (Hlook : text !! Z.to_nat k = Some b).
    { rewrite <- (Nat.add_0_r (Z.to_nat k)), <- lookup_drop, Hdrop.
      reflexivity. }
    pose proof (lookup_lt_Some _ _ _ Hlook) as Hlt.
    replace (Z.of_nat (length text) <=? k) with false.
    2:{ symmetry. apply Z.leb_gt. lia. }
    cbn [data]. rewrite Hlook. reflexivity.
Qed.

Lemma drop_cons_lt (text : list ascii) (n : nat) (b : ascii) (rest : list ascii) :
  drop n text = b :: rest -> (n < length text)%nat /\ drop (S n) text = rest.
Proof.
  intros Hdrop. split.
  - assert (Hl : length (drop n text) = S (length rest))
      by (rewrite Hdrop; reflexivity).
    rewrite length_drop in Hl. lia.
  - replace (S n) with (n + 1)%nat by lia.
    rewrite <- drop_drop, Hdrop. reflexivity.
Qed.

Lemma currentC_at (text : list ascii) (nr : Z) (b : ascii) (rest : list ascii) :
  0 <= nr ->
  drop (Z.to_nat nr) text = b :: rest ->
  currentC (MkIter text nr) = Ok (rune_of_byte b, MkIter text nr).
Proof.
  intros Hnr Hdrop. unfold currentC, bind, getCharNr, c. cbn [data charNr].
  assert (Hlook : text !! Z.to_nat nr = Some b).
  { rewrite <- (Nat.add_0_r (Z.to_nat nr)), <- lookup_drop, Hdrop.
    reflexivity. }
  rewrite Hlook. reflexivity.
Qed.

Lemma allowedChars_continue (r : rune) (first : bool) :
  allowedChars r = Some first -> nameContinue r = true.
Proof.
  unfold allowedChars, nameContinue, isUpper, isLower, isDigit.
  destruct ((r_a <=? r) && (r <=? r_z)) eqn:Hl; simpl.
  { intros _. rewrite orb_true_r. reflexivity. }
  destruct (r =? r_underscore) eqn:Hu; simpl.
  { intros _. rewrite !orb_true_r. reflexivity. }
  destruct ((r_0 <=? r) && (r <=? r_9)) eqn:Hd; simpl; [|discriminate].
  intros _. rewrite orb_true_r. reflexivity.
Qed.

Lemma allowedChars_start (r : rune) :
  allowedChars r = Some true -> nameStart r = true.
Proof.
  unfold allowedChars, nameStart, isUpper, isLower.
  destruct ((r_a <=? r) && (r <=? r_z)) eqn:Hl; simpl.
  { intros _. rewrite orb_true_r. reflexivity. }
  destruct (r =? r_underscore) eqn:Hu; simpl.
  { intros _. rewrite orb_true_r. reflexivity. }
  destruct ((r_0 <=? r) && (r <=? r_9)); discriminate.
Qed.

(** The loop of [parseName] from a cursor inside the text: it returns the
    name so far extended by a token read at the cursor. *)
Lemma parseName_loop_spec (fuel : nat) :
  forall (text : list ascii) (nr : Z) (acc : string),
    0 <= nr ->
    Z.of_nat (length text) < 2 ^ 64 ->
    (length (drop (Z.to_nat nr) text) < fuel)%nat ->
    exists tok : list ascii,
      parseName_loop fuel acc (MkIter text nr)
      = Ok (acc +:+ string_of_list_ascii tok,
            MkIter text (nr + Z.of_nat (length tok)))
      /\ take (length tok) (drop (Z.to_nat nr) text) = tok
      /\ forallb (fun b => nameContinue (rune_of_byte b)) tok = true
      /\ (acc = EmptyString -> tok = [] \/ matchesNameGrammar tok = true).
Proof.
  induction fuel as [|fuel IH]; intros text nr acc Hnr Hlen Hfuel; [lia|].
  cbn [parseName_loop]. unfold bind at 1. unfold getCharNr at 1. cbn [charNr].
  unfold bind at 1. rewrite checkC_at by exact Hnr.
  destruct (drop (Z.to_nat nr) text) as [|b rest] eqn:Hdrop.
  - exists []. simpl. rewrite append_empty_r, Z.add_0_r. unfold ret.
    repeat split; auto.
  - destruct (allowedChars (rune_of_byte b)) as [first|] eqn:Hallowed.
    2:{ exists []. simpl. rewrite append_empty_r, Z.add_0_r. unfold ret.
        repeat split; auto. }
    destruct (String.eqb acc EmptyString && negb first) eqn:Hfirst.
    { exists []. simpl. rewrite append_empty_r, Z.add_0_r. unfold ret.
      repeat split; auto. }
    destruct (drop_cons_lt _ _ _ _ Hdrop) as [Hlt Hrest].
    replace (S (Z.to_nat nr)) with (Z.to_nat (nr + 1)) in Hrest by lia.
    unfold bind at 1, incrCharNr at 1. cbn [data charNr].
    rewrite wrap64_small by lia.
    destruct (IH text (nr + 1) (acc +:+ string_of_rune (rune_of_byte b)))
      as (tok & Hrun & Hpre & Hall & _).
    { lia. } { exact Hlen. }
    { rewrite Hrest. simpl in Hfuel. lia. }
    exists (b :: tok). rewrite Hrun.
    unfold string_of_rune. rewrite byte_of_rune, append_cons_assoc.
    simpl length. simpl string_of_list_ascii.
    replace (nr + 1 + Z.of_nat (length tok))
      with (nr + Z.of_nat (S (length tok))) by lia.
    split; [reflexivity|].
    split. { simpl. rewrite Hrest in Hpre. rewrite Hpre. reflexivity. }
    split. { simpl. rewrite Hall, (allowedChars_continue _ _ Hallowed). reflexivity. }
    intros ->. right. simpl in Hfirst.
    destruct first; [|discriminate].
    simpl. rewrite Hall, (allowedChars_start _ Hallowed). reflexivity.
Qed.

Lemma parseName_spec (text : list ascii) (nr : Z) :
  0 <= nr ->
  Z.of_nat (length text) < 2 ^ 64 ->
  exists tok : list ascii,
    parseName (MkIter text nr)
    = Ok (string_of_list_ascii tok, MkIter text (nr + Z.of_nat (length tok)))
    /\ take (length tok) (drop (Z.to_nat nr) text) = tok
    /\ (tok = [] \/ matchesNameGrammar tok = true).
Proof.
  intros Hnr Hlen.
  destruct (parseName_loop_spec (S (S (length text))) text nr EmptyString)
    as (tok & Hrun & Hpre & _ & Hgram); [exact Hnr|exact Hlen| |].
  { rewrite length_drop. lia. }
  exists tok. split; [|split; [exact Hpre|apply Hgram; reflexivity]].
  unfold parseName, bind, loopFuel. cbn [data]. exact Hrun.
Qed.

(** ** The names [parseName] reads *)















(** ** Inputs made of ignored tokens *)

Lemma isLineTerminator_at (text : list ascii) (nr : Z) (b : ascii)
  (rest : list ascii) :
  0 <= nr ->
  Z.of_nat (length text) + 1 < 2 ^ 64 ->
  drop (Z.to_nat nr) text = b :: rest ->
  isLineTerminator (MkIter text nr)
  = Ok (if rune_of_byte b =? r_lf then (true, MkIter text nr)
        else if rune_of_byte b =? r_cr then
          (true,
           MkIter text
             match rest with
             | b' :: _ => if rune_of_byte b' =? r_lf then nr + 1 else nr
             | [] => nr
             end)
        else (false, MkIter text nr)).
Proof.
  intros Hnr Hlen Hdrop.
  destruct (drop_cons_lt _ _ _ _ Hdrop) as [Hlt Hrest].
  unfold isLineTerminator, bind at 1. rewrite (currentC_at _ _ _ _ Hnr Hdrop).
  destruct (rune_of_byte b =? r_lf); [reflexivity|].
  destruct (rune_of_byte b =? r_cr); [|reflexivity].
  unfold bind at 1, getCharNr at 1. cbn [charNr].
  rewrite wrap64_small by lia.
  unfold bind at 1. rewrite checkC_at by lia.
  replace (Z.to_nat (nr + 1)) with (S (Z.to_nat nr)) by lia. rewrite Hrest.
  destruct rest as [|b' rest'].
  - reflexivity.
  - destruct (rune_of_byte b' =? r_lf); [|reflexivity].
    unfold bind, incrCharNr, ret. cbn [data charNr].
    rewrite wrap64_small by lia. reflexivity.
Qed.

(** [parseComment] from inside a comment stops on the last byte of the line
    terminator that ends it, or at the end of the text. *)
Lemma parseComment_loop_spec (fuel : nat) :
  forall (text : list ascii) (nr : Z),
    0 <= nr ->
    Z.of_nat (length text) + 1 < 2 ^ 64 ->
    (length (drop (Z.to_nat nr) text) < fuel)%nat ->
    ignoredOnly true (drop (Z.to_nat nr) text) = true ->
    exists q : Z,
      parseComment_loop fuel (MkIter text nr) = Ok (tt, MkIter text q)
      /\ nr <= q
      /\ (q <= Z.of_nat (length text) \/ q = nr)
      /\ ignoredOnly false (drop (Z.to_nat (q + 1)) text) = true.
Proof.
  induction fuel as [|fuel IH]; intros text nr Hnr Hlen Hfuel Hign; [lia|].
  cbn [parseComment_loop]. unfold bind at 1, getCharNr at 1. cbn [charNr].
  unfold bind at 1, eof at 1. cbn [data].
  destruct (drop (Z.to_nat nr) text) as [|b rest] eqn:Hdrop.
  - apply drop_nil_inv in Hdrop as Hge.
    replace (Z.of_nat (length text) <=? nr) with true
      by (symmetry; apply Z.leb_le; lia).
    exists nr. unfold ret. repeat split; [lia|right; reflexivity|].
    rewrite drop_ge by lia. reflexivity.
  - destruct (drop_cons_lt _ _ _ _ Hdrop) as [Hlt Hrest].
    replace (Z.of_nat (length text) <=? nr) with false
      by (symmetry; apply Z.leb_gt; lia).
    unfold bind at 1. rewrite (isLineTerminator_at _ _ _ _ Hnr Hlen Hdrop).
    simpl in Hign.
    destruct (rune_of_byte b =? r_lf) eqn:Hlf.
    { exists nr. unfold ret. simpl in Hign.
      repeat split; [lia|right; reflexivity|].
      replace (Z.to_nat (nr + 1)) with (S (Z.to_nat nr)) by lia.
      rewrite Hrest. exact Hign. }
    destruct (rune_of_byte b =? r_cr) eqn:Hcr.
    { simpl in Hign. destruct rest as [|b' rest'].
      - exists nr. unfold ret. repeat split; [lia|right; reflexivity|].
        replace (Z.to_nat (nr + 1)) with (S (Z.to_nat nr)) by lia.
        rewrite Hrest. reflexivity.
      - destruct (rune_of_byte b' =? r_lf) eqn:Hlf'.
        + exists (nr + 1). unfold ret.
          assert (Hl2 : (S (Z.to_nat nr) < length text)%nat).
          { apply (drop_cons_lt _ _ _ _ Hrest). }
          repeat split; [lia|left; lia|].
          replace (Z.to_nat (nr + 1 + 1)) with (S (S (Z.to_nat nr))) by lia.
          rewrite (proj2 (drop_cons_lt _ _ _ _ Hrest)).
          simpl in Hign. rewrite Hlf' in Hign. exact Hign.
        + exists nr. unfold ret. repeat split; [lia|right; reflexivity|].
          replace (Z.to_nat (nr + 1)) with (S (Z.to_nat nr)) by lia.
          rewrite Hrest. exact Hign. }
    simpl in Hign.
    unfold bind at 1, incrCharNr at 1. cbn [data charNr].
    rewrite wrap64_small by lia.
    destruct (IH text (nr + 1)) as (q & Hrun & Hq1 & Hq2 & Hq3).
    { lia. } { exact Hlen. }
    { replace (Z.to_nat (nr + 1)) with (S (Z.to_nat nr)) by lia.
      rewrite Hrest. simpl in Hfuel. lia. }
    { replace (Z.to_nat (nr + 1)) with (S (Z.to_nat nr)) by lia.
      rewrite Hrest. exact Hign. }
    exists q. rewrite Hrun. repeat split; [lia| |exact Hq3].
    left. destruct Hq2 as [Hq2|Hq2]; lia.
Qed.

Lemma rune_not_bom (b : ascii) : isUnicodeBom (rune_of_byte b) = false.
Proof.
  unfold isUnicodeBom, r_bom. apply Z.eqb_neq.
  pose proof (rune_of_byte_range b). lia.
Qed.

(** On a text of ignored tokens, [isIgnoredToken] answers [true] and leaves
    the cursor on the last byte of the token it saw. *)
Lemma isIgnoredToken_ignored (text : list ascii) (nr : Z) (b : ascii)
  (rest : list ascii) :
  0 <= nr ->
  Z.of_nat (length text) + 1 < 2 ^ 64 ->
  drop (Z.to_nat nr) text = b :: rest ->
  ignoredOnly false (b :: rest) = true ->
  exists q : Z,
    isIgnoredToken (MkIter text nr) = Ok (true, MkIter text q)
    /\ nr <= q <= Z.of_nat (length text)
    /\ ignoredOnly false (drop (Z.to_nat (q + 1)) text) = true.
Proof.
  intros Hnr Hlen Hdrop Hign.
  destruct (drop_cons_lt _ _ _ _ Hdrop) as [Hlt Hrest].
  assert (Hnext : drop (Z.to_nat (nr + 1)) text = rest).
  { replace (Z.to_nat (nr + 1)) with (S (Z.to_nat nr)) by lia. exact Hrest. }
  unfold isIgnoredToken, bind at 1. rewrite (currentC_at _ _ _ _ Hnr Hdrop).
  rewrite rune_not_bom. simpl in Hign.
  destruct (isWhiteSpace (rune_of_byte b)) eqn:Hws.
  { exists nr. unfold ret. repeat split; [lia|lia|].
    rewrite Hnext.
    destruct ((rune_of_byte b =? r_lf) || (rune_of_byte b =? r_cr)); exact Hign. }
  unfold bind at 1. rewrite (isLineTerminator_at _ _ _ _ Hnr Hlen Hdrop).
  destruct (rune_of_byte b =? r_lf) eqn:Hlf.
  { exists nr. unfold ret. simpl in Hign. repeat split; [lia|lia|].
    rewrite Hnext. exact Hign. }
  destruct (rune_of_byte b =? r_cr) eqn:Hcr.
  { simpl in Hign. destruct rest as [|b' rest'].
    - exists nr. unfold ret. repeat split; [lia|lia|]. rewrite Hnext. reflexivity.
    - destruct (rune_of_byte b' =? r_lf) eqn:Hlf'.
      + exists (nr + 1). unfold ret.
        destruct (drop_cons_lt _ _ _ _ Hrest) as [Hl2 Hrest2].
        repeat split; [lia|lia|].
        replace (Z.to_nat (nr + 1 + 1)) with (S (S (Z.to_nat nr))) by lia.
        rewrite Hrest2. simpl in Hign. rewrite Hlf' in Hign. exact Hign.
      + exists nr. unfold ret. repeat split; [lia|lia|].
        rewrite Hnext. exact Hign. }
  simpl in Hign.
  destruct (rune_of_byte b =? r_hash) eqn:Hhash; [|discriminate Hign].
  unfold isComment, bind at 1. rewrite (currentC_at _ _ _ _ Hnr Hdrop), Hhash.
  unfold bind at 1, parseComment, bind at 1, loopFuel at 1. cbn [data].
  destruct (parseComment_loop_spec (S (S (length text))) text nr)
    as (q & Hrun & Hq1 & Hq2 & Hq3); [exact Hnr|exact Hlen| | |].
  { rewrite length_drop. lia. }
  { rewrite Hdrop. simpl. rewrite Hlf, Hcr. simpl. exact Hign. }
  exists q. rewrite Hrun. unfold ret. repeat split; [lia| |exact Hq3].
  destruct Hq2 as [Hq2|Hq2]; lia.
Qed.

(** [parseOperator] on a text of ignored tokens: the default operator. *)
Lemma parseOperator_loop_ignored (fuel : nat) :
  forall (text : list ascii) (nr : Z) (res : Operator),
    0 <= nr ->
    Z.of_nat (length text) + 1 < 2 ^ 64 ->
    (length (drop (Z.to_nat nr) text) < fuel)%nat ->
    ignoredOnly false (drop (Z.to_nat nr) text) = true ->
    exists q : Z,
      parseOperator_loop fuel res StOperationType (MkIter text nr)
      = Ok ((Some res, None), MkIter text q).
Proof.
  induction fuel as [|fuel IH]; intros text nr res Hnr Hlen Hfuel Hign; [lia|].
  cbn [parseOperator_loop]. unfold bind at 1, getCharNr at 1. cbn [charNr].
  unfold bind at 1, eof at 1. cbn [data].
  destruct (drop (Z.to_nat nr) text) as [|b rest] eqn:Hdrop.
  - apply drop_nil_inv in Hdrop as Hge.
    replace (Z.of_nat (length text) <=? nr) with true
      by (symmetry; apply Z.leb_le; lia).
    exists nr. reflexivity.
  - destruct (drop_cons_lt _ _ _ _ Hdrop) as [Hlt Hrest].
    replace (Z.of_nat (length text) <=? nr) with false
      by (symmetry; apply Z.leb_gt; lia).
    destruct (isIgnoredToken_ignored _ _ _ _ Hnr Hlen Hdrop Hign)
      as (q & Hrun & Hq & Hrestq).
    unfold bind at 1. rewrite Hrun.
    unfold bind at 1, incrCharNr at 1. cbn [data charNr].
    rewrite wrap64_small by lia.
    apply IH; [lia|exact Hlen| |exact Hrestq].
    rewrite length_drop. simpl in Hfuel.
    assert (Hl : length (drop (Z.to_nat nr) text) = S (length rest))
      by (rewrite Hdrop; reflexivity).
    rewrite length_drop in Hl. lia.
Qed.

(** On an input made of white space, line terminators and comments,
    [ParseQuery] returns the default operator: a query without a name. *)
Lemma ParseQuery_ignored_tokens (input : string) :
  len input + 1 < 2 ^ 64 ->
  ignoredOnly false (list_ascii_of_string input) = true ->
  ParseQuery input = Ok (Some (MkOperator "query" EmptyString), None).
Proof.
  intros Hlen Hign. unfold ParseQuery, parseOperator, bind, loopFuel.
  cbn [data].
  assert (Hl : Z.of_nat (length (list_ascii_of_string input)) = len input).
  { unfold len. f_equal. clear. induction input; simpl; congruence. }
  destruct (parseOperator_loop_ignored
              (S (S (length (list_ascii_of_string input))))
              (list_ascii_of_string input) 0
              (MkOperator "query" EmptyString)) as [q Hq].
  - lia.
  - rewrite Hl. exact Hlen.
  - rewrite length_drop. lia.
  - exact Hign.
  - rewrite Hq. reflexivity.
Qed.

Lemma ParseQuery_empty :
  ParseQuery EmptyString = Ok (Some (MkOperator "query" EmptyString), None).
Proof. reflexivity. Qed.

Lemma ParseQuery_ignored_sample :
  ParseQuery Examples.ignoredInput
  = Ok (Some (MkOperator "query" EmptyString), None).
Proof.
  apply ParseQuery_ignored_tokens; vm_compute; reflexivity.
Qed.

(** C10 at an input that is one ignored token, the byte order mark: the
    cursor reads single bytes, none of which is the rune U+FEFF, so the mark
    is not skipped and [ParseQuery] returns the error
    [unknown operation type], where the claim has it succeed with the
    default query operator. *)
Theorem ParseQuery_rejects_byte_order_mark :
  ParseQuery Examples.bomInput = Ok (None, Some "unknown operation type")
  /\ forall b : ascii, isUnicodeBom (rune_of_byte b) = false.
Proof. split; [vm_compute; reflexivity|exact rune_not_bom]. Qed.




End QueryParserFacts.

Module EnumsFacts.
Import Reflect Names NamesFacts Enums.

(** A value already recorded in [valueKeyMap] stops the loop at the entry
    that carries it again (or before). *)
Lemma range_seen_value (entries : list (string * EnumValue)) :
  forall (res : gmap string EnumValue) (valueKeyMap : gmap EnumValue string)
         (k : string) (v : EnumValue),
    (k, v) ∈ entries ->
    is_Some (valueKeyMap !! v) ->
    exists msg, registerEnumCheck_range entries res valueKeyMap = Panic msg.
Proof.
  induction entries as [|[k0 v0] entries IH]; intros res vk k v Hin Hseen.
  - inversion Hin.
  - cbn [registerEnumCheck_range].
    destruct (String.eqb k0 EmptyString); [eauto|].
    destruct (validGraphQlName k0); [eauto|].
    destruct (vk !! v0) eqn:Hv0; [eauto|].
    apply elem_of_cons in Hin as [Heq|Hin].
    + injection Heq as -> ->. rewrite Hv0 in Hseen. destruct Hseen; discriminate.
    + apply (IH _ _ k v Hin).
      destruct (decide (v0 = v)) as [->|Hne].
      * rewrite lookup_insert_eq. eauto.
      * rewrite lookup_insert_ne by exact Hne. exact Hseen.
Qed.

(** Two entries with different labels and one value make the loop panic. *)
Lemma range_duplicate_value (entries : list (string * EnumValue)) :
  forall (res : gmap string EnumValue) (valueKeyMap : gmap EnumValue string)
         (k1 k2 : string) (v : EnumValue),
    k1 <> k2 ->
    (k1, v) ∈ entries ->
    (k2, v) ∈ entries ->
    exists msg, registerEnumCheck_range entries res valueKeyMap = Panic msg.
Proof.
  induction entries as [|[k0 v0] entries IH]; intros res vk k1 k2 v Hne H1 H2.
  - inversion H1.
  - cbn [registerEnumCheck_range].
    destruct (String.eqb k0 EmptyString); [eauto|].
    destruct (validGraphQlName k0); [eauto|].
    destruct (vk !! v0) eqn:Hv0; [eauto|].
    apply elem_of_cons in H1 as [Heq1|H1];
      apply elem_of_cons in H2 as [Heq2|H2].
    + congruence.
    + injection Heq1 as -> ->.
      apply (range_seen_value _ _ _ k2 v0 H2). rewrite lookup_insert_eq. eauto.
    + injection Heq2 as -> ->.
      apply (range_seen_value _ _ _ k1 v0 H1). rewrite lookup_insert_eq. eauto.
    + apply (IH _ _ k1 k2 v Hne H1 H2).
Qed.

(** When the loop ends normally, what it added to [res] are entries of the
    map with a valid, non-empty label. *)
Lemma range_labels (entries : list (string * EnumValue)) :
  forall (res res' : gmap string EnumValue)
         (valueKeyMap valueKeyMap' : gmap EnumValue string),
    registerEnumCheck_range entries res valueKeyMap = Ok (res', valueKeyMap') ->
    forall (label : string) (v : EnumValue),
      res' !! label = Some v ->
      res !! label = Some v
      \/ ((label, v) ∈ entries /\ label <> EmptyString
          /\ validGraphQlName label = None).
Proof.
  induction entries as [|[k0 v0] entries IH];
    intros res res' vk vk' Hrun label v Hlook.
  - injection Hrun as <- <-. left. exact Hlook.
  - cbn [registerEnumCheck_range] in Hrun.
    destruct (String.eqb k0 EmptyString) eqn:Hempty; [discriminate|].
    destruct (validGraphQlName k0) eqn:Hvalid; [discriminate|].
    destruct (vk !! v0) eqn:Hv0; [discriminate|].
    destruct (IH _ _ _ _ Hrun label v Hlook) as [Hold|(Hin & Hne & Hok)].
    + destruct (decide (k0 = label)) as [->|Hneq].
      * rewrite lookup_insert_eq in Hold. injection Hold as ->.
        right. split; [apply elem_of_cons; left; reflexivity|].
        split; [|exact Hvalid].
        intros ->. discriminate Hempty.
      * rewrite lookup_insert_ne in Hold by exact Hneq. left. exact Hold.
    + right. split; [apply elem_of_cons; right; exact Hin|]. split; assumption.
Qed.

(** An entry of [res] whose label the loop does not meet stays. *)
Lemma range_keeps (entries : list (string * EnumValue)) :
  forall (res res' : gmap string EnumValue)
         (valueKeyMap valueKeyMap' : gmap EnumValue string)
         (label : string) (v : EnumValue),
    registerEnumCheck_range entries res valueKeyMap = Ok (res', valueKeyMap') ->
    label ∉ map fst entries ->
    res !! label = Some v ->
    res' !! label = Some v.
Proof.
  induction entries as [|[k0 v0] entries IH];
    intros res res' vk vk' label v Hrun Hnotin Hlook.
  - injection Hrun as <- <-. exact Hlook.
  - cbn [registerEnumCheck_range] in Hrun.
    destruct (String.eqb k0 EmptyString); [discriminate|].
    destruct (validGraphQlName k0); [discriminate|].
    destruct (vk !! v0); [discriminate|].
    simpl in Hnotin. apply not_elem_of_cons in Hnotin as [Hne Hnotin].
    apply (IH _ _ _ _ label v Hrun Hnotin).
    rewrite lookup_insert_ne by congruence. exact Hlook.
Qed.

(** Every entry the loop went over is in [res]: over the entries of a map,
    whose labels differ, the loop rebuilds the map. *)
Lemma range_complete (entries : list (string * EnumValue)) :
  forall (res res' : gmap string EnumValue)
         (valueKeyMap valueKeyMap' : gmap EnumValue string),
    NoDup (map fst entries) ->
    registerEnumCheck_range entries res valueKeyMap = Ok (res', valueKeyMap') ->
    forall (label : string) (v : EnumValue),
      (label, v) ∈ entries -> res' !! label = Some v.
Proof.
  induction entries as [|[k0 v0] entries IH];
    intros res res' vk vk' Hnodup Hrun label v Hin.
  - inversion Hin.
  - cbn [registerEnumCheck_range] in Hrun.
    destruct (String.eqb k0 EmptyString) eqn:Hempty; [discriminate|].
    destruct (validGraphQlName k0) eqn:Hvalid; [discriminate|].
    destruct (vk !! v0) eqn:Hv0; [discriminate|].
    simpl in Hnodup. apply NoDup_cons in Hnodup as [Hnotin Hnodup].
    apply elem_of_cons in Hin as [Heq|Hin].
    + injection Heq as -> ->.
      apply (range_keeps _ _ _ _ _ k0 v0 Hrun Hnotin).
      apply lookup_insert_eq.
    + apply (IH _ _ _ _ Hnodup Hrun label v Hin).
Qed.

(** The loop over the entries of a map that ends normally returns the map. *)
Lemma range_map (m : gmap string EnumValue)
  (res' : gmap string EnumValue) (valueKeyMap' : gmap EnumValue string) :
  registerEnumCheck_range (map_to_list m) ∅ ∅ = Ok (res', valueKeyMap') ->
  res' = m.
Proof.
  intros Hrun. apply map_eq. intros label.
  destruct (m !! label) as [v|] eqn:Hm.
  - apply (range_complete _ _ _ _ _ (NoDup_fst_map_to_list m) Hrun).
    apply elem_of_map_to_list. exact Hm.
  - destruct (res' !! label) as [v|] eqn:Hres; [|reflexivity].
    destruct (range_labels _ _ _ _ _ Hrun label v Hres) as [Hold|(Hin & _)].
    + rewrite lookup_empty in Hold. discriminate.
    + apply elem_of_map_to_list in Hin. congruence.
Qed.

Lemma size_zero_empty (m : gmap string EnumValue) :
  (size m =? 0)%nat = true <-> m = ∅.
Proof.
  rewrite Nat.eqb_eq. split.
  - apply map_size_empty_inv.
  - intros ->. apply map_size_empty.
Qed.

(** [registerEnumCheck] on an argument of the right type. *)
Lemma registerEnumCheck_typed (map_ : MapArg) :
  mapKind map_ = Map ->
  mapKeyKind map_ = String ->
  validEnumType (mapElem map_) = true ->
  tPkgPath (mapElem map_) <> EmptyString ->
  tName (mapElem map_) <> EmptyString ->
  registerEnumCheck map_
  = if (size (mapEntries map_) =? 0)%nat then Ok None
    else
      match registerEnumCheck_range (map_to_list (mapEntries map_)) ∅ ∅ with
      | Panic msg => Panic msg
      | Diverge => Diverge
      | Ok (res, valueKeyMap) =>
          Ok (Some (MkEnum (mapElem map_) (tName (mapElem map_)) res valueKeyMap
                      (MkQlType typeKindEnum (Some (tName (mapElem map_)))
                         (Some EmptyString)
                         (map (fun key => MkQlEnumValue key (Some EmptyString)
                                            false None)
                              (merge_sort String.le (map fst (map_to_list res)))))))
      end.
Proof.
  intros Hkind Hkey Hvalid Hpkg Hname. unfold registerEnumCheck.
  rewrite Hkind, Hkey, Hvalid. cbn [kind_eqb negb].
  replace (kind_eqb Map Map) with true by reflexivity.
  replace (kind_eqb String String) with true by reflexivity.
  cbn [negb].
  apply String.eqb_neq in Hpkg, Hname. rewrite Hpkg, Hname. reflexivity.
Qed.

(** C8. Enum registration: a map without entries is accepted and registers
    nothing (no panic, [definedEnums] unchanged); a map in which two
    different labels carry the same value makes the registration panic; and
    when an enum is registered, its labels are those of the map, each
    non-empty and matching the identifier grammar
    [[A-Za-z_][A-Za-z0-9_]*]. *)
Theorem RegisterEnum_contract (definedEnums : gmap string enum) (map_ : MapArg) :
  mapKind map_ = Map ->
  mapKeyKind map_ = String ->
  validEnumType (mapElem map_) = true ->
  tPkgPath (mapElem map_) <> EmptyString ->
  tName (mapElem map_) <> EmptyString ->
  (mapEntries map_ = ∅ ->
   RegisterEnum definedEnums map_ = Ok (false, definedEnums))
  /\ (forall (k1 k2 : string) (v : EnumValue),
        k1 <> k2 ->
        mapEntries map_ !! k1 = Some v ->
        mapEntries map_ !! k2 = Some v ->
        exists msg, RegisterEnum definedEnums map_ = Panic msg)
  /\ (forall (added : bool) (definedEnums' : gmap string enum),
        RegisterEnum definedEnums map_ = Ok (added, definedEnums') ->
        if added then
          exists e : enum,
            definedEnums' = <[tName (mapElem map_) := e]> definedEnums
            /\ keyValue e = mapEntries map_
            /\ (forall (label : string) (v : EnumValue),
                  keyValue e !! label = Some v ->
                  label <> EmptyString
                  /\ matchesNameGrammar (list_ascii_of_string label) = true)
        else definedEnums' = definedEnums /\ mapEntries map_ = ∅).
Proof.
  intros Hkind Hkey Hvalid Hpkg Hname.
  unfold RegisterEnum.
  rewrite (registerEnumCheck_typed _ Hkind Hkey Hvalid Hpkg Hname).
  split; [|split].
  - intros Hempty. rewrite (proj2 (size_zero_empty _) Hempty). reflexivity.
  - intros k1 k2 v Hne H1 H2.
    destruct (size (mapEntries map_) =? 0)%nat eqn:Hsize.
    { apply size_zero_empty in Hsize. rewrite Hsize, lookup_empty in H1.
      discriminate. }
    destruct (range_duplicate_value (map_to_list (mapEntries map_)) ∅ ∅
                k1 k2 v Hne) as [msg Hmsg].
    { apply elem_of_map_to_list. exact H1. }
    { apply elem_of_map_to_list. exact H2. }
    exists msg. rewrite Hmsg. reflexivity.
  - intros added defined' Hrun.
    destruct (size (mapEntries map_) =? 0)%nat eqn:Hsize.
    { injection Hrun as <- <-. split; [reflexivity|].
      apply size_zero_empty. exact Hsize. }
    destruct (registerEnumCheck_range (map_to_list (mapEntries map_)) ∅ ∅)
      as [[res vk]|msg|] eqn:Hrange; try discriminate.
    injection Hrun as <- <-. eexists. split; [reflexivity|].
    cbn [keyValue typeName].
    pose proof (range_map _ _ _ Hrange) as Hres.
    split; [exact Hres|].
    intros label v Hlook.
    destruct (range_labels _ _ _ _ _ Hrange label v Hlook)
      as [Hold|(_ & Hne & Hok)].
    { rewrite lookup_empty in Hold. discriminate. }
    split; [exact Hne|].
    apply matchesLetterFirst_grammar, validGraphQlName_accepts. exact Hok.
Qed.

(** The empty map, a map with the value [pet] under two labels, and the
    map of [Cat] and [Dog]. *)
Lemma RegisterEnum_contract_witness :
  RegisterEnum ∅ Examples.emptyEnumMap = Ok (false, ∅)
  /\ (exists msg, RegisterEnum ∅ Examples.duplicateEnumMap = Panic msg)
  /\ (forall (added : bool) (definedEnums' : gmap string enum),
        RegisterEnum ∅ Examples.animalsEnumMap = Ok (added, definedEnums') ->
        if added then
          exists e : enum,
            definedEnums' = <[tName (mapElem Examples.animalsEnumMap) := e]> ∅
            /\ keyValue e = mapEntries Examples.animalsEnumMap
            /\ (forall (label : string) (v : EnumValue),
                  keyValue e !! label = Some v ->
                  label <> EmptyString
                  /\ matchesNameGrammar (list_ascii_of_string label) = true)
        else definedEnums' = ∅ /\ mapEntries Examples.animalsEnumMap = ∅).
Proof.
  split; [|split].
  - apply (RegisterEnum_contract ∅ Examples.emptyEnumMap);
      [reflexivity|reflexivity|reflexivity|discriminate|discriminate|reflexivity].
  - apply (proj1 (proj2 (RegisterEnum_contract ∅ Examples.duplicateEnumMap
                           eq_refl eq_refl eq_refl
                           ltac:(discriminate) ltac:(discriminate)))
             "Cat" "Dog" (EnumString "pet"));
      [discriminate|vm_compute; reflexivity|vm_compute; reflexivity].
  - apply (RegisterEnum_contract ∅ Examples.animalsEnumMap);
      [reflexivity|reflexivity|reflexivity|discriminate|discriminate].
Defined.

(** The registration of [Cat] and [Dog] goes through. *)
Lemma RegisterEnum_sample :
  exists e : enum,
    RegisterEnum ∅ Examples.animalsEnumMap = Ok (true, {["Animal" := e]})
    /\ map qlName (qlEnumValues (enumQlType e)) = ["Cat"; "Dog"].
Proof. eexists. split; vm_compute; reflexivity. Qed.

End EnumsFacts.

Module ResolveFacts.
Import Reflect ValueTypes Resolve.

(** ** The state monad *)

Lemma bind_assoc {S A B C} (m : Go.M S A) (k : A -> Go.M S B)
  (h : B -> Go.M S C) (s : S) :
  bind (bind m k) h s = bind m (fun a => bind (k a) h) s.
Proof. unfold bind. destruct (m s) as [[a s']| |]; reflexivity. Qed.

Lemma bind_ext {S A B} (m : Go.M S A) (k k' : A -> Go.M S B) (s : S) :
  (forall a s', k a s' = k' a s') -> bind m k s = bind m k' s.
Proof.
  intros H. unfold bind. destruct (m s) as [[a s']| |]; [apply H|reflexivity..].
Qed.

Lemma bind_ext_on {S A B} (m : Go.M S A) (k k' : A -> Go.M S B) (s : S) :
  (forall a s', m s = Ok (a, s') -> k a s' = k' a s') ->
  bind m k s = bind m k' s.
Proof.
  intros H. unfold bind.
  destruct (m s) as [[a s']| |]; [apply H; reflexivity|reflexivity..].
Qed.

Lemma bind_cong {S A B} (m m' : Go.M S A) (k : A -> Go.M S B) (s : S) :
  m s = m' s -> bind m k s = bind m' k s.
Proof. intros H. unfold bind. rewrite H. reflexivity. Qed.

(** ** Computations that only add errors and write [Values] *)

Lemma setErrors_setErrors (ctx : Ctx) (e1 e2 : list string) :
  setErrors (setErrors ctx e1) e2 = setErrors ctx e2.
Proof. reflexivity. Qed.

Lemma setErrors_self (ctx : Ctx) : setErrors ctx (errors ctx) = ctx.
Proof. destruct ctx; reflexivity. Qed.

Lemma setValues_setValues (ctx : Ctx) (v1 v2 : gmap string GoValue) :
  setValues (setValues ctx v1) v2 = setValues ctx v2.
Proof. reflexivity. Qed.

Lemma setValues_self (ctx : Ctx) : setValues ctx (Values ctx) = ctx.
Proof. destruct ctx; reflexivity. Qed.

Lemma setErrors_setValues (ctx : Ctx) (values : gmap string GoValue)
  (errs : list string) :
  setErrors (setValues ctx values) errs = setValues (setErrors ctx errs) values.
Proof. reflexivity. Qed.

Lemma AppendsErrors_ret {A} (a : A) : AppendsErrors (ret a).
Proof.
  intros ctx. exists (Ok (a, [], Values ctx)). intros errs.
  rewrite app_nil_r. reflexivity.
Qed.

Lemma AppendsErrors_bind {A B} (m : M A) (k : A -> M B) :
  AppendsErrors m -> (forall a, AppendsErrors (k a)) -> AppendsErrors (bind m k).
Proof.
  intros Hm Hk ctx. destruct (Hm ctx) as [[[[a new1] v1]|msg|] Hrun].
  - destruct (Hk a (setValues ctx v1)) as [[[[b new2] v2]|msg|] Hrun2].
    + exists (Ok (b, new1 ++ new2, v2)). intros errs. unfold bind.
      rewrite Hrun, <- setErrors_setValues, Hrun2, app_assoc. reflexivity.
    + exists (Panic msg). intros errs. unfold bind.
      rewrite Hrun, <- setErrors_setValues, Hrun2. reflexivity.
    + exists Diverge. intros errs. unfold bind.
      rewrite Hrun, <- setErrors_setValues, Hrun2. reflexivity.
  - exists (Panic msg). intros errs. unfold bind. rewrite Hrun. reflexivity.
  - exists Diverge. intros errs. unfold bind. rewrite Hrun. reflexivity.
Qed.

Lemma AppendsErrors_addErr (err : string) : AppendsErrors (addErr err).
Proof.
  intros ctx. exists (Ok (tt, [err], Values ctx)). intros errs. reflexivity.
Qed.

Lemma AppendsErrors_lift {A} (r : Res A) : AppendsErrors (lift r).
Proof.
  intros ctx. destruct r as [a|msg|].
  - exists (Ok (a, [], Values ctx)). intros errs. unfold lift.
    rewrite app_nil_r. reflexivity.
  - exists (Panic msg). reflexivity.
  - exists Diverge. reflexivity.
Qed.

Lemma AppendsErrors_getSchema : AppendsErrors getSchema.
Proof.
  intros ctx. exists (Ok (schema ctx, [], Values ctx)). intros errs.
  unfold getSchema. rewrite app_nil_r. reflexivity.
Qed.

Lemma AppendsErrors_getFragments : AppendsErrors getFragments.
Proof.
  intros ctx. exists (Ok (fragments ctx, [], Values ctx)). intros errs.
  unfold getFragments. rewrite app_nil_r. reflexivity.
Qed.

Lemma AppendsErrors_panic {A} (msg : string) : AppendsErrors (@panic Ctx A msg).
Proof. intros ctx. exists (Panic msg). reflexivity. Qed.

Lemma AppendsErrors_diverge {A} : AppendsErrors (@diverge Ctx A).
Proof. intros ctx. exists Diverge. reflexivity. Qed.

(** What [AppendsErrors] gives at a context. *)
Lemma AppendsErrors_run {A} (m : M A) (ctx ctx' : Ctx) (a : A) :
  AppendsErrors m ->
  m ctx = Ok (a, ctx') ->
  exists (new : list string) (values : gmap string GoValue),
    ctx' = setValues (setErrors ctx (errors ctx ++ new)) values
    /\ forall errs,
         m (setErrors ctx errs)
         = Ok (a, setValues (setErrors ctx (errs ++ new)) values).
Proof.
  intros Hm Hrun. destruct (Hm ctx) as [r Hr].
  pose proof (Hr (errors ctx)) as H0. rewrite setErrors_self, Hrun in H0.
  destruct r as [[[a' new] values]|msg|]; try discriminate.
  injection H0 as -> ->. exists new, values. split; [reflexivity|exact Hr].
Qed.

Ltac appends_errors :=
  repeat first
    [ assumption
    | apply AppendsErrors_ret | apply AppendsErrors_addErr | apply AppendsErrors_lift
    | apply AppendsErrors_getSchema | apply AppendsErrors_getFragments
    | apply AppendsErrors_panic | apply AppendsErrors_diverge
    | apply AppendsErrors_bind; [|intros ?]
    | match goal with
      | |- AppendsErrors (match ?x with _ => _ end) => destruct x
      | |- AppendsErrors (if ?x then _ else _) => destruct x
      | |- AppendsErrors (let (_, _) := ?x in _) => destruct x
      end ].

Section Host.

Variable callFunc :
  nat -> list GoValue -> gmap string GoValue ->
  Res (list GoValue * gmap string GoValue).
Variable rangeOrder : forall V : Type, gmap string V -> list (string * V).
Variable quote : string -> string.
Variable floatToJson : Z -> Z -> string.
Variable roundToFloat32 : Z -> Z.

#[local] Abbreviation resolveFieldDataValue :=
  (Resolve.resolveFieldDataValue callFunc rangeOrder quote floatToJson roundToFloat32).
#[local] Abbreviation resolveField :=
  (Resolve.resolveField callFunc rangeOrder quote floatToJson roundToFloat32).
#[local] Abbreviation resolveOneSelection :=
  (Resolve.resolveOneSelection callFunc rangeOrder quote floatToJson roundToFloat32).
#[local] Abbreviation resolveSelectionRange :=
  (Resolve.resolveSelectionRange callFunc rangeOrder quote floatToJson roundToFloat32).
#[local] Abbreviation resolveSelectionContent :=
  (Resolve.resolveSelectionContent callFunc rangeOrder quote floatToJson roundToFloat32).
#[local] Abbreviation start :=
  (Resolve.start callFunc rangeOrder quote floatToJson roundToFloat32).

Lemma AppendsErrors_bindArguments (queryName : string)
  (inFields : gmap string InField) (args : list (string * Value)) :
  forall inputs,
    AppendsErrors (bindArguments roundToFloat32 queryName inFields args inputs).
Proof.
  induction args as [|[k v] args IH]; intros inputs; cbn [bindArguments].
  - appends_errors.
  - appends_errors; apply IH.
Qed.

Lemma AppendsErrors_Call (v : GoValue) (inputs : list GoValue) :
  AppendsErrors (Call callFunc v inputs).
Proof.
  intros ctx. unfold Call.
  destruct v as [| | | | | | | | | | |[f|]| |];
    try (eexists (Panic _); intros errs; reflexivity).
  destruct (callFunc f inputs (Values ctx)) as [[outs values]|msg|] eqn:Hcall.
  - exists (Ok (outs, [], values)). intros errs. cbn [Values setErrors].
    rewrite Hcall, app_nil_r. reflexivity.
  - exists (Panic msg). intros errs. cbn [Values setErrors].
    rewrite Hcall. reflexivity.
  - exists Diverge. intros errs. cbn [Values setErrors].
    rewrite Hcall. reflexivity.
Qed.

Lemma AppendsErrors_checkErrorOut (queryName : string) (nr : option Z)
  (outs : list GoValue) : AppendsErrors (checkErrorOut queryName nr outs).
Proof. unfold checkErrorOut. appends_errors. Qed.

Lemma AppendsErrors_resolveElems (f : GoValue -> M (string * bool)) :
  (forall v, AppendsErrors (f v)) ->
  forall elems acc, AppendsErrors (resolveElems f elems acc).
Proof.
  intros Hf. induction elems as [|v elems IH]; intros acc; cbn [resolveElems].
  - appends_errors.
  - appends_errors; [apply Hf|apply IH].
Qed.

Section Recurse.

Variable recurse : SelectionSet -> GoValue -> Obj -> Z -> M string.
Hypothesis recurse_appends_errors :
  forall sel v o d, AppendsErrors (recurse sel v o d).

Lemma AppendsErrors_resolveSelection sel v o d :
  AppendsErrors (resolveSelection recurse sel v o d).
Proof. unfold resolveSelection. appends_errors. apply recurse_appends_errors. Qed.

Lemma AppendsErrors_resolveFieldDataValue (n : nat) :
  forall cs query value dept,
    (objDepth cs <= n)%nat ->
    AppendsErrors (resolveFieldDataValue recurse cs query value dept).
Proof.
  induction n as [|n IH]; intros cs query value dept Hn.
  { destruct cs; simpl in Hn; lia. }
  destruct cs as [vt tn sfn contents inner meth].
  cbn [objDepth] in Hn.
  cbn [Resolve.resolveFieldDataValue].
  destruct vt; appends_errors;
    try apply AppendsErrors_bindArguments;
    try apply AppendsErrors_Call;
    try apply AppendsErrors_checkErrorOut;
    try apply AppendsErrors_resolveSelection.
  all: try (apply IH; cbn [objDepth] in *; lia).
  all: try (apply AppendsErrors_resolveElems; intros ?; apply IH; lia).
  all: apply recurse_appends_errors.
Qed.

Lemma AppendsErrors_resolveField query struct_ cs dept :
  AppendsErrors (resolveField recurse query struct_ cs dept).
Proof.
  unfold Resolve.resolveField.
  destruct (objContents cs !! fName query) as [item|]; appends_errors.
  apply (AppendsErrors_resolveFieldDataValue (objDepth item)). lia.
Qed.

Lemma AppendsErrors_resolveOneSelection struct_ cs dept sel st :
  AppendsErrors (resolveOneSelection recurse struct_ cs dept sel st).
Proof.
  unfold Resolve.resolveOneSelection.
  destruct sel; appends_errors;
    try apply AppendsErrors_resolveField; apply recurse_appends_errors.
Qed.

Lemma AppendsErrors_resolveSelectionRange struct_ cs dept sels :
  forall st, AppendsErrors (resolveSelectionRange recurse struct_ cs dept sels st).
Proof.
  induction sels as [|sel sels IH]; intros st; cbn [Resolve.resolveSelectionRange].
  - appends_errors.
  - appends_errors; [apply AppendsErrors_resolveOneSelection|apply IH].
Qed.

(** The loop over a selection set run on [pre ++ post] is the loop on
    [pre] followed by the loop on [post]. *)
Lemma resolveSelectionRange_app struct_ cs dept (pre post : SelectionSet) :
  forall st ctx,
    resolveSelectionRange recurse struct_ cs dept (pre ++ post) st ctx
    = (let* st' := resolveSelectionRange recurse struct_ cs dept pre st in
       resolveSelectionRange recurse struct_ cs dept post st') ctx.
Proof.
  induction pre as [|sel pre IH]; intros st ctx.
  - reflexivity.
  - cbn [app Resolve.resolveSelectionRange]. rewrite bind_assoc.
    apply bind_ext. intros st1 ctx1. apply IH.
Qed.

End Recurse.

Lemma AppendsErrors_resolveSelectionContent (fuel : nat) :
  forall sels struct_ cs dept,
    AppendsErrors (resolveSelectionContent fuel sels struct_ cs dept).
Proof.
  induction fuel as [|fuel IH]; intros sels struct_ cs dept;
    cbn [Resolve.resolveSelectionContent].
  - appends_errors.
  - appends_errors. apply AppendsErrors_resolveSelectionRange. exact IH.
Qed.

(** A selection set resolved around one of its selections. *)
Lemma resolveSelectionContent_split (fuel : nat) (pre post : SelectionSet)
  (sel : Selection) (struct_ : GoValue) (T : Obj) (dept : Z) (ctx : Ctx) :
  resolveSelectionContent (S fuel) (pre ++ sel :: post) struct_ T dept ctx
  = (let* st :=
       resolveSelectionRange (resolveSelectionContent fuel) struct_ T dept
         pre (EmptyString, false) in
     let* st' :=
       resolveOneSelection (resolveSelectionContent fuel) struct_ T dept sel st in
     let* (res, _) :=
       resolveSelectionRange (resolveSelectionContent fuel) struct_ T dept
         post st' in
     ret res) ctx.
Proof.
  cbn [Resolve.resolveSelectionContent].
  rewrite (bind_cong _ _ _ _ (resolveSelectionRange_app _ _ _ _ _ _ _ _)).
  rewrite bind_assoc. apply bind_ext. intros st1 ctx1.
  cbn [Resolve.resolveSelectionRange]. apply bind_assoc.
Qed.

Lemma resolveSelectionContent_app (fuel : nat) (pre post : SelectionSet)
  (struct_ : GoValue) (T : Obj) (dept : Z) (ctx : Ctx) :
  resolveSelectionContent (S fuel) (pre ++ post) struct_ T dept ctx
  = (let* st :=
       resolveSelectionRange (resolveSelectionContent fuel) struct_ T dept
         pre (EmptyString, false) in
     let* (res, _) :=
       resolveSelectionRange (resolveSelectionContent fuel) struct_ T dept
         post st in
     ret res) ctx.
Proof.
  cbn [Resolve.resolveSelectionContent].
  rewrite (bind_cong _ _ _ _ (resolveSelectionRange_app _ _ _ _ _ _ _ _)).
  apply bind_assoc.
Qed.

(** ** Unknown fields (C1) *)

Lemma resolveField_unknown recurse (f : Field) (struct_ : GoValue) (T : Obj)
  (dept : Z) (ctx : Ctx) :
  objContents T !! fName f = None ->
  resolveField recurse f struct_ T dept ctx
  = Ok ((fieldEntry f "null", true),
        setErrors ctx (errors ctx ++ [unknownFieldError f T])).
Proof. intros Hnone. unfold Resolve.resolveField. rewrite Hnone. reflexivity. Qed.

Lemma resolveOneSelection_unknown recurse (f : Field) (struct_ : GoValue)
  (T : Obj) (dept : Z) (st : string * bool) (ctx : Ctx) :
  objContents T !! fName f = None ->
  resolveOneSelection recurse struct_ T dept (SelField f) st ctx
  = Ok (st, setErrors ctx (errors ctx ++ [unknownFieldError f T])).
Proof.
  intros Hnone. unfold Resolve.resolveOneSelection, bind.
  rewrite (resolveField_unknown _ _ _ _ _ _ Hnone). reflexivity.
Qed.

(** C1. A selection of a field the type does not have adds exactly one
    error, [field <name> does not exists on <type>], but, against the
    claim, nothing is written for it to the output: the entry [name:null]
    that [resolveField] returns is dropped by [resolveSelectionContent],
    the loop state is left as it was.  The other selections of the set are
    resolved as in the set without that field: the output is the same, the
    map [Values] the resolvers leave is the same, and so are their errors,
    in the same order, around the one error of the unknown field. *)
Theorem unknown_field_is_skipped (fuel : nat) (pre post : SelectionSet)
  (f : Field) (struct_ : GoValue) (T : Obj) (dept : Z) (ctx : Ctx) :
  objContents T !! fName f = None ->
  (forall st : string * bool,
      resolveOneSelection (resolveSelectionContent fuel) struct_ T dept
        (SelField f) st ctx
      = Ok (st, setErrors ctx (errors ctx ++ [unknownFieldError f T])))
  /\ (forall (out : string) (ctx' : Ctx),
        resolveSelectionContent (S fuel) (pre ++ post) struct_ T dept ctx
        = Ok (out, ctx') ->
        exists (e1 e2 : list string) (values : gmap string GoValue),
          ctx' = setValues (setErrors ctx (errors ctx ++ e1 ++ e2)) values
          /\ resolveSelectionContent (S fuel) (pre ++ SelField f :: post)
               struct_ T dept ctx
             = Ok (out,
                   setValues
                     (setErrors ctx
                        (errors ctx ++ e1 ++ [unknownFieldError f T] ++ e2))
                     values))
  /\ resolveSelectionContent (S fuel) (pre ++ SelField f :: post)
       struct_ T dept ctx
     = (let* st :=
          resolveSelectionRange (resolveSelectionContent fuel) struct_ T dept
            pre (EmptyString, false) in
        addErr (unknownFieldError f T) ;;;
        let* (res, _) :=
          resolveSelectionRange (resolveSelectionContent fuel) struct_ T dept
            post st in
        ret res) ctx.
Proof.
  intros Hnone. split.
  { intros st. apply resolveOneSelection_unknown. exact Hnone. }
  split.
  2:{ rewrite resolveSelectionContent_split.
      apply bind_ext. intros st1 ctx1. unfold bind at 1.
      rewrite (resolveOneSelection_unknown _ _ _ _ _ _ _ Hnone). reflexivity. }
  intros out ctx' Hrun.
  rewrite resolveSelectionContent_app in Hrun.
  rewrite resolveSelectionContent_split.
  unfold bind at 1 in Hrun. unfold bind at 1.
  destruct (resolveSelectionRange (resolveSelectionContent fuel) struct_ T dept
              pre (EmptyString, false) ctx) as [[st1 ctx1]| |] eqn:Hpre;
    try discriminate.
  destruct (AppendsErrors_run _ _ _ _
              (AppendsErrors_resolveSelectionRange _
                 (AppendsErrors_resolveSelectionContent fuel) _ _ _ _ _) Hpre)
    as (e1 & v1 & -> & _).
  unfold bind at 1 in Hrun.
  destruct (resolveSelectionRange (resolveSelectionContent fuel) struct_ T dept
              post st1 _) as [[[res w] ctx2]| |] eqn:Hpost; try discriminate.
  injection Hrun as <- <-.
  destruct (AppendsErrors_run _ _ _ _
              (AppendsErrors_resolveSelectionRange _
                 (AppendsErrors_resolveSelectionContent fuel) _ _ _ _ _) Hpost)
    as (e2 & v2 & -> & Hany).
  exists e1, e2, v2. split.
  { unfold setValues, setErrors. cbn [fragments schema Values directvies errors].
    rewrite <- app_assoc. reflexivity. }
  unfold bind at 1.
  rewrite (resolveOneSelection_unknown _ _ _ _ _ _ _ Hnone).
  unfold bind at 1. rewrite Hany.
  unfold setValues, setErrors. cbn [fragments schema Values directvies errors].
  rewrite <- !app_assoc. reflexivity.
Qed.

(** ** Resolver errors (C2) *)

(** C2. When a resolver method declares an error output and the call
    returns a non-nil error there, the error is appended to the errors of
    the context and the data output is resolved as the value of the field,
    with the declared output type: the error does not null the field. *)
Theorem resolver_error_keeps_data recurse (cs : Obj) (m : ObjMethod)
  (query : Field) (value : GoValue) (dept : Z) (ctx ctx1 ctx2 : Ctx)
  (inputs outs : list GoValue) (nr : Z) (msg : string) (out : GoValue) :
  valueTypeOf cs = valueTypeMethod ->
  method cs = Some m ->
  bindArguments roundToFloat32 (fName query) (inFields m)
    (rangeOrder Value (fArguments query)) (map newInput (ins m)) ctx
  = Ok (Some inputs, ctx1) ->
  Call callFunc value inputs ctx1 = Ok (outs, ctx2) ->
  errorOutNr m = Some nr ->
  index outs nr = Ok (VError (Some msg)) ->
  index outs (outNr m) = Ok out ->
  resolveFieldDataValue recurse cs query value dept ctx
  = resolveFieldDataValue recurse (outType m) query out dept
      (setErrors ctx2 (errors ctx2 ++ [msg])).
Proof.
  intros Hvt Hm Hbind Hcall Hnr Herr Hout.
  destruct cs as [vt tn sfn contents inner meth].
  cbn [valueTypeOf method] in Hvt, Hm. subst vt meth.
  destruct m as [itm ins_ inFields_ outNr_ outType_ errorOutNr_].
  cbn [errorOutNr outNr outType inFields ins] in *. subst errorOutNr_.
  cbn [Resolve.resolveFieldDataValue].
  unfold bind at 1. rewrite Hbind.
  unfold bind at 1. rewrite Hcall.
  unfold bind at 1, checkErrorOut, bind at 1, lift at 1. rewrite Herr.
  cbn [IsNil]. unfold bind at 1, lift at 1, bind at 1, addErr at 1, ret at 1.
  unfold bind at 1, lift at 1. rewrite Hout. reflexivity.
Qed.

(** ** The depth guard (C3) *)

Lemma resolveSelection_cutoff recurse (sels : SelectionSet) (struct_ : GoValue)
  (T : Obj) (dept : Z) (ctx : Ctx) :
  MaxDepth (schema ctx) <= dept ->
  resolveSelection recurse sels struct_ T dept ctx = Ok ("null", ctx).
Proof.
  intros Hdepth. unfold resolveSelection, bind, getSchema.
  replace (MaxDepth (schema ctx) <=? dept) with true
    by (symmetry; apply Z.leb_le; exact Hdepth).
  reflexivity.
Qed.

(** Below the cutoff, the depth is counted up without wrapping around. *)
Lemma resolveSelection_enter recurse (sels : SelectionSet) (struct_ : GoValue)
  (T : Obj) (dept : Z) (ctx : Ctx) :
  0 <= dept < MaxDepth (schema ctx) ->
  MaxDepth (schema ctx) <= 255 ->
  resolveSelection recurse sels struct_ T dept ctx
  = (let* content := recurse sels struct_ T (dept + 1) in
     ret ("{" +:+ content +:+ "}")) ctx.
Proof.
  intros Hdepth Hmax. unfold resolveSelection, bind at 1, getSchema.
  replace (MaxDepth (schema ctx) <=? dept) with false
    by (symmetry; apply Z.leb_gt; lia).
  unfold wrap8. rewrite Z.mod_small by lia. reflexivity.
Qed.

(** A field of an object type with a selection set, up to the call of
    [resolveSelection] on the type [target] registered for it. *)
Lemma resolveOneSelection_object recurse (f : Field) (item target : Obj)
  (fieldValue struct_ : GoValue) (T : Obj) (dept : Z) (st : string * bool)
  (ctx : Ctx) :
  objContents T !! fName f = Some item ->
  (valueTypeOf item = valueTypeObj /\ target = item)
  \/ (valueTypeOf item = valueTypeObjRef
      /\ types (schema ctx) !! typeName item = Some target) ->
  fSelection f <> [] ->
  FieldByName struct_ (structFieldName item) = Ok fieldValue ->
  resolveOneSelection recurse struct_ T dept (SelField f) st ctx
  = (let* val := resolveSelection recurse (fSelection f) fieldValue target dept in
     ret (writeToRes st (fieldEntry f val))) ctx.
Proof.
  intros Hitem Hkind Hsel Hfield.
  unfold Resolve.resolveOneSelection, bind at 1, Resolve.resolveField.
  rewrite Hitem.
  destruct item as [vt tn sfn contents inner meth].
  cbn [valueTypeOf typeName structFieldName method] in *.
  assert (Hlen : (length (fSelection f) =? 0)%nat = false).
  { apply Nat.eqb_neq. destruct (fSelection f); [congruence|simpl; lia]. }
  destruct Hkind as [[-> ->]|[-> Htarget]].
  - simpl bool_decide. cbv iota. unfold bind at 1, ret at 1.
    unfold bind at 1, lift at 1. rewrite Hfield.
    unfold bind at 1. cbn [Resolve.resolveFieldDataValue]. rewrite Hlen.
    unfold bind at 1, getSchema at 1, bind at 1. unfold bind.
    destruct (resolveSelection recurse (fSelection f) fieldValue _ dept ctx)
      as [[val c]| |]; reflexivity.
  - simpl bool_decide. cbv iota. unfold bind at 1, ret at 1.
    unfold bind at 1, lift at 1. rewrite Hfield.
    unfold bind at 1. cbn [Resolve.resolveFieldDataValue]. rewrite Hlen.
    unfold bind at 1, getSchema at 1. rewrite Htarget. unfold bind.
    destruct (resolveSelection recurse (fSelection f) fieldValue target dept ctx)
      as [[val c]| |]; reflexivity.
Qed.

Lemma resolveOneSelection_cutoff recurse (f : Field) (item : Obj)
  (fieldValue struct_ : GoValue) (T : Obj) (dept : Z) (st : string * bool)
  (ctx : Ctx) :
  MaxDepth (schema ctx) <= dept ->
  objContents T !! fName f = Some item ->
  valueTypeOf item = valueTypeObj
  \/ (valueTypeOf item = valueTypeObjRef
      /\ is_Some (types (schema ctx) !! typeName item)) ->
  fSelection f <> [] ->
  FieldByName struct_ (structFieldName item) = Ok fieldValue ->
  resolveOneSelection recurse struct_ T dept (SelField f) st ctx
  = Ok (writeToRes st (fieldEntry f "null"), ctx).
Proof.
  intros Hdepth Hitem Hkind Hsel Hfield.
  assert (Htarget : exists target,
             (valueTypeOf item = valueTypeObj /\ target = item)
             \/ (valueTypeOf item = valueTypeObjRef
                 /\ types (schema ctx) !! typeName item = Some target)).
  { destruct Hkind as [Hobj|[Href [target Htarget]]]; eauto. }
  destruct Htarget as [target Htarget].
  rewrite (resolveOneSelection_object _ f item target fieldValue); try assumption.
  unfold bind at 1.
  rewrite (resolveSelection_cutoff _ _ _ _ _ _ Hdepth). reflexivity.
Qed.

(** C3. A fresh schema has the maximum depth 255.  A selection set entered
    at a depth that has reached the maximum resolves to the literal
    [null] and leaves the context as it is: no error, no failure.  Below
    the maximum it is entered, one level deeper, and rendered between
    braces; with the maximum of a fresh schema that is at every depth but
    255.  In the enclosing selection set the field that is cut off is
    written as [name:null], the field below the maximum is written with the
    content of its selection set, and either way the selections before and
    after it are resolved as usual. *)
Theorem depth_cutoff_yields_null :
  Parse.MaxDepth Parse.NewSchema = 255
  /\ (forall recurse (sels : SelectionSet) (struct_ : GoValue) (T : Obj)
             (dept : Z) (ctx : Ctx),
        MaxDepth (schema ctx) <= dept ->
        resolveSelection recurse sels struct_ T dept ctx = Ok ("null", ctx))
  /\ (forall recurse (sels : SelectionSet) (struct_ : GoValue) (T : Obj)
             (dept : Z) (ctx : Ctx),
        0 <= dept < MaxDepth (schema ctx) ->
        MaxDepth (schema ctx) <= 255 ->
        resolveSelection recurse sels struct_ T dept ctx
        = (let* content := recurse sels struct_ T (dept + 1) in
           ret ("{" +:+ content +:+ "}")) ctx)
  /\ (forall recurse (sels : SelectionSet) (struct_ : GoValue) (T : Obj)
             (dept : Z) (ctx : Ctx),
        MaxDepth (schema ctx) = Parse.MaxDepth Parse.NewSchema ->
        0 <= dept <= 255 ->
        resolveSelection recurse sels struct_ T dept ctx
        = if dept =? 255 then Ok ("null", ctx)
          else (let* content := recurse sels struct_ T (dept + 1) in
                ret ("{" +:+ content +:+ "}")) ctx)
  /\ (forall (fuel : nat) (pre post : SelectionSet) (f : Field) (item : Obj)
             (fieldValue struct_ : GoValue) (T : Obj) (dept : Z) (ctx : Ctx),
        MaxDepth (schema ctx) <= dept ->
        objContents T !! fName f = Some item ->
        valueTypeOf item = valueTypeObj
        \/ (valueTypeOf item = valueTypeObjRef
            /\ is_Some (types (schema ctx) !! typeName item)) ->
        fSelection f <> [] ->
        FieldByName struct_ (structFieldName item) = Ok fieldValue ->
        resolveSelectionContent (S fuel) (pre ++ SelField f :: post)
          struct_ T dept ctx
        = (let* st :=
             resolveSelectionRange (resolveSelectionContent fuel) struct_ T
               dept pre (EmptyString, false) in
           let* (res, _) :=
             resolveSelectionRange (resolveSelectionContent fuel) struct_ T
               dept post (writeToRes st (fieldEntry f "null")) in
           ret res) ctx)
  /\ (forall (fuel : nat) (pre post : SelectionSet) (f : Field)
             (item target : Obj) (fieldValue struct_ : GoValue) (T : Obj)
             (dept : Z) (ctx : Ctx),
        0 <= dept < MaxDepth (schema ctx) ->
        MaxDepth (schema ctx) <= 255 ->
        objContents T !! fName f = Some item ->
        (valueTypeOf item = valueTypeObj /\ target = item)
        \/ (valueTypeOf item = valueTypeObjRef
            /\ types (schema ctx) !! typeName item = Some target) ->
        fSelection f <> [] ->
        FieldByName struct_ (structFieldName item) = Ok fieldValue ->
        resolveSelectionContent (S fuel) (pre ++ SelField f :: post)
          struct_ T dept ctx
        = (let* st :=
             resolveSelectionRange (resolveSelectionContent fuel) struct_ T
               dept pre (EmptyString, false) in
           let* content :=
             resolveSelectionContent fuel (fSelection f) fieldValue target
               (dept + 1) in
           let* (res, _) :=
             resolveSelectionRange (resolveSelectionContent fuel) struct_ T
               dept post
               (writeToRes st (fieldEntry f ("{" +:+ content +:+ "}"))) in
           ret res) ctx).
Proof.
  split; [reflexivity|]. split; [apply resolveSelection_cutoff|].
  split; [apply resolveSelection_enter|].
  split.
  { intros recurse sels struct_ T dept ctx Hdefault Hdept.
    change (Parse.MaxDepth Parse.NewSchema) with 255 in Hdefault.
    destruct (dept =? 255) eqn:Hlast.
    - apply Z.eqb_eq in Hlast. apply resolveSelection_cutoff. lia.
    - apply Z.eqb_neq in Hlast. apply resolveSelection_enter; lia. }
  split.
  - intros fuel pre post f item fieldValue struct_ T dept ctx
           Hdepth Hitem Hkind Hsel Hfield.
    rewrite resolveSelectionContent_split.
    apply bind_ext_on. intros st1 ctx1 Hpre.
    destruct (AppendsErrors_run _ _ _ _
                (AppendsErrors_resolveSelectionRange _
                   (AppendsErrors_resolveSelectionContent fuel) _ _ _ _ _) Hpre)
      as (e1 & v1 & -> & _).
    unfold bind at 1.
    rewrite (resolveOneSelection_cutoff _ f item fieldValue); try assumption.
    reflexivity.
  - intros fuel pre post f item target fieldValue struct_ T dept ctx
           Hdepth Hmax Hitem Hkind Hsel Hfield.
    rewrite resolveSelectionContent_split.
    apply bind_ext_on. intros st1 ctx1 Hpre.
    destruct (AppendsErrors_run _ _ _ _
                (AppendsErrors_resolveSelectionRange _
                   (AppendsErrors_resolveSelectionContent fuel) _ _ _ _ _) Hpre)
      as (e1 & v1 & -> & _).
    unfold bind at 1.
    rewrite (resolveOneSelection_object _ f item target fieldValue);
      try assumption.
    unfold bind at 1. rewrite resolveSelection_enter by assumption.
    unfold bind at 1, bind at 2.
    destruct (resolveSelectionContent fuel (fSelection f) fieldValue target
                (dept + 1) _) as [[content c]| |]; reflexivity.
Qed.

(** ** Lists (C5) *)

(** The nil slice is rendered [null]. *)
Lemma resolve_nil_slice recurse (cs : Obj) (query : Field) (dept : Z)
  (ctx : Ctx) :
  valueTypeOf cs = valueTypeArray ->
  resolveFieldDataValue recurse cs query (VSlice None) dept ctx
  = Ok (("null", false), ctx).
Proof.
  intros Hvt. destruct cs as [vt tn sfn contents inner meth].
  cbn [valueTypeOf] in Hvt. subst vt. reflexivity.
Qed.

(** A slice is rendered as the array of its elements, each resolved with
    the element type, in order. *)
Lemma resolve_slice recurse (cs inner : Obj) (query : Field)
  (elems : list GoValue) (dept : Z) (ctx : Ctx) :
  valueTypeOf cs = valueTypeArray ->
  innerContent cs = Some inner ->
  resolveFieldDataValue recurse cs query (VSlice (Some elems)) dept ctx
  = (let* list_ :=
       resolveElems (fun v => resolveFieldDataValue recurse inner query v dept)
         elems [] in
     ret ("[" +:+ join "," list_ +:+ "]", false)) ctx.
Proof.
  intros Hvt Hinner. destruct cs as [vt tn sfn contents inner' meth].
  cbn [valueTypeOf innerContent] in Hvt, Hinner. subst vt inner'. reflexivity.
Qed.

(** The loop over the elements gives one entry per element, whatever the
    error flag the element came back with. *)
Lemma resolveElems_length (f : GoValue -> M (string * bool))
  (elems : list GoValue) :
  forall (acc list_ : list string) (ctx ctx' : Ctx),
    resolveElems f elems acc ctx = Ok (list_, ctx') ->
    length list_ = (length acc + length elems)%nat.
Proof.
  induction elems as [|v elems IH]; intros acc list_ ctx ctx' Hrun.
  - injection Hrun as <- _. simpl. lia.
  - cbn [resolveElems] in Hrun. unfold bind at 1 in Hrun.
    destruct (f v ctx) as [[[res flag] ctx1]| |]; try discriminate.
    apply IH in Hrun. rewrite length_app in Hrun. simpl in *. lia.
Qed.

Lemma resolveElems_step (f : GoValue -> M (string * bool)) (v : GoValue)
  (elems : list GoValue) (acc : list string) (ctx ctx1 : Ctx) (res : string)
  (flag : bool) :
  f v ctx = Ok ((res, flag), ctx1) ->
  resolveElems f (v :: elems) acc ctx = resolveElems f elems (acc ++ [res]) ctx1.
Proof.
  intros Hrun. cbn [resolveElems]. unfold bind at 1. rewrite Hrun. reflexivity.
Qed.

(** A value of an array type makes the resolver panic: [IsNil] is called
    on it. *)
Lemma resolve_array_panics recurse (cs : Obj) (query : Field)
  (elems : list GoValue) (dept : Z) (ctx : Ctx) :
  valueTypeOf cs = valueTypeArray ->
  resolveFieldDataValue recurse cs query (VArray elems) dept ctx
  = Panic "reflect: call of reflect.Value.IsNil on a value that cannot be nil".
Proof.
  intros Hvt. destruct cs as [vt tn sfn contents inner meth].
  cbn [valueTypeOf] in Hvt. subst vt. reflexivity.
Qed.

(** ** Several operations (C4) *)

Section Operators.

Variable ParseQueryAndCheckNames :
  string -> gmap string Operator * gmap string Operator * list string.

#[local] Abbreviation Resolve :=
  (Resolve.Resolve callFunc rangeOrder quote floatToJson roundToFloat32
     ParseQueryAndCheckNames).

(** C4 (amended). For a document with more than one operation, [Resolve]
    with an empty target runs no operation and returns the one error
    [multiple operators without target], which names no operator.  The
    names of the operators are listed in the error returned for a target
    that is not empty and names no operation of the document: each name
    once, in the order in which the [range] over the map of the operators
    visits them, which is any order. *)
Theorem multiple_operators_need_target (fuel : nat) (s : Schema)
  (query : string) (fragments operatorsMap : gmap string Operator) :
  ParseQueryAndCheckNames query = (fragments, operatorsMap, []) ->
  (1 < size operatorsMap)%nat ->
  Resolve fuel s query EmptyString
  = Ok ("{}", ["multiple operators without target"])
  /\ (forall target : string,
        target <> EmptyString ->
        operatorsMap !! target = None ->
        Resolve fuel s query target
        = Ok ("{}",
              [target +:+ " is not a valid operator, available operators: "
               +:+ join ", " (map fst (rangeOrder Operator operatorsMap))]))
  /\ (rangeOrder Operator operatorsMap ≡ₚ map_to_list operatorsMap ->
      map fst (rangeOrder Operator operatorsMap)
      ≡ₚ map fst (map_to_list operatorsMap)
      /\ NoDup (map fst (rangeOrder Operator operatorsMap))
      /\ (forall name : string,
            name ∈ map fst (rangeOrder Operator operatorsMap)
            <-> is_Some (operatorsMap !! name))).
Proof.
  intros Hparse Hsize.
  split; [|split].
  - unfold Resolve.Resolve. rewrite Hparse. cbn [length Nat.ltb Nat.leb].
    destruct (size operatorsMap) as [|[|n]] eqn:Hn; try lia. reflexivity.
  - intros target Hne Hnone.
    unfold Resolve.Resolve. rewrite Hparse. cbn [length Nat.ltb Nat.leb].
    destruct (size operatorsMap) as [|[|n]] eqn:Hn; try lia.
    apply String.eqb_neq in Hne. rewrite Hne, Hnone. reflexivity.
  - intros Horder.
    assert (Hnames : map fst (rangeOrder Operator operatorsMap)
                     ≡ₚ map fst (map_to_list operatorsMap)).
    { apply (fmap_Permutation fst). exact Horder. }
    split; [exact Hnames|]. split.
    + rewrite Hnames. apply NoDup_fst_map_to_list.
    + intros name. rewrite Hnames. split.
      * intros Hin. apply list_elem_of_fmap in Hin.
        destruct Hin as ([k op] & -> & Hin).
        apply elem_of_map_to_list in Hin. cbn [fst]. eauto.
      * intros [op Hop]. apply list_elem_of_fmap. exists (name, op).
        split; [reflexivity|]. apply elem_of_map_to_list. exact Hop.
Qed.

End Operators.

End Host.

#[local] Abbreviation sampleCtx :=
  (MkCtx ∅ Examples.sampleSchema ∅ [] []).

(** The method [ResolveM] returns the data [data] and the error [boom]. *)
Lemma resolver_error_keeps_data_witness :
  Resolve.resolveFieldDataValue Examples.callFunc Examples.rangeOrder
    Examples.quote Examples.floatToJson Examples.roundToFloat32
    (fun _ _ _ _ => diverge) Examples.methodObj
    (MkField "m" EmptyString [] ∅) (VFunc (Some 7%nat)) 1 sampleCtx
  = Ok ((Examples.quote "data", false),
        MkCtx ∅ Examples.sampleSchema ∅ [] ["boom"]).
Proof.
  rewrite (resolver_error_keeps_data Examples.callFunc Examples.rangeOrder
             Examples.quote Examples.floatToJson Examples.roundToFloat32
             (fun _ _ _ _ => diverge) Examples.methodObj Examples.resolveM
             (MkField "m" EmptyString [] ∅) (VFunc (Some 7%nat)) 1
             sampleCtx sampleCtx sampleCtx
             [] [Examples.str "data"; VError (Some "boom")] 1 "boom"
             (Examples.str "data")).
  all: vm_compute; reflexivity.
Defined.

(** With the maximum depth 1, the query [{a{bar} b}] is entered at depth 0
    and the selection set of [a] is cut off; with the maximum depth 2 the
    selection set of [a] is entered too. *)
Lemma depth_cutoff_yields_null_witness :
  Parse.MaxDepth Parse.NewSchema = 255
  /\ Resolve.resolveSelection (fun _ _ _ _ => diverge)
       [Examples.field "bar" []] Examples.rootValue Examples.innerObj 1
       (MkCtx ∅ (Examples.schemaWithDepth 1) ∅ [] [])
     = Ok ("null", MkCtx ∅ (Examples.schemaWithDepth 1) ∅ [] [])
  /\ Resolve.resolveSelection
       (Resolve.resolveSelectionContent Examples.callFunc Examples.rangeOrder
          Examples.quote Examples.floatToJson Examples.roundToFloat32 3)
       [Examples.field "a" [Examples.field "bar" []]; Examples.field "b" []]
       Examples.rootValue Examples.rootObj 0
       (MkCtx ∅ (Examples.schemaWithDepth 1) ∅ [] [])
     = Ok ("{" +:+ Examples.key "a" +:+ "null," +:+ Examples.key "b"
           +:+ Examples.quote "x" +:+ "}",
           MkCtx ∅ (Examples.schemaWithDepth 1) ∅ [] [])
  /\ Resolve.resolveSelection (fun _ _ _ _ => ret "x")
       [] Examples.rootValue Examples.rootObj 254 sampleCtx
     = Ok ("{x}", sampleCtx)
  /\ Resolve.resolveSelectionContent Examples.callFunc Examples.rangeOrder
       Examples.quote Examples.floatToJson Examples.roundToFloat32 3
       ([] ++ SelField (MkField "a" EmptyString [Examples.field "bar" []] ∅)
           :: [Examples.field "b" []])
       Examples.rootValue Examples.rootObj 1
       (MkCtx ∅ (Examples.schemaWithDepth 1) ∅ [] [])
     = Ok (Examples.key "a" +:+ "null," +:+ Examples.key "b"
           +:+ Examples.quote "x",
           MkCtx ∅ (Examples.schemaWithDepth 1) ∅ [] [])
  /\ Resolve.resolveSelectionContent Examples.callFunc Examples.rangeOrder
       Examples.quote Examples.floatToJson Examples.roundToFloat32 3
       ([] ++ SelField (MkField "a" EmptyString [Examples.field "bar" []] ∅)
           :: [Examples.field "b" []])
       Examples.rootValue Examples.rootObj 1
       (MkCtx ∅ (Examples.schemaWithDepth 2) ∅ [] [])
     = Ok (Examples.key "a" +:+ "{" +:+ Examples.key "bar"
           +:+ Examples.quote "baz" +:+ "}," +:+ Examples.key "b"
           +:+ Examples.quote "x",
           MkCtx ∅ (Examples.schemaWithDepth 2) ∅ [] []).
Proof.
  destruct (depth_cutoff_yields_null Examples.callFunc Examples.rangeOrder
              Examples.quote Examples.floatToJson Examples.roundToFloat32)
    as (Hdefault & Hnull & Henter & Hfresh & Hfield & Hbelow).
  split; [exact Hdefault|]. split; [|split; [|split; [|split]]].
  - apply Hnull. vm_compute. discriminate.
  - rewrite Henter.
    + vm_compute. reflexivity.
    + vm_compute. split; [discriminate|reflexivity].
    + vm_compute. discriminate.
  - rewrite Hfresh.
    + reflexivity.
    + reflexivity.
    + lia.
  - rewrite (Hfield 2%nat [] [Examples.field "b" []]
               (MkField "a" EmptyString [Examples.field "bar" []] ∅)
               Examples.innerObj
               (VStruct [("Bar", Examples.str "baz")] [])).
    + vm_compute. reflexivity.
    + vm_compute. discriminate.
    + vm_compute. reflexivity.
    + left. vm_compute. reflexivity.
    + discriminate.
    + vm_compute. reflexivity.
  - rewrite (Hbelow 2%nat [] [Examples.field "b" []]
               (MkField "a" EmptyString [Examples.field "bar" []] ∅)
               Examples.innerObj Examples.innerObj
               (VStruct [("Bar", Examples.str "baz")] [])).
    + vm_compute. reflexivity.
    + vm_compute. split; [discriminate|reflexivity].
    + vm_compute. discriminate.
    + vm_compute. reflexivity.
    + left. split; vm_compute; reflexivity.
    + discriminate.
    + vm_compute. reflexivity.
Defined.

(** Under the default maximum depth, a query of 256 nested selection sets
    over a chain of nodes is answered down to the 255th and has [null]
    below, without error; a query of 255 nested selection sets is answered
    in full. *)
Lemma deep_query_cut_at_default_depth :
  Examples.resolveNodes 255 = Ok (Examples.nested 255 "null", [])
  /\ Examples.resolveNodes 254
     = Ok (Examples.nested 254
             ("{" +:+ Examples.key "v" +:+ Examples.quote "v" +:+ "}"), []).
Proof. split; vm_compute; reflexivity. Qed.

(** The document [query Foo{b} query Bar{a{bar}}], with the operators
    visited in one order and in the opposite order. *)
Lemma multiple_operators_need_target_witness :
  (Examples.Resolve Examples.sampleSchema "query Foo{b} query Bar{a{bar}}"
     EmptyString
   = Ok ("{}", ["multiple operators without target"])
   /\ Examples.Resolve Examples.sampleSchema "query Foo{b} query Bar{a{bar}}"
        "Baz"
      = Ok ("{}", ["Baz is not a valid operator, available operators: Foo, Bar"]))
  /\ Resolve.Resolve Examples.callFunc Examples.rangeBackwards Examples.quote
       Examples.floatToJson Examples.roundToFloat32 Examples.parsed 8
       Examples.sampleSchema "query Foo{b} query Bar{a{bar}}" "Baz"
     = Ok ("{}", ["Baz is not a valid operator, available operators: Bar, Foo"])
  /\ NoDup (map fst (Examples.rangeBackwards Resolve.Operator
                       Examples.twoOperators))
  /\ (forall name : string,
        name ∈ map fst (Examples.rangeBackwards Resolve.Operator
                          Examples.twoOperators)
        <-> is_Some (Examples.twoOperators !! name)).
Proof.
  split.
  - destruct (multiple_operators_need_target Examples.callFunc
                Examples.rangeOrder Examples.quote
                Examples.floatToJson Examples.roundToFloat32 Examples.parsed
                8 Examples.sampleSchema "query Foo{b} query Bar{a{bar}}"
                Examples.noFragments Examples.twoOperators
                ltac:(vm_compute; reflexivity))
      as (Hempty & Htarget & _).
    { vm_compute. lia. }
    split; [exact Hempty|].
    unfold Examples.Resolve. rewrite (Htarget "Baz");
      [vm_compute; reflexivity|discriminate|vm_compute; reflexivity].
  - destruct (multiple_operators_need_target Examples.callFunc
                Examples.rangeBackwards Examples.quote
                Examples.floatToJson Examples.roundToFloat32 Examples.parsed
                8 Examples.sampleSchema "query Foo{b} query Bar{a{bar}}"
                Examples.noFragments Examples.twoOperators
                ltac:(vm_compute; reflexivity))
      as (_ & Htarget & Hnames).
    { vm_compute. lia. }
    split.
    + rewrite (Htarget "Baz");
        [vm_compute; reflexivity|discriminate|vm_compute; reflexivity].
    + destruct Hnames as (_ & Hnodup & Hall); [|split; assumption].
      unfold Examples.rangeBackwards. apply reverse_Permutation.
Defined.

(** C4, as stated, fails: with the two operations [Foo] and [Bar] and an
    empty target, the error returned names neither. *)
Lemma multiple_operators_error_lists_no_names :
  Examples.Resolve Examples.sampleSchema "query Foo{b} query Bar{a{bar}}"
    EmptyString
  = Ok ("{}", ["multiple operators without target"]).
Proof. vm_compute. reflexivity. Qed.

(** C5 at a field of array type, [Arr [2]string]: the query [{arr}] makes
    [Resolve] panic, where a field of slice type with the same elements,
    [{list}], is rendered as the array of its two elements. *)
Theorem array_field_panics :
  Examples.Resolve Examples.sampleSchema "{arr}" EmptyString
  = Panic "reflect: call of reflect.Value.IsNil on a value that cannot be nil"
  /\ Examples.Resolve Examples.sampleSchema "{list}" EmptyString
     = Ok ("{" +:+ Examples.key "list" +:+ "[" +:+ Examples.quote "p" +:+ ","
           +:+ Examples.quote "q" +:+ "]}", []).
Proof. split; vm_compute; reflexivity. Qed.

(** The selection of the unknown field [zz] before the field [b]. *)
Lemma unknown_field_is_skipped_witness :
  exists (e1 e2 : list string) (values : gmap string GoValue),
    (forall st : string * bool,
        Resolve.resolveOneSelection Examples.callFunc Examples.rangeOrder
          Examples.quote Examples.floatToJson Examples.roundToFloat32
          (Resolve.resolveSelectionContent Examples.callFunc
             Examples.rangeOrder Examples.quote
             Examples.floatToJson Examples.roundToFloat32 3)
          Examples.rootValue Examples.rootObj 1
          (SelField (MkField "zz" EmptyString [] ∅)) st sampleCtx
        = Ok (st, MkCtx ∅ Examples.sampleSchema ∅ []
                    ["field zz does not exists on Q"]))
    /\ Resolve.resolveSelectionContent Examples.callFunc Examples.rangeOrder
         Examples.quote Examples.floatToJson Examples.roundToFloat32 4
         ([] ++ SelField (MkField "zz" EmptyString [] ∅) :: [Examples.field "b" []])
         Examples.rootValue Examples.rootObj 1 sampleCtx
       = Ok (Examples.key "b" +:+ Examples.quote "x",
             MkCtx ∅ Examples.sampleSchema values []
               ([] ++ e1 ++ ["field zz does not exists on Q"] ++ e2)).
Proof.
  destruct (unknown_field_is_skipped Examples.callFunc Examples.rangeOrder
              Examples.quote Examples.floatToJson Examples.roundToFloat32 3
              [] [Examples.field "b" []] (MkField "zz" EmptyString [] ∅)
              Examples.rootValue Examples.rootObj 1 sampleCtx eq_refl)
    as (Hone & Hall & _).
  destruct (Hall (Examples.key "b" +:+ Examples.quote "x") sampleCtx eq_refl)
    as (e1 & e2 & values & _ & Hrun).
  exists e1, e2, values. split; [exact Hone|exact Hrun].
Defined.

(** The query [{zz b}]: one error is recorded for [zz], and the output
    has no entry for [zz] at all, not even [null]. *)
Lemma unknown_field_not_emitted :
  Examples.Resolve Examples.sampleSchema "{zz b}" EmptyString
  = Ok ("{" +:+ Examples.key "b" +:+ Examples.quote "x" +:+ "}",
        ["field zz does not exists on Q"])
  /\ Examples.Resolve Examples.sampleSchema "{zz b}" EmptyString
     <> Ok ("{" +:+ Examples.key "zz" +:+ "null," +:+ Examples.key "b"
            +:+ Examples.quote "x" +:+ "}",
            ["field zz does not exists on Q"]).
Proof. split; [vm_compute; reflexivity|vm_compute; discriminate]. Qed.

End ResolveFacts.

Module BytecodeFacts.
Import Reflect Bytecode.

Section Ctx.

Context {Schema ParserCtx : Type}.

#[local] Abbreviation BytecodeCtx := (Bytecode.BytecodeCtx Schema ParserCtx).

(** C9. [BytecodeResolve] runs on the context its first statement leaves:
    the result buffer has length zero and holds no byte, it still points to
    the same backing array, with the same capacity; the cursor of the
    stack of reflect values is zero, its initial position; the schema, the
    parser state and the stack itself are those of the context before. *)
Theorem reset_keeps_allocation (ctx : BytecodeCtx) :
  sliceLen (result (resetCtx ctx)) = 0%nat
  /\ contents (result (resetCtx ctx)) = []
  /\ backing (result (resetCtx ctx)) = backing (result ctx)
  /\ cap (result (resetCtx ctx)) = cap (result ctx)
  /\ currentReflectValueIdx (resetCtx ctx) = 0
  /\ schema (resetCtx ctx) = schema ctx
  /\ query (resetCtx ctx) = query ctx
  /\ reflectValues (resetCtx ctx) = reflectValues ctx
  /\ forall (Out : Type)
            (run : BytecodeCtx -> list ascii -> bool -> BytecodeCtx * Out)
            (queryText : list ascii) (noMeta : bool),
      BytecodeResolve run ctx queryText noMeta
      = run (resetCtx ctx) queryText noMeta.
Proof. repeat split. Qed.

(** After the reset, bytes that fit the capacity are written into the
    retained array: the capacity does not change. *)
Lemma write_after_reset_reuses (grow : nat -> nat) (ctx : BytecodeCtx)
  (b : list ascii) :
  (length b <= cap (result ctx))%nat ->
  cap (result (write grow (resetCtx ctx) b)) = cap (result ctx)
  /\ contents (result (write grow (resetCtx ctx) b)) = b.
Proof.
  intros Hfit. unfold write, resetCtx, append, resliceToZero, cap, contents.
  cbn [result backing sliceLen Nat.add].
  replace (length b <=? length (backing (result ctx)))%nat with true
    by (symmetry; apply Nat.leb_le; exact Hfit).
  cbn [backing sliceLen]. rewrite take_0. cbn [app]. split.
  - rewrite length_app, length_drop. unfold cap in Hfit. lia.
  - rewrite take_app_length. reflexivity.
Qed.

End Ctx.

End BytecodeFacts.

Module ParseFacts.
Import Reflect ValueTypes Parse.

Section Build.

Variable renamedTypes : gmap string string.
Variable structImplementsMap : gmap string (list GoType).
Variable implementationMap : gmap string (list GoType).
Variable getEnum : GoType -> option Z.
Variable Implements : GoType -> GoType -> bool.
Variable injectQLTypes : parseCtx -> Res parseCtx.

#[local] Abbreviation classifyOuts := (Parse.classifyOuts Implements).
#[local] Abbreviation dataOuts := (Parse.dataOuts Implements).
#[local] Abbreviation errorOuts := (Parse.errorOuts Implements).
#[local] Abbreviation checkFunction :=
  (Parse.checkFunction renamedTypes structImplementsMap implementationMap
     getEnum Implements).

Lemma isDataOut_eq (o : GoType) :
  Parse.isDataOut Implements o
  = negb (isAttrIsID o)
    && negb (kind_eqb (tKind o) Interface && Implements o errorType).
Proof. reflexivity. Qed.

Lemma isErrorOut_eq (o : GoType) :
  Parse.isErrorOut Implements o
  = negb (isAttrIsID o)
    && (kind_eqb (tKind o) Interface && Implements o errorType).
Proof. unfold Parse.isErrorOut. rewrite andb_assoc. reflexivity. Qed.

(** The loop over the outputs returns with an error exactly when it meets
    a second data value or a second error value; otherwise it has found
    the data value when there is one. *)
Lemma classifyOuts_spec (name : string) (outs : list GoType) :
  forall (i : Z) (isID : bool) (outNr hasErrorOut : option Z),
    match classifyOuts name outs i isID outNr hasErrorOut with
    | inl _ =>
        (1 < length (dataOuts outs) + seen outNr)%nat
        \/ (1 < length (errorOuts outs) + seen hasErrorOut)%nat
    | inr (_, outNr', hasErrorOut') =>
        (length (dataOuts outs) + seen outNr <= 1)%nat
        /\ (length (errorOuts outs) + seen hasErrorOut <= 1)%nat
        /\ seen outNr' = (length (dataOuts outs) + seen outNr)%nat
    end.
Proof.
  induction outs as [|o outs IH]; intros i isID outNr hasErrorOut.
  - cbn. destruct outNr, hasErrorOut; cbn; lia.
  - unfold Parse.dataOuts, Parse.errorOuts in *.
    cbn [Parse.classifyOuts List.filter].
    rewrite isDataOut_eq, isErrorOut_eq.
    destruct (isAttrIsID o); cbn [negb andb].
    { apply IH. }
    destruct (kind_eqb (tKind o) Interface && Implements o errorType);
      cbn [negb andb length].
    + destruct hasErrorOut as [e|].
      * right. cbn [seen]. lia.
      * specialize (IH (i + 1) isID outNr (Some i)).
        destruct (classifyOuts name outs (i + 1) isID outNr (Some i))
          as [[b e]|[[b o1] o2]]; cbn [seen] in *; lia.
    + destruct outNr as [e|].
      * left. cbn [seen]. lia.
      * specialize (IH (i + 1) isID (Some i) hasErrorOut).
        destruct (classifyOuts name outs (i + 1) isID (Some i) hasErrorOut)
          as [[b e]|[[b o1] o2]]; cbn [seen] in *; lia.
Qed.

(** What [checkFunction] validates: for a name that passes the resolver
    test and a function that is not variadic, anything but exactly one data
    value, or more than one error value, makes it return an error, with no
    method and with the parse context unchanged. *)
Lemma checkFunction_validates (fuel : nat) (name trimmedName : string)
  (t : GoType) (isTypeMethod hasIDTag : bool) (c : parseCtx) :
  resolverName name isTypeMethod = Ok (Some trimmedName) ->
  tVariadic t = false ->
  length (dataOuts (tOut t)) <> 1%nat
  \/ (1 < length (errorOuts (tOut t)))%nat ->
  exists (isID : bool) (msg : string),
    checkFunction (S fuel) name t isTypeMethod hasIDTag c
    = Ok ((None, EmptyString, isID, Some msg), c).
Proof.
  intros Hname Hvar Hbad.
  cbn [Parse.checkFunction]. unfold bind at 1, lift at 1. rewrite Hname, Hvar.
  destruct (tOut t) as [|o outs] eqn:Houts.
  { cbn. eauto. }
  cbn [length Nat.eqb].
  pose proof (classifyOuts_spec name (o :: outs) 0 hasIDTag None None) as Hspec.
  destruct (classifyOuts name (o :: outs) 0 hasIDTag None None)
    as [[b e]|[[b [nr|]] o2]].
  - eauto.
  - exfalso. cbn [seen] in Hspec. destruct Hspec as (H1 & H2 & H3).
    destruct Hbad as [Hbad|Hbad]; lia.
  - eauto.
Qed.

End Build.

(** The function [func() (string, int)] of the samples is refused by
    [checkFunction]. *)
Lemma checkFunction_sample (c : parseCtx) :
  exists (isID : bool) (msg : string),
    Parse.checkFunction ∅ ∅ ∅ (fun _ => None) Examples.Implements 5
      "ResolveFoo" Examples.twoDataFunc false false c
    = Ok ((None, EmptyString, isID, Some msg), c).
Proof.
  apply (checkFunction_validates ∅ ∅ ∅ (fun _ => None) Examples.Implements
           4 "ResolveFoo" "Foo");
    [vm_compute; reflexivity|vm_compute; reflexivity|].
  left. vm_compute. lia.
Qed.

(** C6 on a resolver that is a function field and on a method of a nested
    type, each returning two data values, [(string, int)]: [checkFunction]
    refuses the resolver, yet [Parse] returns no error and marks the
    schema as parsed; the field is left out of the type.  The same method
    on the root type makes [Parse] return the error. *)
Theorem build_survives_invalid_resolver :
  (exists s : Parse.Schema,
      Examples.Parse Examples.funcFieldRoot = Ok (None, s)
      /\ Parse.parsed s = true)
  /\ (exists s : Parse.Schema,
        Examples.Parse Examples.nestedRoot = Ok (None, s)
        /\ Parse.parsed s = true)
  /\ (exists s : Parse.Schema,
        Examples.Parse Examples.methodRoot
        = Ok (Some "ResolveFoo cannot return multiple types of data", s)
        /\ Parse.parsed s = false).
Proof.
  split; [|split]; eexists; split; vm_compute; reflexivity.
Qed.

End ParseFacts.

Module ResolveMore.
Import Reflect ValueTypes Resolve ResolveFacts.

(** ** Strings *)

Lemma app_cons (a : ascii) (s t : string) :
  String.String a s +:+ t = String.String a (s +:+ t).
Proof. reflexivity. Qed.

Lemma app_nil_right (s : string) : s +:+ EmptyString = s.
Proof.
  induction s as [|a s IH]; [reflexivity|]. rewrite app_cons, IH. reflexivity.
Qed.

Lemma append_assoc (a b c : string) : (a +:+ b) +:+ c = a +:+ (b +:+ c).
Proof.
  induction a as [|x a IH]; [reflexivity|]. rewrite !app_cons, IH. reflexivity.
Qed.

(** [strings.Join] on a list extended at its end. *)
Lemma join_snoc (sep : string) (l : list string) (x : string) :
  join sep (l ++ [x])
  = match l with
    | [] => x
    | _ => join sep l +:+ sep +:+ x
    end.
Proof.
  induction l as [|a l IH]; [reflexivity|].
  destruct l as [|b l].
  - reflexivity.
  - change (join sep ((a :: b :: l) ++ [x]))
      with (a +:+ sep +:+ join sep ((b :: l) ++ [x])).
    rewrite IH.
    change (join sep (a :: b :: l)) with (a +:+ sep +:+ join sep (b :: l)).
    rewrite !append_assoc. reflexivity.
Qed.

Lemma writeToRes_written (l : list string) (value : string) :
  writeToRes (written l) value = written (l ++ [value]).
Proof.
  unfold written, writeToRes. rewrite join_snoc.
  destruct l as [|a l]; [reflexivity|].
  rewrite (bool_decide_eq_false_2 (a :: l = [])) by discriminate.
  rewrite (bool_decide_eq_false_2 ((a :: l) ++ [value] = [])) by discriminate.
  cbn [negb]. rewrite append_assoc. reflexivity.
Qed.

(** ** Integer widths *)

Lemma kindBits_cases (k : Kind) :
  kindBits k = 8 \/ kindBits k = 16 \/ kindBits k = 32 \/ kindBits k = 64.
Proof. destruct k; cbn; auto. Qed.

Lemma truncSigned_range (k : Kind) (x : Z) :
  - 2 ^ (kindBits k - 1) <= truncSigned k x < 2 ^ (kindBits k - 1)
  /\ (truncSigned k x - x) mod 2 ^ kindBits k = 0.
Proof.
  unfold truncSigned.
  assert (Hm : 2 ^ kindBits k = 2 * 2 ^ (kindBits k - 1)).
  { destruct (kindBits_cases k) as [->|[->|[->| ->]]]; reflexivity. }
  assert (Hpos : 0 < 2 ^ (kindBits k - 1)).
  { destruct (kindBits_cases k) as [->|[->|[->| ->]]]; reflexivity. }
  set (h := 2 ^ (kindBits k - 1)) in *. rewrite Hm.
  replace (2 * h / 2) with h by (symmetry; rewrite Z.mul_comm; apply Z.div_mul; lia).
  pose proof (Z.mod_pos_bound x (2 * h) ltac:(lia)) as Hb.
  pose proof (Z.div_mod x (2 * h) ltac:(lia)) as Hd.
  destruct (x mod (2 * h) <? h) eqn:Hlt.
  - apply Z.ltb_lt in Hlt. split; [lia|].
    replace (x mod (2 * h) - x) with (- (x / (2 * h)) * (2 * h)) by lia.
    apply Z.mod_mul. lia.
  - apply Z.ltb_ge in Hlt. split; [lia|].
    replace (x mod (2 * h) - 2 * h - x) with ((- (x / (2 * h)) - 1) * (2 * h)) by lia.
    apply Z.mod_mul. lia.
Qed.

Lemma truncUnsigned_wrap64 (k : Kind) (x : Z) :
  truncUnsigned k (wrap64 x) = x mod 2 ^ kindBits k.
Proof.
  unfold truncUnsigned, wrap64. apply Z.mod_mod_divide.
  destruct (kindBits_cases k) as [->|[->|[->| ->]]].
  - exists (2 ^ 56). reflexivity.
  - exists (2 ^ 48). reflexivity.
  - exists (2 ^ 32). reflexivity.
  - exists 1. reflexivity.
Qed.

Section Host.

Variable callFunc :
  nat -> list GoValue -> gmap string GoValue ->
  Res (list GoValue * gmap string GoValue).
Variable rangeOrder : forall V : Type, gmap string V -> list (string * V).
Variable quote : string -> string.
Variable floatToJson : Z -> Z -> string.
Variable roundToFloat32 : Z -> Z.

#[local] Abbreviation resolveFieldDataValue :=
  (Resolve.resolveFieldDataValue callFunc rangeOrder quote floatToJson
     roundToFloat32).
#[local] Abbreviation resolveField :=
  (Resolve.resolveField callFunc rangeOrder quote floatToJson roundToFloat32).
#[local] Abbreviation resolveOneSelection :=
  (Resolve.resolveOneSelection callFunc rangeOrder quote floatToJson
     roundToFloat32).
#[local] Abbreviation resolveSelectionRange :=
  (Resolve.resolveSelectionRange callFunc rangeOrder quote floatToJson
     roundToFloat32).
#[local] Abbreviation resolveSelectionContent :=
  (Resolve.resolveSelectionContent callFunc rangeOrder quote floatToJson
     roundToFloat32).
#[local] Abbreviation start :=
  (Resolve.start callFunc rangeOrder quote floatToJson roundToFloat32).

(** ** The errors of a resolution *)

(** X1. Resolving a selection set leaves the fragments, the schema and the
    directives of the context as they are; it changes its list of errors,
    to which it only appends (the errors that were there stay, in place),
    and the map [Values], which the resolvers may write.  The output, the
    appended errors and the map left do not depend on the errors already
    recorded. *)
Theorem resolution_only_appends_errors (fuel : nat) (sels : SelectionSet)
  (struct_ : GoValue) (T : Obj) (dept : Z) (ctx ctx' : Ctx) (out : string) :
  resolveSelectionContent fuel sels struct_ T dept ctx = Ok (out, ctx') ->
  exists (new : list string) (values : gmap string GoValue),
    ctx' = MkCtx (fragments ctx) (schema ctx) values (directvies ctx)
                 (errors ctx ++ new)
    /\ forall errs : list string,
         resolveSelectionContent fuel sels struct_ T dept (setErrors ctx errs)
         = Ok (out, setValues (setErrors ctx (errs ++ new)) values).
Proof.
  intros Hrun.
  destruct (AppendsErrors_run _ _ _ _
              (AppendsErrors_resolveSelectionContent callFunc rangeOrder quote
                 floatToJson roundToFloat32 fuel sels struct_ T dept) Hrun)
    as (new & values & -> & Hany).
  exists new, values. split; [reflexivity|exact Hany].
Qed.

(** ** Selections that write nothing *)

(** A selection that leaves the loop state and the map [Values] as they
    are and adds the errors [es] can be taken out of its selection set: the
    output is the same, and so are the map [Values] left and the errors of
    the other selections, around [es]. *)
Lemma skipped_selection (fuel : nat) (pre post : SelectionSet)
  (sel : Selection) (es : list string) (struct_ : GoValue) (T : Obj)
  (dept : Z) (ctx : Ctx) :
  (forall (st : string * bool) (errs : list string)
          (values : gmap string GoValue),
      resolveOneSelection (resolveSelectionContent fuel) struct_ T dept sel st
        (setValues (setErrors ctx errs) values)
      = Ok (st, setValues (setErrors ctx (errs ++ es)) values)) ->
  forall (out : string) (ctx' : Ctx),
    resolveSelectionContent (S fuel) (pre ++ post) struct_ T dept ctx
    = Ok (out, ctx') ->
    exists (e1 e2 : list string) (values : gmap string GoValue),
      ctx' = setValues (setErrors ctx (errors ctx ++ e1 ++ e2)) values
      /\ resolveSelectionContent (S fuel) (pre ++ sel :: post) struct_ T dept ctx
         = Ok (out,
               setValues (setErrors ctx (errors ctx ++ e1 ++ es ++ e2)) values).
Proof.
  intros Hskip out ctx' Hrun.
  rewrite resolveSelectionContent_app in Hrun.
  rewrite resolveSelectionContent_split.
  unfold bind at 1 in Hrun. unfold bind at 1.
  destruct (resolveSelectionRange (resolveSelectionContent fuel) struct_ T dept
              pre (EmptyString, false) ctx) as [[st1 ctx1]| |] eqn:Hpre;
    try discriminate.
  destruct (AppendsErrors_run _ _ _ _
              (AppendsErrors_resolveSelectionRange _ _ _ _ _ _
                 (AppendsErrors_resolveSelectionContent _ _ _ _ _ fuel)
                 _ _ _ _ _) Hpre)
    as (e1 & v1 & -> & _).
  unfold bind at 1 in Hrun.
  destruct (resolveSelectionRange (resolveSelectionContent fuel) struct_ T dept
              post st1 _) as [[[res w] ctx2]| |] eqn:Hpost; try discriminate.
  injection Hrun as <- <-.
  destruct (AppendsErrors_run _ _ _ _
              (AppendsErrors_resolveSelectionRange _ _ _ _ _ _
                 (AppendsErrors_resolveSelectionContent _ _ _ _ _ fuel)
                 _ _ _ _ _) Hpost)
    as (e2 & v2 & -> & Hany).
  exists e1, e2, v2. split.
  { unfold setValues, setErrors. cbn [fragments schema Values directvies errors].
    rewrite <- app_assoc. reflexivity. }
  unfold bind at 1. rewrite Hskip.
  unfold bind at 1.
  specialize (Hany ((errors ctx ++ e1) ++ es)).
  unfold setValues, setErrors in Hany |- *.
  cbn [fragments schema Values directvies errors] in Hany |- *.
  rewrite Hany. rewrite <- !app_assoc. reflexivity.
Qed.

(** X2. A spread of a fragment the document does not define adds exactly
    one error, [unknown fragment <name>], and writes nothing; the other
    selections of the set are resolved as in the set without the spread:
    same output, same map [Values], same errors in the same order around
    that one error. *)
Theorem unknown_fragment_is_skipped (fuel : nat) (pre post : SelectionSet)
  (name : string) (struct_ : GoValue) (T : Obj) (dept : Z) (ctx : Ctx) :
  fragments ctx !! name = None ->
  (forall st : string * bool,
      resolveOneSelection (resolveSelectionContent fuel) struct_ T dept
        (SelFragmentSpread name) st ctx
      = Ok (st, setErrors ctx (errors ctx ++ ["unknown fragment " +:+ name])))
  /\ (forall (out : string) (ctx' : Ctx),
        resolveSelectionContent (S fuel) (pre ++ post) struct_ T dept ctx
        = Ok (out, ctx') ->
        exists (e1 e2 : list string) (values : gmap string GoValue),
          ctx' = setValues (setErrors ctx (errors ctx ++ e1 ++ e2)) values
          /\ resolveSelectionContent (S fuel)
               (pre ++ SelFragmentSpread name :: post) struct_ T dept ctx
             = Ok (out,
                   setValues
                     (setErrors ctx
                        (errors ctx ++ e1 ++ ["unknown fragment " +:+ name]
                         ++ e2))
                     values)).
Proof.
  intros Hnone.
  assert (Hskip : forall (st : string * bool) (errs : list string)
                         (values : gmap string GoValue),
             resolveOneSelection (resolveSelectionContent fuel) struct_ T dept
               (SelFragmentSpread name) st
               (setValues (setErrors ctx errs) values)
             = Ok (st,
                   setValues
                     (setErrors ctx (errs ++ ["unknown fragment " +:+ name]))
                     values)).
  { intros st errs values.
    unfold Resolve.resolveOneSelection, bind at 1, getFragments.
    cbn [fragments setErrors setValues]. rewrite Hnone. reflexivity. }
  split.
  - intros st. specialize (Hskip st (errors ctx) (Values ctx)).
    rewrite setErrors_self, setValues_self in Hskip. rewrite Hskip.
    destruct ctx; reflexivity.
  - apply skipped_selection. exact Hskip.
Qed.

(** X3. A field of an object type selected without a selection set, and a
    field of a scalar type selected with one, each add exactly one error
    ([field <name> must have a selection], [field <name> cannot have a
    selection]) and are left out of the output; the other selections of
    the set are resolved as in the set without that field. *)
Theorem misshaped_field_is_skipped (fuel : nat) (pre post : SelectionSet)
  (f : Field) (item : Obj) (value struct_ : GoValue) (T : Obj) (dept : Z)
  (ctx : Ctx) :
  objContents T !! fName f = Some item ->
  FieldByName struct_ (structFieldName item) = Ok value ->
  ((valueTypeOf item = valueTypeObj \/ valueTypeOf item = valueTypeObjRef)
   /\ fSelection f = [])
  \/ (valueTypeOf item = valueTypeData /\ fSelection f <> []) ->
  (forall st : string * bool,
      resolveOneSelection (resolveSelectionContent fuel) struct_ T dept
        (SelField f) st ctx
      = Ok (st, setErrors ctx (errors ctx ++ [shapeError f])))
  /\ (forall (out : string) (ctx' : Ctx),
        resolveSelectionContent (S fuel) (pre ++ post) struct_ T dept ctx
        = Ok (out, ctx') ->
        exists (e1 e2 : list string) (values : gmap string GoValue),
          ctx' = setValues (setErrors ctx (errors ctx ++ e1 ++ e2)) values
          /\ resolveSelectionContent (S fuel) (pre ++ SelField f :: post)
               struct_ T dept ctx
             = Ok (out,
                   setValues
                     (setErrors ctx
                        (errors ctx ++ e1 ++ [shapeError f] ++ e2))
                     values)).
Proof.
  intros Hitem Hfield Hshape.
  assert (Hskip : forall (st : string * bool) (errs : list string)
                         (values : gmap string GoValue),
             resolveOneSelection (resolveSelectionContent fuel) struct_ T dept
               (SelField f) st (setValues (setErrors ctx errs) values)
             = Ok (st,
                   setValues (setErrors ctx (errs ++ [shapeError f])) values)).
  { intros st errs values.
    unfold Resolve.resolveOneSelection, bind at 1, Resolve.resolveField.
    rewrite Hitem. destruct item as [vt tn sfn contents inner meth].
    cbn [valueTypeOf structFieldName method] in *. unfold shapeError.
    destruct Hshape as [[Hvt Hsel]|[Hvt Hsel]].
    - rewrite Hsel.
      destruct Hvt as [->| ->]; simpl bool_decide; cbv iota;
        unfold bind at 1, ret at 1; unfold bind at 1, lift at 1;
        rewrite Hfield; unfold bind at 1;
        cbn [Resolve.resolveFieldDataValue]; rewrite Hsel; reflexivity.
    - subst vt. simpl bool_decide at 1. cbv iota.
      unfold bind at 1, ret at 1. unfold bind at 1, lift at 1.
      rewrite Hfield. unfold bind at 1.
      cbn [Resolve.resolveFieldDataValue].
      rewrite (bool_decide_eq_false_2 _ Hsel).
      destruct (fSelection f) as [|s0 sels]; [congruence|]. reflexivity. }
  split.
  - intros st. specialize (Hskip st (errors ctx) (Values ctx)).
    rewrite setErrors_self, setValues_self in Hskip. rewrite Hskip.
    destruct ctx; reflexivity.
  - apply skipped_selection. exact Hskip.
Qed.

(** ** The entries of an object *)

Lemma inTurn_length {A B} (f : A -> M B) (l : list A) :
  forall (results : list B) (ctx ctx' : Ctx),
    inTurn f l ctx = Ok (results, ctx') -> length results = length l.
Proof.
  induction l as [|x l IH]; intros results ctx ctx' Hrun.
  - injection Hrun as <- _. reflexivity.
  - cbn [inTurn] in Hrun. unfold bind at 1 in Hrun.
    destruct (f x ctx) as [[y c1]| |]; try discriminate.
    unfold bind at 1 in Hrun.
    destruct (inTurn f l c1) as [[ys c2]| |] eqn:Hrest; try discriminate.
    injection Hrun as <- _. cbn [length]. f_equal. exact (IH _ _ _ Hrest).
Qed.

Lemma resolveSelectionRange_fields (fuel : nat) (struct_ : GoValue) (T : Obj)
  (dept : Z) (fields : list Field) :
  forall (acc : list string) (ctx : Ctx),
    resolveSelectionRange (resolveSelectionContent fuel) struct_ T dept
      (map SelField fields) (written acc) ctx
    = (let* results :=
         inTurn (fun f => resolveField (resolveSelectionContent fuel) f
                            struct_ T dept) fields in
       ret (written
              (acc ++ map fst (List.filter (fun r => negb (snd r)) results))))
        ctx.
Proof.
  induction fields as [|f fields IH]; intros acc ctx.
  - cbn. unfold bind, ret. cbn. rewrite app_nil_r. reflexivity.
  - cbn [map Resolve.resolveSelectionRange inTurn].
    unfold Resolve.resolveOneSelection, bind.
    destruct (resolveField (resolveSelectionContent fuel) f struct_ T dept ctx)
      as [[[v flag] c1]| |]; [|reflexivity..].
    destruct flag; cbn [negb]; unfold ret at 1.
    + rewrite IH. unfold bind.
      destruct (inTurn _ fields c1) as [[results c2]| |]; reflexivity.
    + rewrite writeToRes_written, IH. unfold bind.
      destruct (inTurn _ fields c1) as [[results c2]| |]; [|reflexivity..].
      unfold ret. cbn [List.filter snd negb map fst].
      rewrite <- app_assoc. reflexivity.
Qed.

(** X4. The content of a selection set of fields is the list, joined with
    commas and in the order of the selection, of the entries of the fields
    that resolve without their error flag, the fields being resolved one
    after the other, each from the context the one before it leaves; a
    field that comes back with the flag leaves no entry and no comma.  The
    context after the selection set is the one after the last field. *)
Theorem fields_are_joined_in_order (fuel : nat) (struct_ : GoValue) (T : Obj)
  (dept : Z) (ctx : Ctx) (fields : list Field) :
  resolveSelectionContent (S fuel) (map SelField fields) struct_ T dept ctx
  = (let* results :=
       inTurn (fun f => resolveField (resolveSelectionContent fuel) f
                          struct_ T dept) fields in
     ret (join "," (map fst (List.filter (fun r => negb (snd r)) results))))
      ctx.
Proof.
  cbn [Resolve.resolveSelectionContent].
  unfold bind at 1.
  change (EmptyString, false) with (written []).
  rewrite resolveSelectionRange_fields. unfold bind.
  destruct (inTurn _ fields ctx) as [[results c]| |]; reflexivity.
Qed.

(** ** Lists *)

Lemma resolveElems_inTurn (f : GoValue -> M (string * bool))
  (elems : list GoValue) :
  forall (acc : list string) (ctx : Ctx),
    resolveElems f elems acc ctx
    = (let* results := inTurn f elems in ret (acc ++ map fst results)) ctx.
Proof.
  induction elems as [|v elems IH]; intros acc ctx.
  - cbn. unfold bind, ret. cbn. rewrite app_nil_r. reflexivity.
  - cbn [resolveElems inTurn]. unfold bind.
    destruct (f v ctx) as [[[e fl] c1]| |]; [|reflexivity..].
    rewrite IH. unfold bind.
    destruct (inTurn f elems c1) as [[results c2]| |]; [|reflexivity..].
    unfold ret. cbn [map fst]. rewrite <- app_assoc. reflexivity.
Qed.

(** X5. A non-nil slice of a list field is rendered as a JSON array with
    one entry per element, in order: the elements are resolved with the
    element type one after the other, each from the context the one before
    it leaves, and the text of every element is kept whatever error flag
    the element comes back with.  The list itself comes back without the
    flag, and the context after it is the one after the last element. *)
Theorem slice_is_rendered_elementwise (fuel : nat) (cs inner : Obj)
  (query : Field) (elems : list GoValue) (dept : Z) (ctx : Ctx) :
  valueTypeOf cs = valueTypeArray ->
  innerContent cs = Some inner ->
  resolveFieldDataValue (resolveSelectionContent fuel) cs query
    (VSlice (Some elems)) dept ctx
  = (let* results :=
       inTurn (fun v => resolveFieldDataValue (resolveSelectionContent fuel)
                          inner query v dept) elems in
     ret ("[" +:+ join "," (map fst results) +:+ "]", false)) ctx
  /\ forall (results : list (string * bool)) (ctx' : Ctx),
       inTurn (fun v => resolveFieldDataValue (resolveSelectionContent fuel)
                          inner query v dept) elems ctx
       = Ok (results, ctx') ->
       length results = length elems.
Proof.
  intros Hvt Hinner. split.
  - rewrite (resolve_slice _ _ _ _ _ _ _ _ _ _ _ _ Hvt Hinner).
    unfold bind at 1. rewrite resolveElems_inTurn. unfold bind.
    destruct (inTurn _ elems ctx) as [[results c]| |]; reflexivity.
  - intros results ctx' Hrun. exact (inTurn_length _ _ _ _ _ Hrun).
Qed.

(** ** Arguments *)

(** X6. Query arguments that the method does not declare are reported, one
    error [undefined function <field> input: <argument>] each and in
    order, and otherwise ignored: the inputs are those the loop started
    with, and the method is called. *)
Theorem undeclared_arguments_are_reported (queryName : string)
  (inFields : gmap string InField) (args : list (string * Value))
  (inputs : list GoValue) (ctx : Ctx) :
  Forall (fun kv => inFields !! kv.1 = None) args ->
  bindArguments roundToFloat32 queryName inFields args inputs ctx
  = Ok (Some inputs,
        setErrors ctx
          (errors ctx
           ++ map (fun kv => "undefined function " +:+ queryName +:+ " input: "
                             +:+ kv.1) args)).
Proof.
  intros Hall. revert ctx.
  induction Hall as [|[k v] args Hk _ IH]; intros ctx.
  - cbn. rewrite app_nil_r, setErrors_self. reflexivity.
  - cbn [bindArguments]. cbn [fst] in Hk. rewrite Hk.
    unfold bind at 1, addErr at 1. rewrite IH.
    cbn [errors setErrors map fst]. rewrite setErrors_setErrors.
    rewrite <- app_assoc. reflexivity.
Qed.

(** X7. [matchInputValue] never changes the kind or the type name of the
    field it sets, also when it stores the argument; and whenever it
    returns an error, or the argument is [null], the field is left as it
    was. *)
Theorem matchInputValue_keeps_field (queryValue : Value)
  (goField goField' : GoValue) (goFieldKind : Kind) (err : error) :
  matchInputValue roundToFloat32 queryValue goField goFieldKind
  = Ok (goField', err) ->
  kindOf goField' = kindOf goField
  /\ typeNameOf goField' = typeNameOf goField
  /\ (err <> None -> goField' = goField)
  /\ (isVar queryValue = false -> isNull queryValue = true ->
      goField' = goField /\ err = None).
Proof.
  unfold matchInputValue. intros Hrun.
  destruct (isVar queryValue).
  { injection Hrun as <- <-. repeat split; congruence. }
  destruct (isNull queryValue).
  { injection Hrun as <- <-. repeat split; congruence. }
  destruct (isEnum queryValue).
  { injection Hrun as <- <-. repeat split; congruence. }
  destruct (valType queryValue);
    repeat match type of Hrun with
      | (if ?b then _ else _) = _ => destruct b
      | match ?x with _ => _ end = _ => destruct x
      end;
    try discriminate; injection Hrun as <- <-;
    repeat split; congruence.
Qed.

(** X8. An integer argument is stored without a range test: in a field of
    a signed integer kind it is cut to the width of the field in two's
    complement (the stored value is in the range of the kind and congruent
    to the literal), and in a field of an unsigned kind the literal, even a
    negative one, is stored modulo two to the width. *)
Theorem integer_argument_wraps (queryValue : Value) (k fk : Kind) (n : string)
  (old : Z) :
  isVar queryValue = false -> isNull queryValue = false ->
  isEnum queryValue = false -> valType queryValue = Int ->
  (isIntKind fk = true ->
   matchInputValue roundToFloat32 queryValue (VInt k n old) fk
   = Ok (VInt k n (truncSigned k (intValue queryValue)), None)
   /\ - 2 ^ (kindBits k - 1) <= truncSigned k (intValue queryValue)
      < 2 ^ (kindBits k - 1)
   /\ (truncSigned k (intValue queryValue) - intValue queryValue)
      mod 2 ^ kindBits k = 0)
  /\ (isUintKind fk = true ->
      matchInputValue roundToFloat32 queryValue (VUint k n old) fk
      = Ok (VUint k n (intValue queryValue mod 2 ^ kindBits k), None)).
Proof.
  intros Hvar Hnull Henum Hint. unfold matchInputValue.
  rewrite Hvar, Hnull, Henum, Hint. split.
  - intros ->. split; [reflexivity|]. apply truncSigned_range.
  - intros Hu. replace (isIntKind fk) with false by (destruct fk; done).
    rewrite Hu, truncUnsigned_wrap64. reflexivity.
Qed.

End Host.

#[local] Abbreviation sampleContent :=
  (Resolve.resolveSelectionContent Examples.callFunc Examples.rangeOrder
     Examples.quote Examples.floatToJson Examples.roundToFloat32).
#[local] Abbreviation sampleCtx := (MkCtx ∅ Examples.sampleSchema ∅ [] []).
#[local] Abbreviation earlierCtx :=
  (MkCtx ∅ Examples.sampleSchema ∅ [] ["earlier"]).
#[local] Abbreviation nextField :=
  (fun alias : string => MkField "next" alias [] ∅).

(** The selection [next zz b] on the root, with an error recorded before:
    the resolver [ResolveNext] writes its counter to [Values]. *)
Lemma resolution_only_appends_errors_witness :
  exists (new : list string) (values : gmap string GoValue),
    MkCtx ∅ Examples.sampleSchema {["n" := VInt Int "int" 1]} []
      ["earlier"; "field zz does not exists on Q"]
    = MkCtx (fragments earlierCtx) (schema earlierCtx) values
        (directvies earlierCtx) (errors earlierCtx ++ new)
    /\ forall errs : list string,
         sampleContent 3
           [Examples.field "next" []; Examples.field "zz" [];
            Examples.field "b" []]
           Examples.rootValue Examples.rootObj 1 (setErrors earlierCtx errs)
         = Ok (Examples.key "next" +:+ "0," +:+ Examples.key "b"
               +:+ Examples.quote "x",
               setValues (setErrors earlierCtx (errs ++ new)) values).
Proof.
  apply (resolution_only_appends_errors Examples.callFunc Examples.rangeOrder
           Examples.quote Examples.floatToJson Examples.roundToFloat32 3
           [Examples.field "next" []; Examples.field "zz" [];
            Examples.field "b" []]
           Examples.rootValue Examples.rootObj 1 earlierCtx).
  vm_compute. reflexivity.
Defined.

(** The spread of the undefined fragment [F] before the field [b]. *)
Lemma unknown_fragment_is_skipped_witness :
  exists (e1 e2 : list string) (values : gmap string GoValue),
    sampleContent 4 ([] ++ SelFragmentSpread "F" :: [Examples.field "b" []])
      Examples.rootValue Examples.rootObj 1 sampleCtx
    = Ok (Examples.key "b" +:+ Examples.quote "x",
          setValues
            (setErrors sampleCtx
               (errors sampleCtx ++ e1 ++ ["unknown fragment " +:+ "F"] ++ e2))
            values).
Proof.
  destruct (unknown_fragment_is_skipped Examples.callFunc Examples.rangeOrder
              Examples.quote Examples.floatToJson Examples.roundToFloat32 3
              [] [Examples.field "b" []] "F"
              Examples.rootValue Examples.rootObj 1 sampleCtx)
    as [_ Hall].
  { vm_compute. reflexivity. }
  destruct (Hall (Examples.key "b" +:+ Examples.quote "x") sampleCtx)
    as (e1 & e2 & values & _ & Hrun).
  { vm_compute. reflexivity. }
  exists e1, e2, values. exact Hrun.
Defined.

(** The object field [a] selected without a selection set, before [b]. *)
Lemma misshaped_field_is_skipped_witness :
  exists (e1 e2 : list string) (values : gmap string GoValue),
    sampleContent 4
      ([] ++ SelField (MkField "a" EmptyString [] ∅) :: [Examples.field "b" []])
      Examples.rootValue Examples.rootObj 1 sampleCtx
    = Ok (Examples.key "b" +:+ Examples.quote "x",
          setValues
            (setErrors sampleCtx
               (errors sampleCtx ++ e1
                ++ [shapeError (MkField "a" EmptyString [] ∅)] ++ e2))
            values).
Proof.
  destruct (misshaped_field_is_skipped Examples.callFunc Examples.rangeOrder
              Examples.quote Examples.floatToJson Examples.roundToFloat32 3
              [] [Examples.field "b" []] (MkField "a" EmptyString [] ∅)
              Examples.innerObj
              (VStruct [("Bar", Examples.str "baz")] [])
              Examples.rootValue Examples.rootObj 1 sampleCtx)
    as [_ Hall].
  { vm_compute. reflexivity. }
  { vm_compute. reflexivity. }
  { left. split; [left|]; vm_compute; reflexivity. }
  destruct (Hall (Examples.key "b" +:+ Examples.quote "x") sampleCtx)
    as (e1 & e2 & values & _ & Hrun).
  { vm_compute. reflexivity. }
  exists e1, e2, values. exact Hrun.
Defined.

(** The fields [n1: next], [zz] (unknown) and [n2: next] of the root: the
    second call of [ResolveNext] sees what the first left in [Values]. *)
Lemma fields_are_joined_in_order_witness :
  sampleContent 4
    (map SelField
       [nextField "n1"; MkField "zz" EmptyString [] ∅; nextField "n2"])
    Examples.rootValue Examples.rootObj 1 sampleCtx
  = Ok (Examples.key "n1" +:+ "0," +:+ Examples.key "n2" +:+ "1",
        MkCtx ∅ Examples.sampleSchema {["n" := VInt Int "int" 2]} []
          ["field zz does not exists on Q"]).
Proof.
  rewrite (fields_are_joined_in_order Examples.callFunc Examples.rangeOrder
             Examples.quote Examples.floatToJson Examples.roundToFloat32 3).
  vm_compute. reflexivity.
Defined.

(** The slice [List] of the root, with the elements [p] and [q]. *)
Lemma slice_is_rendered_elementwise_witness :
  Resolve.resolveFieldDataValue Examples.callFunc Examples.rangeOrder
    Examples.quote Examples.floatToJson Examples.roundToFloat32
    (sampleContent 3) Examples.listObj (MkField "list" EmptyString [] ∅)
    (VSlice (Some [Examples.str "p"; Examples.str "q"])) 1 sampleCtx
  = Ok (("[" +:+ Examples.quote "p" +:+ "," +:+ Examples.quote "q" +:+ "]",
         false), sampleCtx)
  /\ length [(Examples.quote "p", false); (Examples.quote "q", false)]
     = length [Examples.str "p"; Examples.str "q"].
Proof.
  destruct (slice_is_rendered_elementwise Examples.callFunc
              Examples.rangeOrder Examples.quote Examples.floatToJson
              Examples.roundToFloat32 3 Examples.listObj
              (Examples.dataObj EmptyString) (MkField "list" EmptyString [] ∅)
              [Examples.str "p"; Examples.str "q"] 1 sampleCtx)
    as [Hrun Hlen].
  { vm_compute. reflexivity. }
  { vm_compute. reflexivity. }
  split.
  - rewrite Hrun. vm_compute. reflexivity.
  - apply (Hlen _ sampleCtx). vm_compute. reflexivity.
Defined.

(** Two arguments for a method that declares none. *)
Lemma undeclared_arguments_are_reported_witness :
  bindArguments Examples.roundToFloat32 "m" ∅
    [("x", MkValue false false false Int 1 0 EmptyString false);
     ("y", MkValue false true false Invalid 0 0 EmptyString false)]
    [] sampleCtx
  = Ok (Some [],
        setErrors sampleCtx
          (errors sampleCtx
           ++ map (fun kv => "undefined function " +:+ "m" +:+ " input: "
                             +:+ kv.1)
                [("x", MkValue false false false Int 1 0 EmptyString false);
                 ("y", MkValue false true false Invalid 0 0 EmptyString false)])).
Proof.
  apply (undeclared_arguments_are_reported Examples.roundToFloat32).
  repeat constructor.
Defined.

(** The string [five] stored in a field of the named type [Name], the
    same string refused for an [int] field, and [null] for an [int]
    field. *)
Lemma matchInputValue_keeps_field_witness :
  (kindOf (VString "Name" "five") = kindOf (VString "Name" EmptyString)
   /\ typeNameOf (VString "Name" "five")
      = typeNameOf (VString "Name" EmptyString)
   /\ (@None string <> None ->
       VString "Name" "five" = VString "Name" EmptyString)
   /\ (isVar (MkValue false false false String 0 0 "five" false) = false ->
       isNull (MkValue false false false String 0 0 "five" false) = true ->
       VString "Name" "five" = VString "Name" EmptyString
       /\ @None string = None))
  /\ (kindOf (VInt Int "int" 7) = kindOf (VInt Int "int" 7)
      /\ typeNameOf (VInt Int "int" 7) = typeNameOf (VInt Int "int" 7)
      /\ (Some "function arguments type missmatch expected string" <> None ->
          VInt Int "int" 7 = VInt Int "int" 7)
      /\ (isVar (MkValue false false false String 0 0 "five" false) = false ->
          isNull (MkValue false false false String 0 0 "five" false) = true ->
          VInt Int "int" 7 = VInt Int "int" 7
          /\ Some "function arguments type missmatch expected string" = None))
  /\ (kindOf (VInt Int "int" 7) = kindOf (VInt Int "int" 7)
      /\ typeNameOf (VInt Int "int" 7) = typeNameOf (VInt Int "int" 7)
      /\ (@None string <> None -> VInt Int "int" 7 = VInt Int "int" 7)
      /\ (isVar (MkValue false true false Int 5 0 EmptyString false) = false ->
          isNull (MkValue false true false Int 5 0 EmptyString false) = true ->
          VInt Int "int" 7 = VInt Int "int" 7 /\ @None string = None)).
Proof.
  split; [|split].
  - apply (matchInputValue_keeps_field Examples.roundToFloat32
             (MkValue false false false String 0 0 "five" false)
             (VString "Name" EmptyString) (VString "Name" "five") String).
    vm_compute. reflexivity.
  - apply (matchInputValue_keeps_field Examples.roundToFloat32
             (MkValue false false false String 0 0 "five" false)
             (VInt Int "int" 7) (VInt Int "int" 7) Int).
    vm_compute. reflexivity.
  - apply (matchInputValue_keeps_field Examples.roundToFloat32
             (MkValue false true false Int 5 0 EmptyString false)
             (VInt Int "int" 7) (VInt Int "int" 7) Int).
    vm_compute. reflexivity.
Defined.

(** The literals 200 for an [int8] field and -1 for a [uint8] field. *)
Lemma integer_argument_wraps_witness :
  matchInputValue Examples.roundToFloat32
    (MkValue false false false Int 200 0 EmptyString false)
    (VInt Int8 "int8" 0) Int8
  = Ok (VInt Int8 "int8" (-56), None)
  /\ matchInputValue Examples.roundToFloat32
       (MkValue false false false Int (-1) 0 EmptyString false)
       (VUint Uint8 "uint8" 0) Uint8
     = Ok (VUint Uint8 "uint8" 255, None).
Proof.
  split.
  - destruct (integer_argument_wraps Examples.roundToFloat32
                (MkValue false false false Int 200 0 EmptyString false)
                Int8 Int8 "int8" 0 eq_refl eq_refl eq_refl eq_refl)
      as [Hsigned _].
    destruct (Hsigned eq_refl) as [Hrun _]. exact Hrun.
  - destruct (integer_argument_wraps Examples.roundToFloat32
                (MkValue false false false Int (-1) 0 EmptyString false)
                Uint8 Uint8 "uint8" 0 eq_refl eq_refl eq_refl eq_refl)
      as [_ Hunsigned].
    exact (Hunsigned eq_refl).
Defined.

End ResolveMore.

Module ParserMore.
Import Names NamesFacts QueryParser QueryParserFacts.

(** ** Reading the text *)

Lemma rune_of_byte_inj (a b : ascii) : rune_of_byte a = rune_of_byte b -> a = b.
Proof.
  intros H. rewrite <- (byte_of_rune a), <- (byte_of_rune b), H. reflexivity.
Qed.

Lemma drop_at (text : list ascii) (nr : Z) :
  0 <= nr < Z.of_nat (length text) ->
  exists b rest, drop (Z.to_nat nr) text = b :: rest.
Proof.
  intros Hnr. destruct (drop (Z.to_nat nr) text) as [|b rest] eqn:Hdrop.
  - apply drop_nil_inv in Hdrop. lia.
  - eauto.
Qed.

Lemma drop_lookup (text : list ascii) (n : nat) (b : ascii) (rest : list ascii) :
  drop n text = b :: rest -> text !! n = Some b.
Proof.
  intros Hdrop. rewrite <- (Nat.add_0_r n), <- lookup_drop, Hdrop. reflexivity.
Qed.

Lemma drop_cons_length (text : list ascii) (n : nat) (b : ascii)
  (rest : list ascii) :
  drop n text = b :: rest -> length text = (n + S (length rest))%nat.
Proof.
  intros Hdrop.
  assert (Hl : length (drop n text) = S (length rest))
    by (rewrite Hdrop; reflexivity).
  rewrite length_drop in Hl. lia.
Qed.

Lemma length_list_ascii (s : string) :
  length (list_ascii_of_string s) = String.length s.
Proof. induction s; simpl; congruence. Qed.

(** ** The parser returns *)

Section Text.

Variable text : list ascii.
Hypothesis text_fits : Z.of_nat (length text) + 3 < 2 ^ 64.

#[local] Abbreviation L := (Z.of_nat (length text)).

Lemma isLineTerminator_returns (nr : Z) :
  0 <= nr < L ->
  exists (b : bool) (q : Z),
    isLineTerminator (MkIter text nr) = Ok (b, MkIter text q)
    /\ nr <= q < L /\ (b = false -> q = nr).
Proof.
  intros Hnr. destruct (drop_at text nr Hnr) as (b & rest & Hdrop).
  rewrite (isLineTerminator_at text nr b rest (proj1 Hnr) ltac:(lia) Hdrop).
  destruct (rune_of_byte b =? r_lf).
  { exists true, nr. split; [reflexivity|]. split; [lia|discriminate]. }
  destruct (rune_of_byte b =? r_cr).
  2:{ exists false, nr. split; [reflexivity|]. split; [lia|reflexivity]. }
  destruct rest as [|b' rest'].
  { exists true, nr. split; [reflexivity|]. split; [lia|discriminate]. }
  destruct (rune_of_byte b' =? r_lf).
  - exists true, (nr + 1). split; [reflexivity|].
    destruct (drop_cons_lt _ _ _ _ Hdrop) as [_ Hrest].
    destruct (drop_cons_lt _ _ _ _ Hrest) as [Hlt _].
    split; [lia|discriminate].
  - exists true, nr. split; [reflexivity|]. split; [lia|discriminate].
Qed.

Lemma parseComment_loop_returns (fuel : nat) :
  forall nr : Z,
    0 <= nr <= L ->
    (length (drop (Z.to_nat nr) text) < fuel)%nat ->
    exists q : Z,
      parseComment_loop fuel (MkIter text nr) = Ok (tt, MkIter text q)
      /\ nr <= q <= L.
Proof.
  induction fuel as [|fuel IH]; intros nr Hnr Hfuel; [lia|].
  cbn [parseComment_loop]. unfold bind at 1, getCharNr at 1. cbn [charNr].
  unfold bind at 1, eof at 1. cbn [data].
  destruct (L <=? nr) eqn:Heof.
  { exists nr. split; [reflexivity|lia]. }
  apply Z.leb_gt in Heof.
  destruct (isLineTerminator_returns nr ltac:(lia)) as (b & q & Hrun & Hq & _).
  unfold bind at 1. rewrite Hrun.
  destruct b. { exists q. split; [reflexivity|lia]. }
  unfold bind at 1, incrCharNr at 1. cbn [data charNr].
  rewrite wrap64_small by lia.
  destruct (IH (q + 1)) as (q' & Hrun' & Hq'); [lia| |].
  { rewrite length_drop in *. lia. }
  exists q'. split; [exact Hrun'|lia].
Qed.

Lemma isIgnoredToken_returns (nr : Z) :
  0 <= nr < L ->
  exists (b : bool) (q : Z),
    isIgnoredToken (MkIter text nr) = Ok (b, MkIter text q)
    /\ nr <= q <= L /\ (b = false -> q = nr).
Proof.
  intros Hnr. destruct (drop_at text nr Hnr) as (b & rest & Hdrop).
  unfold isIgnoredToken, bind at 1.
  rewrite (currentC_at _ _ _ _ (proj1 Hnr) Hdrop).
  destruct (isUnicodeBom _).
  { exists true, nr. split; [reflexivity|]. split; [lia|discriminate]. }
  destruct (isWhiteSpace _).
  { exists true, nr. split; [reflexivity|]. split; [lia|discriminate]. }
  destruct (isLineTerminator_returns nr Hnr) as (lt & q & Hrun & Hq & Hsame).
  unfold bind at 1. rewrite Hrun.
  destruct lt.
  { exists true, q. split; [reflexivity|]. split; [lia|discriminate]. }
  rewrite (Hsame eq_refl). clear q Hrun Hq Hsame.
  unfold isComment, bind at 1.
  rewrite (currentC_at _ _ _ _ (proj1 Hnr) Hdrop).
  destruct (rune_of_byte b =? r_hash).
  2:{ exists false, nr. split; [reflexivity|]. split; [lia|reflexivity]. }
  unfold bind at 1, parseComment, bind at 1, loopFuel at 1. cbn [data].
  destruct (parseComment_loop_returns (S (S (length text))) nr)
    as (q' & Hrun' & Hq'); [lia| |].
  { rewrite length_drop. lia. }
  rewrite Hrun'. exists true, q'. split; [reflexivity|].
  split; [lia|discriminate].
Qed.

Lemma parseName_returns (nr : Z) :
  0 <= nr <= L ->
  exists (n : string) (q : Z),
    parseName (MkIter text nr) = Ok (n, MkIter text q)
    /\ nr <= q <= L
    /\ (n = EmptyString \/ matchesNameGrammar (list_ascii_of_string n) = true).
Proof.
  intros Hnr.
  destruct (parseName_spec text nr (proj1 Hnr) ltac:(lia))
    as (tok & Hrun & Hpre & Hgram).
  exists (string_of_list_ascii tok), (nr + Z.of_nat (length tok)).
  split; [exact Hrun|]. split.
  - assert (Hl : (length tok <= length (drop (Z.to_nat nr) text))%nat).
    { rewrite <- Hpre at 1. rewrite length_take. lia. }
    rewrite length_drop in Hl. lia.
  - rewrite list_ascii_of_string_of_list_ascii.
    destruct Hgram as [->|Hgram]; [left; reflexivity|right; exact Hgram].
Qed.

(** ** [matches] *)

Lemma matches_range_inl (keys : list string) :
  forall (kept : list string) (offset : Z) (r : rune) (key : string),
    0 <= offset -> offset + 1 < 2 ^ 64 ->
    matches_range keys kept offset r = inl key ->
    key ∈ keys /\ len key = offset + 1.
Proof.
  induction keys as [|k keys IH]; intros kept offset r key Ho Hw Hrun;
    [discriminate|].
  cbn [matches_range] in Hrun. rewrite wrap64_small in Hrun by lia.
  destruct (len k =? offset + 1) eqn:Hlen.
  - injection Hrun as <-. apply Z.eqb_eq in Hlen.
    split; [apply list_elem_of_here|exact Hlen].
  - apply IH in Hrun; [|lia..]. destruct Hrun as [Hin Hl].
    split; [apply list_elem_of_further; exact Hin|exact Hl].
Qed.

Lemma matches_range_inr (keys : list string) :
  forall (kept : list string) (offset : Z) (r : rune) (m : list string),
    matches_range keys kept offset r = inr m ->
    forall k : string,
      k ∈ m ->
      k ∈ kept
      \/ (k ∈ keys
          /\ exists b, String.get (Z.to_nat offset) k = Some b
                       /\ rune_of_byte b = r).
Proof.
  induction keys as [|k0 keys IH]; intros kept offset r m Hrun k Hk.
  - injection Hrun as <-. left.
    apply list_elem_of_In, in_rev, list_elem_of_In. exact Hk.
  - cbn [matches_range] in Hrun.
    destruct (len k0 =? wrap64 (offset + 1)); [discriminate|].
    destruct (IH _ _ _ _ Hrun k Hk) as [Hkept|[Hin Hget]].
    + destruct ((len k0 <=? offset)
                || negb match String.get (Z.to_nat offset) k0 with
                        | Some b => rune_of_byte b =? r
                        | None => false
                        end) eqn:Hdrop.
      * left. exact Hkept.
      * apply elem_of_cons in Hkept. destruct Hkept as [->|Hkept];
          [|left; exact Hkept].
        right. split; [apply list_elem_of_here|].
        apply orb_false_elim in Hdrop. destruct Hdrop as [_ Hget].
        apply negb_false_iff in Hget.
        destruct (String.get (Z.to_nat offset) k0) as [b|]; [|discriminate].
        exists b. split; [reflexivity|apply Z.eqb_eq; exact Hget].
    + right. split; [apply list_elem_of_further; exact Hin|exact Hget].
Qed.

Lemma matches_loop_spec (start : Z) (fuel : nat) :
  forall (j : nat) (m : list string),
    0 <= start ->
    (length (drop (Z.to_nat start + j) text) < fuel)%nat ->
    (forall k, k ∈ m -> agrees text start k j) ->
    exists (r : string) (q : Z),
      matches_loop fuel start m (MkIter text (start + Z.of_nat j))
      = Ok (r, MkIter text q)
      /\ ((r = EmptyString /\ q = start)
          \/ (r ∈ m /\ q = start + len r - 1 /\ start <= q < L
              /\ agrees text start r (String.length r - 1))).
Proof.
  induction fuel as [|fuel IH]; intros j m Hstart Hfuel Hagree; [lia|].
  cbn [matches_loop]. unfold bind at 1, getCharNr at 1. cbn [charNr].
  unfold bind at 1. rewrite checkC_at by lia.
  replace (Z.to_nat (start + Z.of_nat j)) with (Z.to_nat start + j)%nat by lia.
  destruct (drop (Z.to_nat start + j) text) as [|b rest] eqn:Hdrop.
  { exists EmptyString, start. split; [reflexivity|left; split; reflexivity]. }
  destruct (drop_cons_lt _ _ _ _ Hdrop) as [Hlt Hrest].
  replace (start + Z.of_nat j - start) with (Z.of_nat j) by lia.
  rewrite wrap64_small by lia.
  destruct (matches_range m [] (Z.of_nat j) (rune_of_byte b)) as [key|m'] eqn:Hrange.
  - apply matches_range_inl in Hrange; [|lia..]. destruct Hrange as [Hin Hlen].
    exists key, (start + Z.of_nat j). split; [reflexivity|]. right.
    unfold len in *. split; [exact Hin|]. split; [lia|]. split; [lia|].
    replace (String.length key - 1)%nat with j by lia. apply Hagree. exact Hin.
  - destruct (length m' =? 0)%nat eqn:Hempty.
    { exists EmptyString, start. split; [reflexivity|left; split; reflexivity]. }
    unfold bind at 1, incrCharNr at 1. cbn [data charNr].
    rewrite wrap64_small by lia.
    replace (start + Z.of_nat j + 1) with (start + Z.of_nat (S j)) by lia.
    destruct (IH (S j) m') as (r & q & Hrun & Hres); [exact Hstart| |  |].
    { replace (Z.to_nat start + S j)%nat with (S (Z.to_nat start + j)) by lia.
      rewrite Hrest. simpl in Hfuel. lia. }
    { intros k Hk p Hp.
      destruct (matches_range_inr _ _ _ _ _ Hrange k Hk) as [Hnil|[Hin Hget]].
      { apply elem_of_nil in Hnil. destruct Hnil. }
      destruct (decide (p = j)) as [->|Hne].
      - destruct Hget as (b' & Hget & Hb'). rewrite Nat2Z.id in Hget.
        apply rune_of_byte_inj in Hb'. subst b'.
        rewrite Hget. symmetry. apply (drop_lookup _ _ _ _ Hdrop).
      - apply (Hagree k Hin). lia. }
    exists r, q. split; [exact Hrun|].
    destruct Hres as [Hres|(Hin & Hq & Hb & Hag)]; [left; exact Hres|].
    right. split; [|auto].
    destruct (matches_range_inr _ _ _ _ _ Hrange r Hin) as [Hnil|[Hin' _]];
      [apply elem_of_nil in Hnil; destruct Hnil|exact Hin'].
Qed.

(** X9. [matches] always returns.  It returns the empty string with the
    cursor where it was, or one of the given keys with the cursor on the
    last byte the key takes in the text; the text then agrees with the key
    on all bytes of the key but the last one, for which only the presence
    of a byte is tested. *)
Theorem matches_spec (oneOf : list string) (nr : Z) :
  0 <= nr ->
  exists (r : string) (q : Z),
    matches oneOf (MkIter text nr) = Ok (r, MkIter text q)
    /\ ((r = EmptyString /\ q = nr)
        \/ (r ∈ oneOf /\ q = nr + len r - 1 /\ nr <= q < L
            /\ agrees text nr r (String.length r - 1))).
Proof.
  intros Hnr. unfold matches, bind at 1, getCharNr at 1. cbn [charNr].
  unfold bind at 1, loopFuel at 1. cbn [data].
  destruct (matches_loop_spec nr (S (S (length text))) 0 (remove_dups oneOf))
    as (r & q & Hrun & Hres); [exact Hnr| | |].
  { rewrite length_drop. lia. }
  { intros k _ p Hp. lia. }
  rewrite Z.add_0_r in Hrun. exists r, q. split; [exact Hrun|].
  destruct Hres as [Hres|(Hin & Hrest)]; [left; exact Hres|].
  right. split; [|exact Hrest]. apply elem_of_remove_dups. exact Hin.
Qed.

(** ** Fields, selections and operations *)

Lemma parseField_loop_returns (fuel : nat) :
  forall (nr : Z) (res : Field) (n : string),
    0 <= nr <= L + 1 ->
    (length (drop (Z.to_nat nr) text) < fuel)%nat ->
    exists (r : option Field * error) (q : Z),
      parseField_loop fuel res n (MkIter text nr) = Ok (r, MkIter text q)
      /\ nr <= q <= L + 1.
Proof.
  induction fuel as [|fuel IH]; intros nr res n Hnr Hfuel; [lia|].
  cbn [parseField_loop]. unfold bind at 1, getCharNr at 1. cbn [charNr].
  unfold bind at 1. rewrite checkC_at by lia.
  destruct (drop (Z.to_nat nr) text) as [|b rest] eqn:Hdrop.
  { eexists _, nr. split; [reflexivity|lia]. }
  destruct (drop_cons_lt _ _ _ _ Hdrop) as [Hlt _].
  destruct (isIgnoredToken_returns nr ltac:(lia)) as (ig & q & Hrun & Hq & _).
  unfold bind at 1. rewrite Hrun. destruct ig.
  - unfold bind at 1, incrCharNr at 1. cbn [data charNr].
    rewrite wrap64_small by lia.
    destruct (IH (q + 1) res n) as (r & q' & Hrun' & Hq'); [lia| |].
    { pose proof (drop_cons_length _ _ _ _ Hdrop) as Hl.
      rewrite length_drop. simpl in Hfuel. lia. }
    exists r, q'. split; [exact Hrun'|lia].
  - destruct (rune_of_byte b =? r_colon);
      eexists _, q; (split; [reflexivity|lia]).
Qed.

Lemma parseField_returns (nr : Z) :
  0 <= nr <= L ->
  exists (r : option Field * error) (q : Z),
    parseField (MkIter text nr) = Ok (r, MkIter text q) /\ nr <= q <= L + 1.
Proof.
  intros Hnr. destruct (parseName_returns nr Hnr) as (n & q & Hrun & Hq & _).
  unfold parseField, bind at 1. rewrite Hrun.
  destruct (String.eqb n EmptyString).
  { eexists _, q. split; [reflexivity|lia]. }
  unfold bind at 1, loopFuel at 1. cbn [data].
  destruct (parseField_loop_returns (S (S (length text))) q
              (MkField EmptyString EmptyString) n)
    as (r & q' & Hrun' & Hq'); [lia| |].
  { rewrite length_drop. lia. }
  exists r, q'. split; [exact Hrun'|lia].
Qed.

Lemma parseSelection_returns (nr : Z) :
  0 <= nr <= L ->
  exists (e : error) (q : Z),
    parseSelection (MkIter text nr) = Ok (e, MkIter text q) /\ nr <= q <= L + 1.
Proof.
  intros Hnr.
  destruct (matches_spec ["..."] nr (proj1 Hnr)) as (m & q & Hrun & Hres).
  unfold parseSelection, bind at 1. rewrite Hrun.
  assert (Hq : nr <= q <= L) by (destruct Hres as [[_ ->]|(_ & _ & Hb & _)]; lia).
  destruct (0 <? len m).
  - unfold bind at 1, incrCharNr at 1. cbn [data charNr].
    rewrite wrap64_small by lia.
    eexists _, (q + 1). split; [reflexivity|lia].
  - destruct (parseField_returns q ltac:(lia)) as (r & q' & Hrun' & Hq').
    unfold bind at 1. rewrite Hrun'. eexists _, q'. split; [reflexivity|lia].
Qed.

Lemma parseSelectionSets_loop_returns (fuel : nat) :
  forall nr : Z,
    0 <= nr <= L + 2 ->
    (length (drop (Z.to_nat nr) text) < fuel)%nat ->
    exists (e : error) (q : Z),
      parseSelectionSets_loop fuel (MkIter text nr) = Ok (e, MkIter text q).
Proof.
  induction fuel as [|fuel IH]; intros nr Hnr Hfuel; [lia|].
  cbn [parseSelectionSets_loop]. unfold bind at 1, getCharNr at 1. cbn [charNr].
  unfold bind at 1. rewrite checkC_at by lia.
  destruct (drop (Z.to_nat nr) text) as [|b rest] eqn:Hdrop.
  { eexists _, nr. reflexivity. }
  destruct (drop_cons_lt _ _ _ _ Hdrop) as [Hlt _].
  assert (Hless : forall q, nr <= q ->
             (length (drop (Z.to_nat (q + 1)) text) < fuel)%nat).
  { intros q Hq. pose proof (drop_cons_length _ _ _ _ Hdrop) as Hl.
    rewrite length_drop. simpl in Hfuel. lia. }
  destruct (isIgnoredToken_returns nr ltac:(lia)) as (ig & q & Hrun & Hq & _).
  unfold bind at 1. rewrite Hrun. destruct ig.
  - unfold bind at 1, incrCharNr at 1. cbn [data charNr].
    rewrite wrap64_small by lia.
    apply IH; [lia|apply Hless; lia].
  - destruct (rune_of_byte b =? r_rbrace). { eexists _, q. reflexivity. }
    destruct (parseSelection_returns q ltac:(lia)) as (e & q' & Hrun' & Hq').
    unfold bind at 1. rewrite Hrun'.
    destruct e as [msg|]. { eexists _, q'. reflexivity. }
    unfold bind at 1, incrCharNr at 1. cbn [data charNr].
    rewrite wrap64_small by lia.
    apply IH; [lia|apply Hless; lia].
Qed.

Lemma validOperator_type (op : Operator) (m : string) :
  validOperator op = true ->
  m ∈ ["query"; "mutation"; "subscription"] ->
  validOperator (MkOperator m (name op)) = true.
Proof.
  unfold validOperator. cbn [operationType name]. intros Hop Hm.
  apply andb_true_iff in Hop. destruct Hop as [_ Hname].
  rewrite (bool_decide_eq_true_2 _ Hm). exact Hname.
Qed.

Lemma validOperator_name (op : Operator) (n : string) :
  validOperator op = true ->
  n = EmptyString \/ matchesNameGrammar (list_ascii_of_string n) = true ->
  validOperator (MkOperator (operationType op) n) = true.
Proof.
  unfold validOperator. cbn [operationType name]. intros Hop Hn.
  apply andb_true_iff in Hop. destruct Hop as [Htype _]. rewrite Htype.
  destruct Hn as [->|Hn]; [reflexivity|]. rewrite Hn. apply orb_true_r.
Qed.

Lemma parseOperator_loop_returns (fuel : nat) :
  forall (nr : Z) (res : Operator) (stage : Stage),
    0 <= nr <= L + 1 ->
    (length (drop (Z.to_nat nr) text) < fuel)%nat ->
    validOperator res = true ->
    exists (r : option Operator * error) (q : Z),
      parseOperator_loop fuel res stage (MkIter text nr) = Ok (r, MkIter text q)
      /\ ((exists op, r = (Some op, None) /\ validOperator op = true)
          \/ exists err, r = (None, Some err)).
Proof.
  induction fuel as [|fuel IH]; intros nr res stage Hnr Hfuel Hvalid; [lia|].
  cbn [parseOperator_loop]. unfold bind at 1, getCharNr at 1. cbn [charNr].
  unfold bind at 1, eof at 1. cbn [data].
  destruct (L <=? nr) eqn:Heof.
  { destruct (negb (isOperationTypeStage stage)); eexists _, nr;
      (split; [reflexivity|]); [right|left]; eauto. }
  apply Z.leb_gt in Heof.
  destruct (drop_at text nr ltac:(lia)) as (b & rest & Hdrop).
  assert (Hless : forall q, nr <= q ->
             (length (drop (Z.to_nat (q + 1)) text) < fuel)%nat).
  { intros q Hq. rewrite length_drop in *. lia. }
  assert (Hnext : forall q res' stage',
             nr <= q <= L -> validOperator res' = true ->
             exists (r : option Operator * error) (q' : Z),
               (incrCharNr ;;; parseOperator_loop fuel res' stage')
                 (MkIter text q) = Ok (r, MkIter text q')
               /\ ((exists op, r = (Some op, None) /\ validOperator op = true)
                   \/ exists err, r = (None, Some err))).
  { intros q res' stage' Hq Hres'.
    unfold bind at 1, incrCharNr at 1. cbn [data charNr].
    rewrite wrap64_small by lia.
    apply IH; [lia|apply Hless; lia|exact Hres']. }
  destruct (isIgnoredToken_returns nr ltac:(lia)) as (ig & q & Hrun & Hq & Hsame).
  unfold bind at 1. rewrite Hrun. destruct ig.
  { apply Hnext; [lia|exact Hvalid]. }
  rewrite (Hsame eq_refl). clear q Hrun Hq Hsame.
  unfold bind at 1. rewrite (currentC_at _ _ _ _ (proj1 Hnr) Hdrop).
  destruct stage.
  - destruct (rune_of_byte b =? r_lbrace).
    { apply Hnext; [lia|exact Hvalid]. }
    destruct (matches_spec ["query"; "mutation"; "subscription"] nr (proj1 Hnr))
      as (m & q & Hrun & Hres).
    unfold bind at 1. rewrite Hrun.
    destruct (0 <? len m) eqn:Hlen.
    2:{ eexists _, q. split; [reflexivity|]. right. eauto. }
    destruct Hres as [[-> _]|(Hin & _ & Hb & _)]; [discriminate Hlen|].
    apply Hnext; [lia|]. apply validOperator_type; assumption.
  - destruct (rune_of_byte b =? r_lparen).
    { apply Hnext; [lia|exact Hvalid]. }
    destruct (rune_of_byte b =? r_at).
    { apply Hnext; [lia|exact Hvalid]. }
    destruct (rune_of_byte b =? r_lbrace).
    { apply Hnext; [lia|exact Hvalid]. }
    destruct (parseName_returns nr ltac:(lia)) as (n & q & Hrun & Hq & Hn).
    unfold bind at 1. rewrite Hrun.
    apply Hnext; [lia|]. apply validOperator_name; assumption.
  - destruct (rune_of_byte b =? r_at).
    { apply Hnext; [lia|exact Hvalid]. }
    destruct (rune_of_byte b =? r_lbrace).
    { apply Hnext; [lia|exact Hvalid]. }
    eexists _, nr. split; [reflexivity|]. right. eauto.
  - destruct (rune_of_byte b =? r_lbrace).
    { apply Hnext; [lia|exact Hvalid]. }
    eexists _, nr. split; [reflexivity|]. right. eauto.
  - unfold bind at 1, parseSelectionSets, bind at 1, loopFuel at 1. cbn [data].
    destruct (parseSelectionSets_loop_returns (S (S (length text))) nr)
      as (e & q & Hrun); [lia| |].
    { rewrite length_drop. lia. }
    rewrite Hrun. destruct e as [msg|]; eexists _, q;
      (split; [reflexivity|]); [right|left]; eauto.
Qed.

End Text.

(** X10. [ParseQuery] returns on every input: it does not read past the
    end of the text and none of its loops runs on.  It returns either an
    error, or an operator whose type is one of [query], [mutation] and
    [subscription] and whose name is empty or a name of the grammar
    [[A-Za-z_][A-Za-z0-9_]*]. *)
Theorem ParseQuery_returns (input : string) :
  len input + 3 < 2 ^ 64 ->
  (exists op : Operator,
      ParseQuery input = Ok (Some op, None) /\ validOperator op = true)
  \/ exists err : string, ParseQuery input = Ok (None, Some err).
Proof.
  intros Hlen. unfold ParseQuery, parseOperator, bind, loopFuel. cbn [data].
  assert (Hl : Z.of_nat (length (list_ascii_of_string input)) = len input).
  { unfold len. rewrite length_list_ascii. reflexivity. }
  destruct (parseOperator_loop_returns (list_ascii_of_string input)
              ltac:(lia) (S (S (length (list_ascii_of_string input)))) 0
              (MkOperator "query" EmptyString) StOperationType)
    as (r & q & Hrun & Hres); [lia| |reflexivity|].
  { rewrite length_drop. lia. }
  rewrite Hrun.
  destruct Hres as [(op & -> & Hop)|(err & ->)]; [left|right]; eauto.
Qed.

(** X11. On an input made only of white space, line terminators and
    comments (the empty input among them) [ParseQuery] returns the default
    operator, a query without a name, and no error. *)
Theorem ParseQuery_of_ignored_tokens (input : string) :
  len input + 1 < 2 ^ 64 ->
  ignoredOnly false (list_ascii_of_string input) = true ->
  ParseQuery input = Ok (Some (MkOperator "query" EmptyString), None).
Proof.
  intros Hlen Hign. unfold ParseQuery, parseOperator, bind, loopFuel.
  cbn [data].
  assert (Hl : Z.of_nat (length (list_ascii_of_string input)) = len input).
  { unfold len. rewrite length_list_ascii. reflexivity. }
  destruct (parseOperator_loop_ignored
              (S (S (length (list_ascii_of_string input))))
              (list_ascii_of_string input) 0
              (MkOperator "query" EmptyString)) as [q Hq].
  - lia.
  - rewrite Hl. exact Hlen.
  - rewrite length_drop. lia.
  - exact Hign.
  - rewrite Hq. reflexivity.
Qed.

(** ** The last byte of a key *)

Lemma get_list_ascii (s : string) :
  forall n : nat, String.get n s = list_ascii_of_string s !! n.
Proof.
  induction s as [|a s IH]; intros n; [destruct n; reflexivity|].
  destruct n as [|n]; [reflexivity|]. simpl. apply IH.
Qed.

Lemma matches_loop_one_key (text : list ascii) (start : Z) (key : string)
  (pre : list ascii) (last b : ascii) :
  0 <= start ->
  Z.of_nat (length text) + 3 < 2 ^ 64 ->
  list_ascii_of_string key = pre ++ [last] ->
  take (S (length pre)) (drop (Z.to_nat start) text) = pre ++ [b] ->
  forall (todo j : nat) (fuel : nat),
    (j + todo = length pre)%nat ->
    (todo < fuel)%nat ->
    matches_loop fuel start [key] (MkIter text (start + Z.of_nat j))
    = Ok (key, MkIter text (start + Z.of_nat (length pre))).
Proof.
  intros Hstart Hfits Hkey Htext.
  assert (Hlen : len key = Z.of_nat (length pre) + 1).
  { unfold len. rewrite <- length_list_ascii, Hkey, length_app. simpl. lia. }
  assert (Hat : forall p c, (pre ++ [b]) !! p = Some c ->
                  text !! (Z.to_nat start + p)%nat = Some c
                  /\ (Z.to_nat start + p < length text)%nat).
  { intros p c Hp. rewrite <- Htext in Hp.
    apply lookup_take_Some in Hp. destruct Hp as [Hp _].
    rewrite lookup_drop in Hp. split; [exact Hp|].
    apply lookup_lt_Some in Hp. exact Hp. }
  induction todo as [|todo IH]; intros j fuel Hj Hfuel;
    (destruct fuel as [|fuel]; [lia|]).
  - (* the last byte of the key: any byte of the text will do *)
    assert (j = length pre) by lia. subst j.
    destruct (Hat (length pre) b) as [Hb Hlt].
    { rewrite lookup_app_r by lia. rewrite Nat.sub_diag. reflexivity. }
    cbn [matches_loop]. unfold bind at 1, getCharNr at 1. cbn [charNr].
    unfold bind at 1, checkC, bind at 1, eof at 1. cbn [data].
    replace (Z.of_nat (length text) <=? start + Z.of_nat (length pre))
      with false by (symmetry; apply Z.leb_gt; lia).
    unfold bind at 1, QueryParser.c at 1. cbn [data].
    replace (Z.to_nat (start + Z.of_nat (length pre)))
      with (Z.to_nat start + length pre)%nat by lia.
    rewrite Hb. unfold ret at 1.
    replace (start + Z.of_nat (length pre) - start)
      with (Z.of_nat (length pre)) by lia.
    rewrite (wrap64_small (Z.of_nat (length pre))) by lia.
    cbn [matches_range]. rewrite wrap64_small by lia.
    rewrite Hlen, Z.eqb_refl. reflexivity.
  - destruct (lookup_lt_is_Some_2 pre j ltac:(lia)) as [c Hc].
    destruct (Hat j c) as [Hb Hlt].
    { rewrite lookup_app_l by lia. exact Hc. }
    cbn [matches_loop]. unfold bind at 1, getCharNr at 1. cbn [charNr].
    unfold bind at 1, checkC, bind at 1, eof at 1. cbn [data].
    replace (Z.of_nat (length text) <=? start + Z.of_nat j)
      with false by (symmetry; apply Z.leb_gt; lia).
    unfold bind at 1, QueryParser.c at 1. cbn [data].
    replace (Z.to_nat (start + Z.of_nat j))
      with (Z.to_nat start + j)%nat by lia.
    rewrite Hb. unfold ret at 1.
    replace (start + Z.of_nat j - start) with (Z.of_nat j) by lia.
    rewrite (wrap64_small (Z.of_nat j)) by lia.
    cbn [matches_range]. rewrite wrap64_small by lia.
    rewrite Hlen.
    replace (Z.of_nat (length pre) + 1 =? Z.of_nat j + 1) with false
      by (symmetry; apply Z.eqb_neq; lia).
    replace (Z.of_nat (length pre) + 1 <=? Z.of_nat j) with false
      by (symmetry; apply Z.leb_gt; lia).
    rewrite Nat2Z.id, get_list_ascii, Hkey, lookup_app_l, Hc by lia.
    rewrite Z.eqb_refl. cbn [orb negb rev app length Nat.eqb].
    unfold bind at 1, incrCharNr at 1. cbn [data charNr].
    rewrite wrap64_small by lia.
    replace (start + Z.of_nat j + 1) with (start + Z.of_nat (S j)) by lia.
    apply IH; lia.
Qed.

(** X12. [matches] does not compare the last byte of a key: called with
    one key, it returns the key as soon as the text at the cursor agrees
    with the key on all bytes but the last and has one more byte [b],
    whatever [b] is; the cursor is left on that byte. *)
Theorem matches_ignores_last_byte (text : list ascii) (nr : Z) (key : string)
  (pre : list ascii) (last b : ascii) :
  0 <= nr ->
  Z.of_nat (length text) + 3 < 2 ^ 64 ->
  list_ascii_of_string key = pre ++ [last] ->
  take (S (length pre)) (drop (Z.to_nat nr) text) = pre ++ [b] ->
  matches [key] (MkIter text nr)
  = Ok (key, MkIter text (nr + Z.of_nat (length pre))).
Proof.
  intros Hnr Hfits Hkey Htext.
  unfold matches, bind at 1, getCharNr at 1. cbn [charNr].
  unfold bind at 1, loopFuel at 1. cbn [data].
  change (remove_dups [key]) with [key].
  rewrite <- (Z.add_0_r nr) at 2. change 0 with (Z.of_nat 0).
  apply (matches_loop_one_key text nr key pre last b Hnr Hfits Hkey Htext
           (length pre) 0%nat); [lia|].
  assert (Hl : (length (pre ++ [b]) <= length text)%nat).
  { rewrite <- Htext, length_take, length_drop. lia. }
  rewrite length_app in Hl. simpl in Hl. lia.
Qed.

(** The text [mut x] read for the keys [query] and [mutation]. *)
Lemma matches_spec_witness :
  exists (r : string) (q : Z),
    matches ["query"; "mutation"] (MkIter (list_ascii_of_string "mut x") 0)
    = Ok (r, MkIter (list_ascii_of_string "mut x") q)
    /\ ((r = EmptyString /\ q = 0)
        \/ (r ∈ ["query"; "mutation"] /\ q = 0 + len r - 1
            /\ 0 <= q < Z.of_nat (length (list_ascii_of_string "mut x"))
            /\ agrees (list_ascii_of_string "mut x") 0 r
                 (String.length r - 1))).
Proof.
  apply (matches_spec (list_ascii_of_string "mut x")).
  - vm_compute. reflexivity.
  - lia.
Defined.

(** An operation without a selection set. *)
Lemma ParseQuery_returns_witness :
  (exists op : Operator,
      ParseQuery "mutation m" = Ok (Some op, None)
      /\ validOperator op = true)
  \/ exists err : string, ParseQuery "mutation m" = Ok (None, Some err).
Proof. apply ParseQuery_returns. vm_compute. reflexivity. Defined.

(** Spaces, a comment ended by CR LF, and a comment up to the end. *)
Lemma ParseQuery_of_ignored_tokens_witness :
  ParseQuery Examples.ignoredInput
  = Ok (Some (MkOperator "query" EmptyString), None).
Proof. apply ParseQuery_of_ignored_tokens; vm_compute; reflexivity. Defined.

(** The text [querx] read for the key [query]. *)
Lemma matches_ignores_last_byte_witness :
  matches ["query"] (MkIter (list_ascii_of_string "querx {a}") 0)
  = Ok ("query",
        MkIter (list_ascii_of_string "querx {a}")
          (0 + Z.of_nat (length (list_ascii_of_string "quer")))).
Proof.
  apply (matches_ignores_last_byte (list_ascii_of_string "querx {a}") 0
           "query" (list_ascii_of_string "quer") "y"%char "x"%char).
  - lia.
  - vm_compute. reflexivity.
  - reflexivity.
  - reflexivity.
Defined.

End ParserMore.

Module EnumsMore.
Import Names NamesFacts Reflect Enums EnumsFacts.

(** ** The argument of [RegisterEnum] *)

Lemma enumMapType_true (map_ : MapArg) :
  enumMapType map_ = true ->
  mapKind map_ = Map /\ mapKeyKind map_ = String
  /\ validEnumType (mapElem map_) = true
  /\ tPkgPath (mapElem map_) <> EmptyString
  /\ tName (mapElem map_) <> EmptyString.
Proof.
  unfold enumMapType, kind_eqb. intros H.
  repeat (apply andb_true_iff in H; destruct H as [H ?]).
  repeat match goal with
         | H : negb _ = true |- _ => apply negb_true_iff, String.eqb_neq in H
         | H : bool_decide _ = true |- _ => apply bool_decide_eq_true in H
         end.
  auto.
Qed.

Lemma registerEnumCheck_untyped (map_ : MapArg) :
  enumMapType map_ = false -> exists msg, registerEnumCheck map_ = Panic msg.
Proof.
  unfold enumMapType, registerEnumCheck. intros H.
  destruct (kind_eqb (mapKind map_) Map); cbn [negb]; [|eauto].
  destruct (kind_eqb (mapKeyKind map_) String); cbn [negb]; [|eauto].
  destruct (validEnumType (mapElem map_)); cbn [negb]; [|eauto].
  cbn [andb] in H.
  destruct (String.eqb (tPkgPath (mapElem map_)) EmptyString); cbn [orb];
    [eauto|].
  destruct (String.eqb (tName (mapElem map_)) EmptyString); cbn [orb];
    [eauto|discriminate].
Qed.

Lemma validGraphQlName_not_empty (label : string) :
  validGraphQlName label = None -> String.eqb label EmptyString = false.
Proof. destruct label; [discriminate|reflexivity]. Qed.

(** ** The loop over the entries *)

Lemma range_succeeds (entries : list (string * EnumValue)) :
  forall (res : gmap string EnumValue) (valueKeyMap : gmap EnumValue string),
    Forall (fun kv => validGraphQlName kv.1 = None) entries ->
    NoDup (map snd entries) ->
    (forall v, v ∈ map snd entries -> valueKeyMap !! v = None) ->
    exists res' valueKeyMap',
      registerEnumCheck_range entries res valueKeyMap = Ok (res', valueKeyMap').
Proof.
  induction entries as [|[k0 v0] entries IH]; intros res vk Hvalid Hnodup Hfresh.
  - eauto.
  - cbn [registerEnumCheck_range].
    inversion Hvalid as [|? ? Hk0 Hrest]; subst. cbn [fst] in Hk0.
    rewrite (validGraphQlName_not_empty _ Hk0), Hk0.
    rewrite (Hfresh v0) by (cbn; apply list_elem_of_here).
    cbn [map snd] in Hnodup. apply NoDup_cons in Hnodup.
    destruct Hnodup as [Hnotin Hnodup].
    apply IH; [exact Hrest|exact Hnodup|].
    intros v Hv. rewrite lookup_insert_ne.
    + apply Hfresh. cbn. apply list_elem_of_further. exact Hv.
    + intros ->. apply Hnotin. exact Hv.
Qed.

Lemma range_inverse (entries : list (string * EnumValue)) :
  forall (res res' : gmap string EnumValue)
         (valueKeyMap valueKeyMap' : gmap EnumValue string),
    NoDup (map fst entries) ->
    (forall k, k ∈ map fst entries -> res !! k = None) ->
    (forall label v, res !! label = Some v <-> valueKeyMap !! v = Some label) ->
    registerEnumCheck_range entries res valueKeyMap = Ok (res', valueKeyMap') ->
    forall label v, res' !! label = Some v <-> valueKeyMap' !! v = Some label.
Proof.
  induction entries as [|[k0 v0] entries IH];
    intros res res' vk vk' Hnodup Hfresh Hinv Hrun.
  - injection Hrun as <- <-. exact Hinv.
  - cbn [registerEnumCheck_range] in Hrun.
    destruct (String.eqb k0 EmptyString); [discriminate|].
    destruct (validGraphQlName k0); [discriminate|].
    destruct (vk !! v0) eqn:Hv0; [discriminate|].
    cbn [map fst] in Hnodup. apply NoDup_cons in Hnodup.
    destruct Hnodup as [Hnotin Hnodup].
    assert (Hk0 : res !! k0 = None)
      by (apply Hfresh; cbn; apply list_elem_of_here).
    refine (IH _ _ _ _ Hnodup _ _ Hrun).
    + intros k Hk. rewrite lookup_insert_ne.
      * apply Hfresh. cbn. apply list_elem_of_further. exact Hk.
      * intros ->. apply Hnotin. exact Hk.
    + intros label v.
      destruct (decide (label = k0)) as [->|Hl];
        destruct (decide (v = v0)) as [->|Hv].
      * rewrite !lookup_insert_eq. split; reflexivity.
      * rewrite lookup_insert_eq, lookup_insert_ne by congruence.
        split; [congruence|]. intros Hvk. apply Hinv in Hvk. congruence.
      * rewrite lookup_insert_ne, lookup_insert_eq by congruence.
        split; [|congruence]. intros Hres. apply Hinv in Hres. congruence.
      * rewrite !lookup_insert_ne by congruence. apply Hinv.
Qed.

Lemma values_nodup (m : gmap string EnumValue) :
  (forall k1 k2 v, m !! k1 = Some v -> m !! k2 = Some v -> k1 = k2) ->
  NoDup (map snd (map_to_list m)).
Proof.
  intros Hinj. apply (NoDup_fmap_2_strong snd).
  - intros [k1 v1] [k2 v2] H1 H2 Heq. cbn in Heq. subst v2.
    apply elem_of_map_to_list in H1, H2. rewrite (Hinj k1 k2 v1 H1 H2).
    reflexivity.
  - apply NoDup_map_to_list.
Qed.

(** What a call of [RegisterEnum] that returns [true] has stored. *)
Lemma RegisterEnum_stores (definedEnums definedEnums' : gmap string enum)
  (map_ : MapArg) :
  RegisterEnum definedEnums map_ = Ok (true, definedEnums') ->
  exists e : enum,
    definedEnums' = <[tName (mapElem map_) := e]> definedEnums
    /\ typeName e = tName (mapElem map_)
    /\ contentType e = mapElem map_
    /\ keyValue e = mapEntries map_.
Proof.
  unfold RegisterEnum. intros Hrun.
  destruct (enumMapType map_) eqn:Htyped.
  2:{ destruct (registerEnumCheck_untyped _ Htyped) as [msg Hmsg].
      rewrite Hmsg in Hrun. discriminate. }
  destruct (enumMapType_true _ Htyped) as (Hkind & Hkey & Hvalid & Hpkg & Hname).
  rewrite (registerEnumCheck_typed _ Hkind Hkey Hvalid Hpkg Hname) in Hrun.
  destruct (size (mapEntries map_) =? 0)%nat eqn:Hsize; [discriminate|].
  destruct (registerEnumCheck_range (map_to_list (mapEntries map_)) ∅ ∅)
    as [[res vk]|msg|] eqn:Hrange; try discriminate.
  injection Hrun as <-. cbn [typeName].
  eexists. split; [reflexivity|]. cbn [typeName contentType keyValue].
  split; [reflexivity|]. split; [reflexivity|].
  exact (range_map _ _ _ Hrange).
Qed.

(** X13. [RegisterEnum] registers an enum exactly for the arguments of a
    type [map[string]T], [T] a named type of an integer, unsigned integer
    or string kind, that have at least one entry, only labels accepted by
    [validGraphQlName], and no value under two labels.  The enum is then
    stored under the name of [T], in the place of what was registered under
    that name and beside the other enums, and it has the type [T] and the
    entries of the map. *)
Theorem RegisterEnum_succeeds_iff (definedEnums : gmap string enum)
  (map_ : MapArg) :
  ((exists definedEnums',
       RegisterEnum definedEnums map_ = Ok (true, definedEnums'))
   <-> (enumMapType map_ = true
        /\ mapEntries map_ <> ∅
        /\ (forall label v, mapEntries map_ !! label = Some v ->
                            validGraphQlName label = None)
        /\ (forall k1 k2 v, mapEntries map_ !! k1 = Some v ->
                            mapEntries map_ !! k2 = Some v -> k1 = k2)))
  /\ (forall definedEnums' : gmap string enum,
        RegisterEnum definedEnums map_ = Ok (true, definedEnums') ->
        exists e : enum,
          definedEnums' = <[tName (mapElem map_) := e]> definedEnums
          /\ typeName e = tName (mapElem map_)
          /\ contentType e = mapElem map_
          /\ keyValue e = mapEntries map_).
Proof.
  split; [|intros d' Hrun; exact (RegisterEnum_stores _ _ _ Hrun)].
  unfold RegisterEnum. split.
  - intros [d' Hrun].
    destruct (enumMapType map_) eqn:Htyped.
    2:{ destruct (registerEnumCheck_untyped _ Htyped) as [msg Hmsg].
        rewrite Hmsg in Hrun. discriminate. }
    destruct (enumMapType_true _ Htyped) as (Hkind & Hkey & Hvalid & Hpkg & Hname).
    rewrite (registerEnumCheck_typed _ Hkind Hkey Hvalid Hpkg Hname) in Hrun.
    destruct (size (mapEntries map_) =? 0)%nat eqn:Hsize; [discriminate|].
    destruct (registerEnumCheck_range (map_to_list (mapEntries map_)) ∅ ∅)
      as [[res vk]|msg|] eqn:Hrange; try discriminate.
    split; [reflexivity|]. split.
    { intros Hempty. apply size_zero_empty in Hempty. congruence. }
    split.
    + intros label v Hlook.
      pose proof (range_map _ _ _ Hrange) as ->.
      destruct (range_labels _ _ _ _ _ Hrange label v Hlook)
        as [Hold|(_ & _ & Hok)]; [|exact Hok].
      rewrite lookup_empty in Hold. discriminate.
    + intros k1 k2 v H1 H2. destruct (decide (k1 = k2)) as [|Hne]; [assumption|].
      destruct (range_duplicate_value (map_to_list (mapEntries map_)) ∅ ∅
                  k1 k2 v Hne) as [msg Hmsg].
      { apply elem_of_map_to_list. exact H1. }
      { apply elem_of_map_to_list. exact H2. }
      congruence.
  - intros (Htyped & Hne & Hlabels & Hinj).
    destruct (enumMapType_true _ Htyped) as (Hkind & Hkey & Hvalid & Hpkg & Hname).
    rewrite (registerEnumCheck_typed _ Hkind Hkey Hvalid Hpkg Hname).
    destruct (size (mapEntries map_) =? 0)%nat eqn:Hsize.
    { apply size_zero_empty in Hsize. contradiction. }
    destruct (range_succeeds (map_to_list (mapEntries map_)) ∅ ∅)
      as (res & vk & Hrange).
    + apply Forall_forall. intros [k v] Hin. cbn [fst].
      apply elem_of_map_to_list in Hin. exact (Hlabels k v Hin).
    + apply values_nodup. exact Hinj.
    + intros v _. apply lookup_empty.
    + rewrite Hrange. eauto.
Qed.

(** X14. In a registered enum the two maps are inverse to each other:
    [valueKey] has the label [l] under the value [v] exactly when
    [keyValue] has [v] under [l]; the entries of [keyValue] are those of
    the argument. *)
Theorem enum_maps_are_inverse (definedEnums definedEnums' : gmap string enum)
  (map_ : MapArg) :
  RegisterEnum definedEnums map_ = Ok (true, definedEnums') ->
  exists e : enum,
    definedEnums' !! tName (mapElem map_) = Some e
    /\ keyValue e = mapEntries map_
    /\ forall (label : string) (v : EnumValue),
         keyValue e !! label = Some v <-> valueKey e !! v = Some label.
Proof.
  unfold RegisterEnum. intros Hrun.
  destruct (enumMapType map_) eqn:Htyped.
  2:{ destruct (registerEnumCheck_untyped _ Htyped) as [msg Hmsg].
      rewrite Hmsg in Hrun. discriminate. }
  destruct (enumMapType_true _ Htyped) as (Hkind & Hkey & Hvalid & Hpkg & Hname).
  rewrite (registerEnumCheck_typed _ Hkind Hkey Hvalid Hpkg Hname) in Hrun.
  destruct (size (mapEntries map_) =? 0)%nat eqn:Hsize; [discriminate|].
  destruct (registerEnumCheck_range (map_to_list (mapEntries map_)) ∅ ∅)
    as [[res vk]|msg|] eqn:Hrange; try discriminate.
  injection Hrun as <-. cbn [typeName].
  eexists. split; [apply lookup_insert_eq|]. cbn [keyValue valueKey].
  split; [exact (range_map _ _ _ Hrange)|].
  refine (range_inverse _ _ _ _ _ (NoDup_fst_map_to_list _) _ _ Hrange).
  - intros k _. apply lookup_empty.
  - intros label v. rewrite !lookup_empty. split; discriminate.
Qed.

(** X15. The values a registered enum lists for introspection are its
    labels, each once, in ascending order of the names, none of them
    deprecated. *)
Theorem enum_values_are_sorted_labels
  (definedEnums definedEnums' : gmap string enum) (map_ : MapArg) :
  RegisterEnum definedEnums map_ = Ok (true, definedEnums') ->
  exists e : enum,
    definedEnums' !! tName (mapElem map_) = Some e
    /\ qlKind (enumQlType e) = typeKindEnum
    /\ qlTypeName (enumQlType e) = Some (tName (mapElem map_))
    /\ StronglySorted String.le (map qlName (qlEnumValues (enumQlType e)))
    /\ map qlName (qlEnumValues (enumQlType e))
       ≡ₚ map fst (map_to_list (mapEntries map_))
    /\ Forall (fun v => qlIsDeprecated v = false
                        /\ qlDeprecationReason v = None)
              (qlEnumValues (enumQlType e)).
Proof.
  unfold RegisterEnum. intros Hrun.
  destruct (enumMapType map_) eqn:Htyped.
  2:{ destruct (registerEnumCheck_untyped _ Htyped) as [msg Hmsg].
      rewrite Hmsg in Hrun. discriminate. }
  destruct (enumMapType_true _ Htyped) as (Hkind & Hkey & Hvalid & Hpkg & Hname).
  rewrite (registerEnumCheck_typed _ Hkind Hkey Hvalid Hpkg Hname) in Hrun.
  destruct (size (mapEntries map_) =? 0)%nat eqn:Hsize; [discriminate|].
  destruct (registerEnumCheck_range (map_to_list (mapEntries map_)) ∅ ∅)
    as [[res vk]|msg|] eqn:Hrange; try discriminate.
  injection Hrun as <-. cbn [typeName].
  pose proof (range_map _ _ _ Hrange) as ->.
  eexists. split; [apply lookup_insert_eq|].
  cbn [enumQlType qlKind qlTypeName qlEnumValues].
  split; [reflexivity|]. split; [reflexivity|].
  rewrite map_map. cbn [qlName]. rewrite map_id.
  split; [apply StronglySorted_merge_sort; apply _|].
  split; [apply merge_sort_Permutation|].
  apply Forall_forall. intros v Hv. apply list_elem_of_In, in_map_iff in Hv.
  destruct Hv as (key & <- & _). split; reflexivity.
Qed.

(** X16. After a registration, [getEnum] finds the enum under the element
    type of the map, with the entries of the map, and answers as before
    for every type of another name; a call of [RegisterEnum] that returns
    [false] leaves the answers of [getEnum] as they were. *)
Theorem getEnum_after_RegisterEnum
  (definedEnums definedEnums' : gmap string enum) (map_ : MapArg)
  (added : bool) :
  RegisterEnum definedEnums map_ = Ok (added, definedEnums') ->
  if added then
    (exists e : enum,
        getEnum definedEnums' (mapElem map_) = Some e
        /\ contentType e = mapElem map_
        /\ keyValue e = mapEntries map_)
    /\ forall t : GoType,
         tName t <> tName (mapElem map_) ->
         getEnum definedEnums' t = getEnum definedEnums t
  else forall t : GoType, getEnum definedEnums' t = getEnum definedEnums t.
Proof.
  unfold RegisterEnum. intros Hrun.
  destruct (enumMapType map_) eqn:Htyped.
  2:{ destruct (registerEnumCheck_untyped _ Htyped) as [msg Hmsg].
      rewrite Hmsg in Hrun. discriminate. }
  destruct (enumMapType_true _ Htyped) as (Hkind & Hkey & Hvalid & Hpkg & Hname).
  rewrite (registerEnumCheck_typed _ Hkind Hkey Hvalid Hpkg Hname) in Hrun.
  destruct (size (mapEntries map_) =? 0)%nat eqn:Hsize.
  { injection Hrun as <- <-. reflexivity. }
  destruct (registerEnumCheck_range (map_to_list (mapEntries map_)) ∅ ∅)
    as [[res vk]|msg|] eqn:Hrange; try discriminate.
  injection Hrun as <- <-. cbn [typeName]. split.
  - eexists. unfold getEnum. rewrite Hvalid. cbn [negb].
    replace (String.length (tPkgPath (mapElem map_)) =? 0)%nat with false
      by (destruct (tPkgPath (mapElem map_)); [congruence|reflexivity]).
    replace (String.length (tName (mapElem map_)) =? 0)%nat with false
      by (destruct (tName (mapElem map_)); [congruence|reflexivity]).
    cbn [orb]. rewrite lookup_insert_eq.
    split; [reflexivity|]. split; [reflexivity|].
    exact (range_map _ _ _ Hrange).
  - intros t Hne. unfold getEnum. rewrite lookup_insert_ne by congruence.
    reflexivity.
Qed.

(** The map of [Cat] and [Dog], registered in the empty registry. *)
Lemma RegisterEnum_succeeds_iff_witness :
  exists e : enum,
    Examples.animalsRegistered
    = <[tName (mapElem Examples.animalsEnumMap) := e]> ∅
    /\ typeName e = tName (mapElem Examples.animalsEnumMap)
    /\ contentType e = mapElem Examples.animalsEnumMap
    /\ keyValue e = mapEntries Examples.animalsEnumMap.
Proof.
  destruct (RegisterEnum_succeeds_iff ∅ Examples.animalsEnumMap)
    as [_ Hstored].
  apply Hstored. vm_compute. reflexivity.
Defined.

(** The map of [Cat] and [Dog], registered in the empty registry. *)
Lemma enum_maps_are_inverse_witness :
  exists e : enum,
    Examples.animalsRegistered !! tName (mapElem Examples.animalsEnumMap)
    = Some e
    /\ keyValue e = mapEntries Examples.animalsEnumMap
    /\ forall (label : string) (v : EnumValue),
         keyValue e !! label = Some v <-> valueKey e !! v = Some label.
Proof.
  apply (enum_maps_are_inverse ∅). vm_compute. reflexivity.
Defined.

Lemma enum_values_are_sorted_labels_witness :
  exists e : enum,
    Examples.animalsRegistered !! tName (mapElem Examples.animalsEnumMap)
    = Some e
    /\ qlKind (enumQlType e) = typeKindEnum
    /\ qlTypeName (enumQlType e)
       = Some (tName (mapElem Examples.animalsEnumMap))
    /\ StronglySorted String.le (map qlName (qlEnumValues (enumQlType e)))
    /\ map qlName (qlEnumValues (enumQlType e))
       ≡ₚ map fst (map_to_list (mapEntries Examples.animalsEnumMap))
    /\ Forall (fun v => qlIsDeprecated v = false
                        /\ qlDeprecationReason v = None)
              (qlEnumValues (enumQlType e)).
Proof.
  apply (enum_values_are_sorted_labels ∅). vm_compute. reflexivity.
Defined.

Lemma getEnum_after_RegisterEnum_witness :
  (exists e : enum,
      getEnum Examples.animalsRegistered (mapElem Examples.animalsEnumMap)
      = Some e
      /\ contentType e = mapElem Examples.animalsEnumMap
      /\ keyValue e = mapEntries Examples.animalsEnumMap)
  /\ forall t : GoType,
       tName t <> tName (mapElem Examples.animalsEnumMap) ->
       getEnum Examples.animalsRegistered t = getEnum ∅ t.
Proof.
  apply (getEnum_after_RegisterEnum ∅ Examples.animalsRegistered
           Examples.animalsEnumMap true).
  vm_compute. reflexivity.
Defined.

End EnumsMore.

Module ParseMore.
Import Names NamesFacts Reflect ValueTypes Parse ParseFacts.

(** ** Names *)

Lemma rune_of_byte_of (n : Z) : 0 <= n < 256 -> rune_of_byte (byte_of n) = n.
Proof.
  intros Hn. unfold rune_of_byte, byte_of.
  rewrite N_ascii_embedding; [lia|].
  change 256%N with (Z.to_N 256). lia.
Qed.

Lemma isUpper_range (r : rune) : isUpper r = true <-> 65 <= r <= 90.
Proof. unfold isUpper, r_A, r_Z. rewrite andb_true_iff, !Z.leb_le. reflexivity. Qed.

Lemma isLower_range (r : rune) : isLower r = true <-> 97 <= r <= 122.
Proof. unfold isLower, r_a, r_z. rewrite andb_true_iff, !Z.leb_le. reflexivity. Qed.

(** On an ASCII byte [bytes.ToLower] gives one byte, which is no upper-case
    letter; it is the byte itself exactly when that is no upper-case
    letter. *)
Lemma toLower1_ascii (b : ascii) :
  rune_of_byte b < 128 ->
  exists b' : ascii,
    toLower1 b = [b']
    /\ rune_of_byte b' < 128
    /\ isUpper (rune_of_byte b') = false
    /\ (b' = b <-> isUpper (rune_of_byte b) = false).
Proof.
  intros Hb. unfold toLower1.
  pose proof (rune_of_byte_range b) as Hr.
  destruct (isUpper (rune_of_byte b)) eqn:Hup.
  - apply isUpper_range in Hup.
    exists (byte_of (rune_of_byte b + 32)).
    rewrite rune_of_byte_of by lia.
    split; [reflexivity|]. split; [lia|]. split.
    + apply not_true_is_false. rewrite isUpper_range. lia.
    + split; [|discriminate]. intros Heq.
      apply (f_equal rune_of_byte) in Heq.
      rewrite rune_of_byte_of in Heq by lia. lia.
  - replace (rune_of_byte b <? 128) with true by (symmetry; apply Z.ltb_lt; lia).
    exists b. split; [reflexivity|]. split; [lia|]. split; [exact Hup|].
    split; reflexivity.
Qed.

(** The test [input[1] == bytes.ToUpper([]byte{input[1]})[0]] on an ASCII
    byte. *)
Lemma toUpper1_head_ascii (b : ascii) :
  rune_of_byte b < 128 ->
  bool_decide (head (toUpper1 b) = Some b) = negb (isLower (rune_of_byte b)).
Proof.
  intros Hb. unfold toUpper1.
  pose proof (rune_of_byte_range b) as Hr.
  destruct (isLower (rune_of_byte b)) eqn:Hlow; cbn [negb].
  - apply isLower_range in Hlow. apply bool_decide_eq_false_2.
    cbn [head]. intros Heq. injection Heq as Heq.
    apply (f_equal rune_of_byte) in Heq.
    rewrite rune_of_byte_of in Heq by lia. lia.
  - replace (rune_of_byte b <? 128) with true by (symmetry; apply Z.ltb_lt; lia).
    apply bool_decide_eq_true_2. reflexivity.
Qed.

Lemma string_of_list_ascii_inj (l l' : list ascii) :
  string_of_list_ascii l = string_of_list_ascii l' -> l = l'.
Proof.
  intros H. apply (f_equal list_ascii_of_string) in H.
  rewrite !list_ascii_of_string_of_list_ascii in H. exact H.
Qed.

(** [formatGoNameToQL] on the string of a list of bytes. *)
Lemma formatGoNameToQL_bytes (l : list ascii) :
  formatGoNameToQL (string_of_list_ascii l)
  = match l with
    | [] | [_] => string_of_list_ascii (concat (map toLower1 l))
    | b0 :: b1 :: rest =>
        if bool_decide (head (toUpper1 b1) = Some b1)
        then string_of_list_ascii l
        else string_of_list_ascii (toLower1 b0 ++ b1 :: rest)
    end.
Proof.
  unfold formatGoNameToQL, toLower.
  rewrite list_ascii_of_string_of_list_ascii.
  destruct l as [|b0 [|b1 rest]]; reflexivity.
Qed.

Lemma formatGoNameToQL_ascii_bytes (l : list ascii) :
  Forall (fun b => rune_of_byte b < 128) l ->
  exists l' : list ascii,
    formatGoNameToQL (string_of_list_ascii l) = string_of_list_ascii l'
    /\ length l' = length l
    /\ tail l' = tail l
    /\ formatGoNameToQL (string_of_list_ascii l') = string_of_list_ascii l'
    /\ (l' = l
        <-> match l with
            | [] => True
            | [b0] => isUpper (rune_of_byte b0) = false
            | b0 :: b1 :: _ =>
                isUpper (rune_of_byte b0) = false
                \/ isLower (rune_of_byte b1) = false
            end).
Proof.
  intros Hascii. rewrite formatGoNameToQL_bytes.
  destruct l as [|b0 [|b1 rest]].
  - exists []. repeat split.
  - apply Forall_cons in Hascii. destruct Hascii as [Hb0 _].
    destruct (toLower1_ascii b0 Hb0) as (b' & Hlow & Hb' & Hup' & Hsame).
    exists [b']. cbn [map concat]. rewrite Hlow. cbn [app].
    split; [reflexivity|]. split; [reflexivity|]. split; [reflexivity|].
    split.
    + rewrite formatGoNameToQL_bytes. cbn [map concat].
      destruct (toLower1_ascii b' Hb') as (b'' & Hlow' & _ & _ & Hsame').
      rewrite Hlow'. cbn [app]. do 2 f_equal. apply Hsame'. exact Hup'.
    + rewrite <- Hsame. split; [intros Heq; injection Heq; auto|].
      intros ->. reflexivity.
  - apply Forall_cons in Hascii. destruct Hascii as [Hb0 Hrest].
    apply Forall_cons in Hrest. destruct Hrest as [Hb1 _].
    rewrite (toUpper1_head_ascii b1 Hb1).
    destruct (isLower (rune_of_byte b1)) eqn:Hl1; cbn [negb].
    + destruct (toLower1_ascii b0 Hb0) as (b' & Hlow & Hb' & Hup' & Hsame).
      exists (b' :: b1 :: rest). rewrite Hlow. cbn [app].
      split; [reflexivity|]. split; [reflexivity|]. split; [reflexivity|].
      split.
      * rewrite formatGoNameToQL_bytes, (toUpper1_head_ascii b1 Hb1), Hl1.
        cbn [negb].
        destruct (toLower1_ascii b' Hb') as (b'' & Hlow' & _ & _ & Hsame').
        rewrite Hlow'. cbn [app]. do 2 f_equal. apply Hsame'. exact Hup'.
      * rewrite <- Hsame. split.
        -- intros Heq. injection Heq as Heq. left. exact Heq.
        -- intros [->|Hf]; [reflexivity|discriminate].
    + exists (b0 :: b1 :: rest).
      split; [reflexivity|]. split; [reflexivity|]. split; [reflexivity|].
      split.
      * rewrite formatGoNameToQL_bytes, (toUpper1_head_ascii b1 Hb1), Hl1.
        reflexivity.
      * split; auto.
Qed.

Lemma get_string_of_list_ascii (l : list ascii) (p : nat) :
  String.get p (string_of_list_ascii l) = l !! p.
Proof.
  revert p. induction l as [|a l IH]; intros [|p]; cbn; auto.
Qed.

Lemma length_string_of_list_ascii (l : list ascii) :
  String.length (string_of_list_ascii l) = length l.
Proof. induction l; cbn; congruence. Qed.

(** X17. On a name of ASCII bytes [formatGoNameToQL] changes at most the
    first byte: the length and the bytes after the first are kept.  The
    name is returned as it is exactly when it does not start with an
    upper-case letter or when it has a second byte that is no lower-case
    letter, so that [ID] and [X1] keep their capital and [Foo] becomes
    [foo].  Formatting a formatted name changes nothing. *)
Theorem formatGoNameToQL_ascii (input : string) :
  Forall (fun b => rune_of_byte b < 128) (list_ascii_of_string input) ->
  String.length (formatGoNameToQL input) = String.length input
  /\ (forall p : nat, String.get (S p) (formatGoNameToQL input)
                      = String.get (S p) input)
  /\ formatGoNameToQL (formatGoNameToQL input) = formatGoNameToQL input
  /\ (formatGoNameToQL input = input
      <-> match list_ascii_of_string input with
          | [] => True
          | [b0] => isUpper (rune_of_byte b0) = false
          | b0 :: b1 :: _ =>
              isUpper (rune_of_byte b0) = false
              \/ isLower (rune_of_byte b1) = false
          end).
Proof.
  intros Hascii.
  destruct (formatGoNameToQL_ascii_bytes _ Hascii)
    as (l' & Hrun & Hlen & Htail & Hidem & Hfix).
  rewrite string_of_list_ascii_of_string in Hrun. rewrite Hrun.
  split.
  { rewrite length_string_of_list_ascii, Hlen.
    rewrite <- (length_string_of_list_ascii (list_ascii_of_string input)).
    rewrite string_of_list_ascii_of_string. reflexivity. }
  split.
  { intros p.
    assert (Hget : String.get (S p) input
                   = list_ascii_of_string input !! S p).
    { rewrite <- get_string_of_list_ascii, string_of_list_ascii_of_string.
      reflexivity. }
    rewrite Hget, get_string_of_list_ascii.
    destruct l' as [|a l']; destruct (list_ascii_of_string input) as [|b l];
      try discriminate; [reflexivity|].
    cbn [tail] in Htail. rewrite Htail. reflexivity. }
  split; [exact Hidem|].
  rewrite <- Hfix. split.
  - intros Heq. apply string_of_list_ascii_inj.
    rewrite string_of_list_ascii_of_string. exact Heq.
  - intros ->. apply string_of_list_ascii_of_string.
Qed.

Section Build.

Variable renamedTypes : gmap string string.
Variable structImplementsMap : gmap string (list GoType).
Variable implementationMap : gmap string (list GoType).
Variable getEnum : GoType -> option Z.
Variable Implements : GoType -> GoType -> bool.
Variable injectQLTypes : parseCtx -> Res parseCtx.

#[local] Abbreviation classifyOuts := (Parse.classifyOuts Implements).
#[local] Abbreviation isDataOut := (Parse.isDataOut Implements).
#[local] Abbreviation isErrorOut := (Parse.isErrorOut Implements).
#[local] Abbreviation dataOuts := (Parse.dataOuts Implements).
#[local] Abbreviation errorOuts := (Parse.errorOuts Implements).
#[local] Abbreviation check :=
  (Parse.check renamedTypes structImplementsMap implementationMap
     getEnum Implements).
#[local] Abbreviation checkFunction :=
  (Parse.checkFunction renamedTypes structImplementsMap implementationMap
     getEnum Implements).

(** ** The outputs of a resolver *)

(** The indices the loop over the outputs returns point to a data value
    and to an error value. *)
Lemma classifyOuts_indices (name : string) (outs : list GoType) :
  forall (i : Z) (isID : bool) (outNr hasErrorOut : option Z)
         (isID' : bool) (outNr' hasErrorOut' : option Z),
    0 <= i ->
    classifyOuts name outs i isID outNr hasErrorOut
    = inr (isID', outNr', hasErrorOut') ->
    (forall n, outNr' = Some n ->
               outNr = Some n
               \/ (i <= n /\ exists o, outs !! Z.to_nat (n - i) = Some o
                                       /\ isDataOut o = true))
    /\ (forall n, hasErrorOut' = Some n ->
                  hasErrorOut = Some n
                  \/ (i <= n /\ exists o, outs !! Z.to_nat (n - i) = Some o
                                          /\ isErrorOut o = true))
    /\ isID' = isID || existsb isAttrIsID outs.
Proof.
  induction outs as [|o outs IH];
    intros i isID outNr hasErr isID' outNr' hasErr' Hi Hrun.
  - injection Hrun as <- <- <-. rewrite orb_false_r. auto.
  - cbn [Parse.classifyOuts existsb] in Hrun |- *.
    assert (Hshift : forall n o', i + 1 <= n ->
               outs !! Z.to_nat (n - (i + 1)) = Some o' ->
               (o :: outs) !! Z.to_nat (n - i) = Some o').
    { intros n o' Hn Hlook.
      replace (Z.to_nat (n - i)) with (S (Z.to_nat (n - (i + 1)))) by lia.
      exact Hlook. }
    assert (Hhere : (o :: outs) !! Z.to_nat (i - i) = Some o).
    { rewrite Z.sub_diag. reflexivity. }
    destruct (isAttrIsID o) eqn:Hattr.
    { apply IH in Hrun; [|lia]. destruct Hrun as (Hd & He & ->).
      rewrite orb_true_r. cbn [orb]. split; [|split; [|reflexivity]].
      - intros n Hn. destruct (Hd n Hn) as [?|(Hle & o' & Hlook & Ho')]; [auto|].
        right. split; [lia|]. exists o'. split; [apply Hshift; assumption|exact Ho'].
      - intros n Hn. destruct (He n Hn) as [?|(Hle & o' & Hlook & Ho')]; [auto|].
        right. split; [lia|]. exists o'. split; [apply Hshift; assumption|exact Ho']. }
    cbn [orb].
    destruct (kind_eqb (tKind o) Interface && Implements o errorType) eqn:Herr.
    + destruct hasErr as [e|]; [discriminate|].
      apply IH in Hrun; [|lia]. destruct Hrun as (Hd & He & ->).
      split; [|split; [|reflexivity]].
      * intros n Hn. destruct (Hd n Hn) as [?|(Hle & o' & Hlook & Ho')]; [auto|].
        right. split; [lia|]. exists o'. split; [apply Hshift; assumption|exact Ho'].
      * intros n Hn. right.
        destruct (He n Hn) as [Heq|(Hle & o' & Hlook & Ho')].
        -- injection Heq as <-. split; [lia|]. exists o. split; [exact Hhere|].
           rewrite isErrorOut_eq, Hattr, Herr. reflexivity.
        -- split; [lia|]. exists o'. split; [apply Hshift; assumption|exact Ho'].
    + destruct outNr as [e|]; [discriminate|].
      apply IH in Hrun; [|lia]. destruct Hrun as (Hd & He & ->).
      split; [|split; [|reflexivity]].
      * intros n Hn. right.
        destruct (Hd n Hn) as [Heq|(Hle & o' & Hlook & Ho')].
        -- injection Heq as <-. split; [lia|]. exists o. split; [exact Hhere|].
           rewrite isDataOut_eq, Hattr, Herr. reflexivity.
        -- split; [lia|]. exists o'. split; [apply Hshift; assumption|exact Ho'].
      * intros n Hn. destruct (He n Hn) as [?|(Hle & o' & Hlook & Ho')]; [auto|].
        right. split; [lia|]. exists o'. split; [apply Hshift; assumption|exact Ho'].
Qed.

(** [checkFunction] with fuel left, in terms of [check]. *)
Lemma checkFunction_unfold (fuel : nat) (name : string) (t : GoType)
  (isTypeMethod hasIDTag : bool) :
  checkFunction (S fuel) name t isTypeMethod hasIDTag
  = (let* resolver := lift (resolverName name isTypeMethod) in
     match resolver with
     | None => ret (None, EmptyString, hasIDTag, None)
     | Some trimmedName =>
         if tVariadic t then
           ret (None, EmptyString, hasIDTag,
                Some "function method cannot end with spread operator (...string)")
         else if (length (tOut t) =? 0)%nat then
           ret (None, EmptyString, hasIDTag, Some (name +:+ " no value returned"))
         else
           match classifyOuts name (tOut t) 0 hasIDTag None None with
           | inl (isID, e) => ret (None, EmptyString, isID, Some e)
           | inr (isID, None, _) =>
               ret (None, EmptyString, isID,
                    Some (name +:+ " does not return usable data"))
           | inr (isID, Some outNr, hasErrorOut) =>
               match tOut t !! Z.to_nat outNr with
               | None => panic "reflect: Out index out of range"
               | Some outT =>
                   let* (outTypeObj, err) := check fuel outT isID in
                   match err, outTypeObj with
                   | Some e, _ => ret (None, EmptyString, isID, Some e)
                   | None, None =>
                       panic "invalid memory address or nil pointer dereference"
                   | None, Some outTypeObj =>
                       let* ptr :=
                         appendParsedMethod
                           (MkObjMethod isTypeMethod name t [] ∅ false outNr
                              outTypeObj hasErrorOut) in
                       ret (Some ptr, formatGoNameToQL trimmedName, isID, None)
                   end
               end
           end
     end).
Proof. reflexivity. Qed.

(** X18. A resolver that [checkFunction] accepts is registered as the last
    of the parsed methods, and the pointer returned is the one to that
    entry.  The function is not variadic and returns exactly one data
    value and at most one error value; [outNr] is the position of the data
    value among the outputs and [errorOutNr], when there is one, that of
    the error value; the field is an ID when it was tagged so or when an
    output is the marker [AttrIsID]; the GraphQL name is that of the
    resolver without its prefix, in the spelling of [formatGoNameToQL]. *)
Theorem accepted_resolver_is_registered (fuel : nat) (name qlName : string)
  (t : GoType) (isTypeMethod hasIDTag isID : bool) (ptr : methodPtr)
  (c c' : parseCtx) :
  checkFunction fuel name t isTypeMethod hasIDTag c
  = Ok ((Some ptr, qlName, isID, None), c') ->
  exists (trimmedName : string) (m : objMethod) (outT : GoType),
    resolverName name isTypeMethod = Ok (Some trimmedName)
    /\ qlName = formatGoNameToQL trimmedName
    /\ tVariadic t = false
    /\ length (dataOuts (tOut t)) = 1%nat
    /\ (length (errorOuts (tOut t)) <= 1)%nat
    /\ isID = hasIDTag || existsb isAttrIsID (tOut t)
    /\ parsedMethods c' !! ptr = Some m
    /\ length (parsedMethods c') = S ptr
    /\ Parse.isTypeMethod m = isTypeMethod
    /\ goFunctionName m = name
    /\ goType m = t
    /\ checkedIns m = false
    /\ 0 <= outNr m
    /\ tOut t !! Z.to_nat (outNr m) = Some outT
    /\ isDataOut outT = true
    /\ (forall k, errorOutNr m = Some k ->
                  0 <= k /\ exists e, tOut t !! Z.to_nat k = Some e
                                      /\ isErrorOut e = true).
Proof.
  destruct fuel as [|fuel]; [discriminate|].
  rewrite checkFunction_unfold. unfold bind at 1, lift at 1.
  destruct (resolverName name isTypeMethod) as [[trimmedName|]| |] eqn:Hname;
    try discriminate.
  destruct (tVariadic t) eqn:Hvar; [discriminate|].
  destruct (length (tOut t) =? 0)%nat; [discriminate|].
  pose proof (classifyOuts_spec Implements name (tOut t) 0 hasIDTag None None)
    as Hspec.
  destruct (classifyOuts name (tOut t) 0 hasIDTag None None)
    as [[b e]|[[b [nr|]] hasErr]] eqn:Hclass; try discriminate.
  destruct (classifyOuts_indices _ _ _ _ _ _ _ _ _ (Z.le_refl 0) Hclass)
    as (Hd & He & ->).
  destruct (Hd nr eq_refl) as [?|(Hnr & outT & Hlook & HoutT)]; [discriminate|].
  rewrite Z.sub_0_r in Hlook. rewrite Hlook.
  unfold bind at 1.
  destruct (check fuel outT (hasIDTag || existsb isAttrIsID (tOut t)) c)
    as [[[o err] c1]| |]; try discriminate.
  destruct err as [e|]; [discriminate|].
  destruct o as [o|]; [|discriminate].
  unfold bind at 1, appendParsedMethod at 1, ret. intros Hrun.
  injection Hrun as <- <- <- <-.
  exists trimmedName. eexists. exists outT.
  cbn [parsedMethods Parse.isTypeMethod goFunctionName goType checkedIns outNr
       errorOutNr seen] in *.
  destruct Hspec as (H1 & H2 & H3).
  split; [reflexivity|]. split; [reflexivity|]. split; [reflexivity|].
  split; [lia|]. split; [lia|]. split; [reflexivity|].
  split. { rewrite lookup_app_r by lia. rewrite Nat.sub_diag. reflexivity. }
  split. { rewrite length_app. simpl. lia. }
  split; [reflexivity|]. split; [reflexivity|]. split; [reflexivity|].
  split; [reflexivity|]. split; [exact Hnr|]. split; [exact Hlook|].
  split; [exact HoutT|].
  intros k Hk. destruct (He k Hk) as [?|(Hk0 & e & Hlk & He')]; [discriminate|].
  rewrite Z.sub_0_r in Hlk. split; [exact Hk0|]. eauto.
Qed.

(** X19. [checkFunction] refuses, with an error, without a method, and
    with the parse context as it was, every resolver that is variadic,
    that returns no data value or more than one, or that returns more than
    one error value. *)
Theorem rejected_resolver_changes_nothing (fuel : nat)
  (name trimmedName : string) (t : GoType) (isTypeMethod hasIDTag : bool)
  (c : parseCtx) :
  resolverName name isTypeMethod = Ok (Some trimmedName) ->
  tVariadic t = true
  \/ length (dataOuts (tOut t)) <> 1%nat
  \/ (1 < length (errorOuts (tOut t)))%nat ->
  exists (isID : bool) (msg : string),
    checkFunction (S fuel) name t isTypeMethod hasIDTag c
    = Ok ((None, EmptyString, isID, Some msg), c).
Proof.
  intros Hname [Hvar|Hbad].
  - cbn [Parse.checkFunction]. unfold bind at 1, lift at 1.
    rewrite Hname, Hvar. eauto.
  - destruct (tVariadic t) eqn:Hvar.
    + cbn [Parse.checkFunction]. unfold bind at 1, lift at 1.
      rewrite Hname, Hvar. eauto.
    + apply (checkFunction_validates _ _ _ _ _ _ _ trimmedName); assumption.
Qed.

(** ** Types that are registered already *)

(** X20. A named struct type whose name is in the registry is not
    traversed again: for an entry of the same package [check] returns the
    reference to it, for an entry of another package the error [cannot
    have 2 structs with same type name]; either way the parse context is
    left as it was. *)
Theorem registered_struct_is_referenced (fuel : nat) (t : GoType) (v : obj)
  (c : parseCtx) :
  tKind t = Struct ->
  tName t <> EmptyString ->
  ~ (tPkgPath t = "time" /\ tName t = "Time") ->
  types (schema c) !! rename renamedTypes (tName t) = Some v ->
  valueTypeOf v = valueTypeObj ->
  check (S fuel) t false c
  = if String.eqb (goPkgPath v) (tPkgPath t) then
      Ok ((Some (MkObj valueTypeObjRef (typeName v) (goTypeName v)
                   (goPkgPath v) EmptyString false false ∅ 0 None Invalid
                   None 0 []), None), c)
    else
      Ok ((None,
           Some ("cannot have 2 structs with same type name: "
                 +:+ goPkgPath v +:+ "(" +:+ tName t +:+ ") != "
                 +:+ tPkgPath t +:+ "(" +:+ tName t +:+ ")")), c).
Proof.
  intros Hkind Hname Htime Hlook Hvt.
  assert (Hnot : String.eqb (tPkgPath t) "time" && String.eqb (tName t) "Time"
                 = false).
  { apply andb_false_iff.
    destruct (String.eqb_spec (tPkgPath t) "time") as [Hp|Hp]; [|auto].
    destruct (String.eqb_spec (tName t) "Time") as [Hn|Hn]; [|auto].
    exfalso. apply Htime. auto. }
  cbn [Parse.check]. unfold newObj. cbn [goPkgPath goTypeName].
  rewrite Hnot, Hkind. cbn [typeName withTypeName].
  apply String.eqb_neq in Hname. rewrite Hname. cbn [negb].
  unfold bind at 1, bind at 1, get at 1. rewrite Hlook.
  cbn [goPkgPath goTypeName].
  destruct (String.eqb (goPkgPath v) (tPkgPath t)); cbn [negb].
  - unfold bind at 1, lift at 1, getRef. rewrite Hvt. reflexivity.
  - reflexivity.
Qed.

End Build.

(** ** On the sample types *)

(** The field [ResolveFoo func() (string, error)], checked at the start of
    a build. *)
Lemma accepted_resolver_is_registered_witness :
  exists (trimmedName : string) (m : objMethod) (outT : GoType),
    resolverName "ResolveFoo" false = Ok (Some trimmedName)
    /\ "foo" = formatGoNameToQL trimmedName
    /\ tVariadic Examples.dataErrorFunc = false
    /\ length (Parse.dataOuts Examples.Implements
                 (tOut Examples.dataErrorFunc)) = 1%nat
    /\ (length (Parse.errorOuts Examples.Implements
                  (tOut Examples.dataErrorFunc)) <= 1)%nat
    /\ false = false || existsb isAttrIsID (tOut Examples.dataErrorFunc)
    /\ parsedMethods Examples.fooParseCtx !! 0%nat = Some m
    /\ length (parsedMethods Examples.fooParseCtx) = 1%nat
    /\ Parse.isTypeMethod m = false
    /\ goFunctionName m = "ResolveFoo"
    /\ goType m = Examples.dataErrorFunc
    /\ checkedIns m = false
    /\ 0 <= outNr m
    /\ tOut Examples.dataErrorFunc !! Z.to_nat (outNr m) = Some outT
    /\ Parse.isDataOut Examples.Implements outT = true
    /\ (forall k, errorOutNr m = Some k ->
                  0 <= k
                  /\ exists e, tOut Examples.dataErrorFunc !! Z.to_nat k = Some e
                               /\ Parse.isErrorOut Examples.Implements e = true).
Proof.
  apply (accepted_resolver_is_registered ∅ ∅ ∅ (fun _ => None)
           Examples.Implements 5 "ResolveFoo" "foo" Examples.dataErrorFunc
           false false false 0%nat Examples.emptyParseCtx Examples.fooParseCtx).
  vm_compute. reflexivity.
Defined.

(** The field [ResolveFoo func() (string, int)], which returns two data
    values. *)
Lemma rejected_resolver_changes_nothing_witness :
  exists (isID : bool) (msg : string),
    Parse.checkFunction ∅ ∅ ∅ (fun _ => None) Examples.Implements 5
      "ResolveFoo" Examples.twoDataFunc false false Examples.fooParseCtx
    = Ok ((None, EmptyString, isID, Some msg), Examples.fooParseCtx).
Proof.
  apply (rejected_resolver_changes_nothing ∅ ∅ ∅ (fun _ => None)
           Examples.Implements 4 "ResolveFoo" "Foo" Examples.twoDataFunc
           false false Examples.fooParseCtx).
  - vm_compute. reflexivity.
  - right. left. vm_compute. lia.
Defined.

(** The struct [Q] of the package [other], checked when [Q] of [main] is
    registered. *)
Lemma registered_struct_is_referenced_witness :
  Parse.check ∅ ∅ ∅ (fun _ => None) Examples.Implements 3 Examples.otherQ
    false Examples.registryParseCtx
  = if String.eqb (goPkgPath Examples.registeredQ) (tPkgPath Examples.otherQ)
    then
      Ok ((Some (MkObj valueTypeObjRef (typeName Examples.registeredQ)
                   (goTypeName Examples.registeredQ)
                   (goPkgPath Examples.registeredQ) EmptyString false false ∅ 0
                   None Invalid None 0 []), None), Examples.registryParseCtx)
    else
      Ok ((None,
           Some ("cannot have 2 structs with same type name: "
                 +:+ goPkgPath Examples.registeredQ +:+ "("
                 +:+ tName Examples.otherQ +:+ ") != "
                 +:+ tPkgPath Examples.otherQ +:+ "("
                 +:+ tName Examples.otherQ +:+ ")")),
          Examples.registryParseCtx).
Proof.
  apply (registered_struct_is_referenced ∅ ∅ ∅ (fun _ => None)
           Examples.Implements 2 Examples.otherQ Examples.registeredQ
           Examples.registryParseCtx).
  - reflexivity.
  - discriminate.
  - intros [H _]. discriminate H.
  - vm_compute. reflexivity.
  - reflexivity.
Defined.

(** The name [Foo]. *)
Lemma formatGoNameToQL_ascii_witness :
  String.length (formatGoNameToQL "Foo") = String.length "Foo"
  /\ (forall p : nat, String.get (S p) (formatGoNameToQL "Foo")
                      = String.get (S p) "Foo")
  /\ formatGoNameToQL (formatGoNameToQL "Foo") = formatGoNameToQL "Foo"
  /\ (formatGoNameToQL "Foo" = "Foo"
      <-> match list_ascii_of_string "Foo" with
          | [] => True
          | [b0] => isUpper (rune_of_byte b0) = false
          | b0 :: b1 :: _ =>
              isUpper (rune_of_byte b0) = false
              \/ isLower (rune_of_byte b1) = false
          end).
Proof.
  apply (formatGoNameToQL_ascii "Foo").
  repeat (apply Forall_cons; split; [reflexivity|]). apply Forall_nil.
  exact I.
Defined.

End ParseMore.

Module BytecodeMore.
Import Reflect Bytecode.

(** ** [append] *)

(** [append] on a slice whose length is within its capacity: the bytes of
    the slice are kept and the new ones follow them; the capacity does not
    shrink, and it does not change when the bytes fit. *)
Lemma append_spec (grow : nat -> nat) (s : Slice) (b : list ascii) :
  (sliceLen s <= cap s)%nat ->
  contents (append grow s b) = contents s ++ b
  /\ sliceLen (append grow s b) = (sliceLen s + length b)%nat
  /\ (sliceLen (append grow s b) <= cap (append grow s b))%nat
  /\ (cap s <= cap (append grow s b))%nat
  /\ ((sliceLen s + length b <= cap s)%nat ->
      cap (append grow s b) = cap s
      /\ drop (sliceLen s + length b) (backing (append grow s b))
         = drop (sliceLen s + length b) (backing s)).
Proof.
  intros Hwf. unfold append, contents, cap in *.
  assert (Htake : length (take (sliceLen s) (backing s)) = sliceLen s)
    by (rewrite length_take; lia).
  destruct (sliceLen s + length b <=? length (backing s))%nat eqn:Hfit;
    cbn [backing sliceLen].
  - apply Nat.leb_le in Hfit.
    assert (Hlen : length (take (sliceLen s) (backing s) ++ b
                           ++ drop (sliceLen s + length b) (backing s))
                   = length (backing s)).
    { rewrite !length_app, Htake, length_drop. lia. }
    split.
    { rewrite app_assoc. apply take_app_length'.
      rewrite length_app, Htake. reflexivity. }
    split; [reflexivity|]. rewrite Hlen.
    split; [exact Hfit|]. split; [lia|]. intros _. split; [reflexivity|].
    rewrite app_assoc. apply drop_app_length'.
    rewrite length_app, Htake. reflexivity.
  - apply Nat.leb_gt in Hfit.
    split.
    { rewrite app_assoc. apply take_app_length'.
      rewrite length_app, Htake. reflexivity. }
    split; [reflexivity|].
    rewrite !length_app, Htake, length_replicate.
    split; [lia|]. split; [lia|]. intros Hle. lia.
Qed.

Section Ctx.

Context {Schema ParserCtx : Type}.

#[local] Abbreviation BytecodeCtx := (Bytecode.BytecodeCtx Schema ParserCtx).

(** ** The result buffer *)

(** X21. What [write] and [writeByte] put into the result buffer is
    appended to it: after a sequence of writes the buffer holds the bytes
    it held before, followed by the bytes written, in the order of the
    writes.  The capacity never shrinks, and while the bytes fit the
    capacity the buffer is not reallocated: the capacity stays and the
    bytes of the array behind the written ones are left as they were.  No
    other field of the context is touched. *)
Theorem writes_accumulate (grow : nat -> nat) (bs : list (list ascii))
  (ctx : BytecodeCtx) :
  (sliceLen (result ctx) <= cap (result ctx))%nat ->
  contents (result (fold_left (write grow) bs ctx))
  = contents (result ctx) ++ concat bs
  /\ (sliceLen (result (fold_left (write grow) bs ctx))
      <= cap (result (fold_left (write grow) bs ctx)))%nat
  /\ (cap (result ctx) <= cap (result (fold_left (write grow) bs ctx)))%nat
  /\ ((sliceLen (result ctx) + length (concat bs) <= cap (result ctx))%nat ->
      cap (result (fold_left (write grow) bs ctx)) = cap (result ctx)
      /\ drop (sliceLen (result ctx) + length (concat bs))
              (backing (result (fold_left (write grow) bs ctx)))
         = drop (sliceLen (result ctx) + length (concat bs))
                (backing (result ctx)))
  /\ schema (fold_left (write grow) bs ctx) = schema ctx
  /\ query (fold_left (write grow) bs ctx) = query ctx
  /\ charNr (fold_left (write grow) bs ctx) = charNr ctx
  /\ reflectValues (fold_left (write grow) bs ctx) = reflectValues ctx
  /\ currentReflectValueIdx (fold_left (write grow) bs ctx)
     = currentReflectValueIdx ctx.
Proof.
  revert ctx. induction bs as [|b bs IH]; intros ctx Hwf.
  - cbn [fold_left concat]. rewrite app_nil_r, Nat.add_0_r.
    split; [reflexivity|]. split; [exact Hwf|]. split; [lia|].
    split; [intros _; split; reflexivity|].
    repeat (split; [reflexivity|]). reflexivity.
  - cbn [fold_left concat].
    destruct (append_spec grow (result ctx) b Hwf)
      as (Hc & Hl & Hwf' & Hcap & Hfit).
    destruct (IH (write grow ctx b) Hwf')
      as (IHc & IHwf & IHcap & IHfit & IHs & IHq & IHn & IHv & IHi).
    cbn [write result schema query charNr reflectValues
         currentReflectValueIdx] in *.
    split. { rewrite IHc, Hc, <- app_assoc. reflexivity. }
    split; [exact IHwf|]. split; [lia|].
    split; [|repeat (split; [assumption|]); assumption].
    intros Hle. rewrite length_app in Hle.
    destruct (Hfit ltac:(lia)) as [Hcap' Hdrop].
    rewrite Hl, Hcap' in IHfit.
    destruct (IHfit ltac:(lia)) as [IHcap' IHdrop].
    split; [exact IHcap'|].
    rewrite length_app, Nat.add_assoc, IHdrop.
    rewrite <- (drop_drop (backing (append grow (result ctx) b))),
            <- (drop_drop (backing (result ctx))), Hdrop.
    reflexivity.
Qed.

(** ** The stack of reflect values *)

(** X22. [setNextGoValue] moves the cursor of the stack of reflect values
    one slot on and stores the value there, where [getGoValue] then reads
    it; the other slots keep their values.  The cursor is a [uint8] on an
    array of 256 slots, so it is never out of range: from the last slot it
    wraps to slot 0, which holds the root value, and overwrites it. *)
Theorem pushed_value_is_current (ctx : BytecodeCtx) (value : GoValue) :
  length (reflectValues ctx) = 256%nat ->
  0 <= currentReflectValueIdx ctx < 256 ->
  getGoValue (setNextGoValue ctx value) = value
  /\ currentReflectValueIdx (setNextGoValue ctx value)
     = (if currentReflectValueIdx ctx =? 255 then 0
        else currentReflectValueIdx ctx + 1)
  /\ length (reflectValues (setNextGoValue ctx value)) = 256%nat
  /\ (forall i : nat,
        i <> Z.to_nat (currentReflectValueIdx (setNextGoValue ctx value)) ->
        reflectValues (setNextGoValue ctx value) !! i
        = reflectValues ctx !! i)
  /\ result (setNextGoValue ctx value) = result ctx
  /\ charNr (setNextGoValue ctx value) = charNr ctx.
Proof.
  intros Hlen Hidx. unfold getGoValue, setNextGoValue.
  cbn [reflectValues currentReflectValueIdx result charNr].
  assert (Hwrap : wrap8 (currentReflectValueIdx ctx + 1)
                  = if currentReflectValueIdx ctx =? 255 then 0
                    else currentReflectValueIdx ctx + 1).
  { unfold wrap8. destruct (currentReflectValueIdx ctx =? 255) eqn:Hlast.
    - apply Z.eqb_eq in Hlast. rewrite Hlast. reflexivity.
    - apply Z.eqb_neq in Hlast. apply Z.mod_small.
      change (2 ^ 8) with 256. lia. }
  assert (Hin : 0 <= wrap8 (currentReflectValueIdx ctx + 1) < 256).
  { unfold wrap8. change (2 ^ 8) with 256. apply Z.mod_pos_bound. lia. }
  split.
  { rewrite list_lookup_insert_eq by lia. reflexivity. }
  split; [exact Hwrap|].
  split. { rewrite length_insert. exact Hlen. }
  split; [|split; reflexivity].
  intros i Hi. apply list_lookup_insert_ne. congruence.
Qed.

End Ctx.

(** ** On a used context *)

Lemma writes_accumulate_witness :
  contents (result (fold_left (write (fun n => n))
                      [list_ascii_of_string "ab"; []; list_ascii_of_string "c"]
                      Examples.usedBytecodeCtx))
  = contents (result Examples.usedBytecodeCtx)
    ++ concat [list_ascii_of_string "ab"; []; list_ascii_of_string "c"]
  /\ (sliceLen (result (fold_left (write (fun n => n))
                 [list_ascii_of_string "ab"; []; list_ascii_of_string "c"]
                 Examples.usedBytecodeCtx))
      <= cap (result (fold_left (write (fun n => n))
                 [list_ascii_of_string "ab"; []; list_ascii_of_string "c"]
                 Examples.usedBytecodeCtx)))%nat
  /\ (cap (result Examples.usedBytecodeCtx)
      <= cap (result (fold_left (write (fun n => n))
                 [list_ascii_of_string "ab"; []; list_ascii_of_string "c"]
                 Examples.usedBytecodeCtx)))%nat
  /\ ((sliceLen (result Examples.usedBytecodeCtx)
       + length (concat [list_ascii_of_string "ab"; [];
                         list_ascii_of_string "c"])
       <= cap (result Examples.usedBytecodeCtx))%nat ->
      cap (result (fold_left (write (fun n => n))
                     [list_ascii_of_string "ab"; []; list_ascii_of_string "c"]
                     Examples.usedBytecodeCtx))
      = cap (result Examples.usedBytecodeCtx)
      /\ drop (sliceLen (result Examples.usedBytecodeCtx)
               + length (concat [list_ascii_of_string "ab"; [];
                                 list_ascii_of_string "c"]))
              (backing (result (fold_left (write (fun n => n))
                 [list_ascii_of_string "ab"; []; list_ascii_of_string "c"]
                 Examples.usedBytecodeCtx)))
         = drop (sliceLen (result Examples.usedBytecodeCtx)
                 + length (concat [list_ascii_of_string "ab"; [];
                                   list_ascii_of_string "c"]))
                (backing (result Examples.usedBytecodeCtx)))
  /\ schema (fold_left (write (fun n => n))
               [list_ascii_of_string "ab"; []; list_ascii_of_string "c"]
               Examples.usedBytecodeCtx)
     = schema Examples.usedBytecodeCtx
  /\ query (fold_left (write (fun n => n))
              [list_ascii_of_string "ab"; []; list_ascii_of_string "c"]
              Examples.usedBytecodeCtx)
     = query Examples.usedBytecodeCtx
  /\ charNr (fold_left (write (fun n => n))
               [list_ascii_of_string "ab"; []; list_ascii_of_string "c"]
               Examples.usedBytecodeCtx)
     = charNr Examples.usedBytecodeCtx
  /\ reflectValues (fold_left (write (fun n => n))
                      [list_ascii_of_string "ab"; []; list_ascii_of_string "c"]
                      Examples.usedBytecodeCtx)
     = reflectValues Examples.usedBytecodeCtx
  /\ currentReflectValueIdx
       (fold_left (write (fun n => n))
          [list_ascii_of_string "ab"; []; list_ascii_of_string "c"]
          Examples.usedBytecodeCtx)
     = currentReflectValueIdx Examples.usedBytecodeCtx.
Proof.
  apply (writes_accumulate (fun n => n)
           [list_ascii_of_string "ab"; []; list_ascii_of_string "c"]
           Examples.usedBytecodeCtx).
  vm_compute. lia.
Defined.

(** A push at the last slot. *)
Lemma pushed_value_is_current_witness :
  getGoValue (setNextGoValue Examples.usedBytecodeCtx (VBool "bool" true))
  = VBool "bool" true
  /\ currentReflectValueIdx
       (setNextGoValue Examples.usedBytecodeCtx (VBool "bool" true))
     = (if currentReflectValueIdx Examples.usedBytecodeCtx =? 255 then 0
        else currentReflectValueIdx Examples.usedBytecodeCtx + 1)
  /\ length (reflectValues
               (setNextGoValue Examples.usedBytecodeCtx (VBool "bool" true)))
     = 256%nat
  /\ (forall i : nat,
        i <> Z.to_nat (currentReflectValueIdx
                         (setNextGoValue Examples.usedBytecodeCtx
                            (VBool "bool" true))) ->
        reflectValues
          (setNextGoValue Examples.usedBytecodeCtx (VBool "bool" true)) !! i
        = reflectValues Examples.usedBytecodeCtx !! i)
  /\ result (setNextGoValue Examples.usedBytecodeCtx (VBool "bool" true))
     = result Examples.usedBytecodeCtx
  /\ charNr (setNextGoValue Examples.usedBytecodeCtx (VBool "bool" true))
     = charNr Examples.usedBytecodeCtx.
Proof.
  apply (pushed_value_is_current Examples.usedBytecodeCtx (VBool "bool" true)).
  - vm_compute. reflexivity.
  - vm_compute. split; [discriminate|reflexivity].
Defined.

End BytecodeMore.
